(** * affilinker: slug assignment, content rewriting and the flat-file store

    A shallow embedding of the TypeScript sources

      - [src/core/transformer/index.ts]   (Transformer)
      - [src/core/reporter/index.ts]      (Reporter.toAffiliateLinks, toCsv,
                                           toSql)
      - [src/core/scanner/index.ts]       (Scanner.detectNetwork,
                                           extractLinksWithRegex,
                                           isExternalLink, scan)
      - [src/core/converter/index.ts]     (Converter.convert, convertAll)
      - [src/plugins/builtin/amazon.ts]   (AmazonPlugin)
      - [src/adapters/filesystem.ts]      (FileSystemAdapter)
      - [src/cli/commands/transform.ts], [src/cli/commands/sync.ts],
        [src/cli/commands/convert.ts]     (the data flow of the commands)
      - [src/config.ts]                   (mergeConfig, validateConfig)

    JavaScript strings are modelled as [string] (a sequence of code units,
    each an [ascii]); a [Map] whose iteration order is observable is an
    insertion-ordered association list; the [Set] of reserved slugs, of which
    only membership is observed, is a [gset string]; the wall clock read by
    [Date.now()] is an explicit stream of readings threaded through the
    functions that may consult it. *)

From Stdlib Require Import ZArith NArith String Ascii List Lia Bool Sorted.
From stdpp Require Import base decidable option list gmap strings pretty.

Local Open Scope string_scope.

(** ** JavaScript string primitives *)

Module JS.

(** [s.startsWith(p)] *)
Definition startsWith (s p : string) : bool := String.prefix p s.

(** [s.endsWith(p)] *)
Definition endsWith (s p : string) : bool :=
  String.prefix (String.rev p) (String.rev s).

(** [s.includes(sub)] *)
Fixpoint includes (s sub : string) : bool :=
  String.prefix sub s ||
  match s with
  | EmptyString => false
  | String _ s' => includes s' sub
  end.

(** Drop the first [n] code units. *)
Fixpoint drop (n : nat) (s : string) : string :=
  match n, s with
  | O, _ => s
  | S _, EmptyString => EmptyString
  | S k, String _ s' => drop k s'
  end.

(** [s.slice(0, n)] for [0 <= n] *)
Fixpoint slice0 (n : nat) (s : string) : string :=
  match n, s with
  | O, _ => EmptyString
  | S _, EmptyString => EmptyString
  | S k, String a s' => String a (slice0 k s')
  end.

(** [s.replace(pat, '')] for a string pattern: only the first occurrence
    is removed. *)
Fixpoint removeFirst (pat s : string) : string :=
  if String.prefix pat s then drop (String.length pat) s
  else match s with
       | EmptyString => EmptyString
       | String a s' => String a (removeFirst pat s')
       end.

(** [s.split(sep)] for a one-character separator; never the empty list. *)
Fixpoint split (sep : ascii) (s : string) : list string :=
  match s with
  | EmptyString => [EmptyString]
  | String a s' =>
      if Ascii.eqb a sep then EmptyString :: split sep s'
      else match split sep s' with
           | [] => [String a EmptyString]
           | w :: ws => String a w :: ws
           end
  end.

(** Truthiness of a string: the empty string is falsy. *)
Definition truthy (s : string) : bool := negb (String.eqb s "").

(** Truthiness of an optional string ([undefined] is falsy). *)
Definition truthy_opt (o : option string) : bool :=
  match o with Some s => truthy s | None => false end.

Definition is_upper (a : ascii) : bool :=
  let n := nat_of_ascii a in (65 <=? n)%nat && (n <=? 90)%nat.
Definition is_lower (a : ascii) : bool :=
  let n := nat_of_ascii a in (97 <=? n)%nat && (n <=? 122)%nat.
Definition is_digit (a : ascii) : bool :=
  let n := nat_of_ascii a in (48 <=? n)%nat && (n <=? 57)%nat.
Definition is_alnum (a : ascii) : bool := is_upper a || is_lower a || is_digit a.

Definition lower_char (a : ascii) : ascii :=
  if is_upper a then ascii_of_nat (nat_of_ascii a + 32) else a.

(** [s.toLowerCase()]; the sources apply it to host names and product
    identifiers, whose letters are ASCII. *)
Fixpoint toLowerCase (s : string) : string :=
  match s with
  | EmptyString => EmptyString
  | String a s' => String (lower_char a) (toLowerCase s')
  end.

(** Case-insensitive prefix test, as a literal inside an [/i] pattern. *)
Fixpoint prefix_ci (p s : string) : bool :=
  match p, s with
  | EmptyString, _ => true
  | String _ _, EmptyString => false
  | String a p', String b s' =>
      Ascii.eqb (lower_char a) (lower_char b) && prefix_ci p' s'
  end.

(** Longest prefix of [s] whose code units satisfy [f], and the rest. *)
Fixpoint span (f : ascii -> bool) (s : string) : string * string :=
  match s with
  | EmptyString => (EmptyString, EmptyString)
  | String a s' =>
      if f a then let '(x, y) := span f s' in (String a x, y)
      else (EmptyString, s)
  end.

(** [s.replace(/-+$/, '')]: the trailing run of dashes is removed. *)
Fixpoint stripTrailingDashes (s : string) : string :=
  match s with
  | EmptyString => EmptyString
  | String a s' =>
      match stripTrailingDashes s' with
      | EmptyString => if Ascii.eqb a "-" then EmptyString else String a EmptyString
      | t => String a t
      end
  end.

Definition digit36 (d : N) : ascii :=
  if (d <? 10)%N then ascii_of_N (48 + d) else ascii_of_N (87 + d).

Fixpoint toString36_go (fuel : nat) (n : N) (acc : string) : string :=
  match fuel with
  | O => acc
  | S k =>
      let acc' := String (digit36 (n mod 36)) acc in
      if (n / 36 =? 0)%N then acc' else toString36_go k (n / 36) acc'
  end.

(** [n.toString(36)] for a non-negative integer. *)
Definition toString36 (n : N) : string :=
  toString36_go (S (N.to_nat (N.log2 n))) n EmptyString.

End JS.

(** ** Regular-expression replacement

    [String.prototype.replace] expands the replacement template through the
    abstract operation GetSubstitution.  The patterns of these sources have
    no capture group that a template refers to, so [$1]..[$99] and [$<]
    stay literal; [$$], [$&], [$`] and [$'] are expanded. *)

Module RegExp.

Fixpoint GetSubstitution (matched before after templ : string) : string :=
  match templ with
  | EmptyString => EmptyString
  | String a rest =>
      if Ascii.eqb a "$" then
        match rest with
        | EmptyString => String a EmptyString
        | String c rest' =>
            if Ascii.eqb c "$" then
              String "$" (GetSubstitution matched before after rest')
            else if Ascii.eqb c "&" then
              matched +:+ GetSubstitution matched before after rest'
            else if Ascii.eqb c "`" then
              before +:+ GetSubstitution matched before after rest'
            else if Ascii.eqb c "'" then
              after +:+ GetSubstitution matched before after rest'
            else String a (GetSubstitution matched before after rest)
        end
      else String a (GetSubstitution matched before after rest)
  end.

(** The characters that are syntax in a pattern. *)
Definition is_syntax (a : ascii) : bool :=
  existsb (Ascii.eqb a)
    ["."; "*"; "+"; "?"; "^"; "$"; "{"; "}"; "("; ")"; "|"; "["; "]"; "\"]%char.

(** [new RegExp(src)] restricted to the patterns that are a non-empty
    sequence of ordinary characters and backslash-escaped syntax
    characters: the result is the literal text the pattern matches.
    [None] stands for every other source text (a pattern with operators,
    or one the constructor rejects). *)
Fixpoint literal_go (src : string) : option string :=
  match src with
  | EmptyString => Some EmptyString
  | String a rest =>
      if Ascii.eqb a "\" then
        match rest with
        | EmptyString => None
        | String c rest' =>
            if is_syntax c then String c <$> literal_go rest' else None
        end
      else if is_syntax a then None
      else String a <$> literal_go rest
  end.

Definition literal (src : string) : option string :=
  match literal_go src with
  | Some EmptyString => None
  | r => r
  end.

(** [text.replace(re, templ)] for a global ([g]) literal pattern [pat]:
    matches are found left to right and do not overlap; [before] is the
    part of the subject already scanned, [skip] the number of code units
    of the current match still to be passed over. *)
Fixpoint replaceAll_go (pat templ before : string) (skip : nat) (s : string)
  : string :=
  match s with
  | EmptyString => EmptyString
  | String a s' =>
      let before' := before +:+ String a EmptyString in
      match skip with
      | S k => replaceAll_go pat templ before' k s'
      | O =>
          if String.prefix pat s then
            GetSubstitution pat before (JS.drop (String.length pat) s) templ
            +:+ replaceAll_go pat templ before' (String.length pat - 1) s'
          else String a (replaceAll_go pat templ before' 0 s')
      end
  end.

(** The pattern is not empty (see [literal]). *)
Definition replaceAll (pat templ s : string) : string :=
  replaceAll_go pat templ EmptyString 0 s.

(** Leftmost match of [/tag=[^&]+/] at the start of [s]: the matched text
    and what follows it. *)
Definition match_tag_here (s : string) : option (string * string) :=
  if String.prefix "tag=" s then
    let '(v, rest) := JS.span (fun a => negb (Ascii.eqb a "&")) (JS.drop 4 s) in
    if JS.truthy v then Some ("tag=" +:+ v, rest) else None
  else None.

(** [s.replace(/tag=[^&]+/, templ)]: only the first match is replaced. *)
Fixpoint replaceTag_go (templ before s : string) : string :=
  match match_tag_here s with
  | Some (m, rest) => GetSubstitution m before rest templ +:+ rest
  | None =>
      match s with
      | EmptyString => EmptyString
      | String a s' =>
          String a (replaceTag_go templ (before +:+ String a EmptyString) s')
      end
  end.

Definition replaceTag (templ s : string) : string :=
  replaceTag_go templ EmptyString s.

(** Leftmost position of [s] at which [here] succeeds. *)
Fixpoint search {A} (here : string -> option A) (s : string) : option A :=
  match here s with
  | Some r => Some r
  | None =>
      match s with
      | EmptyString => None
      | String _ s' => search here s'
      end
  end.

End RegExp.

(** ** The platform

    The URL parser and the [slugify] package are not part of the
    repository; the development is parametric in them.  [URL_parse s] is
    [new URL(s)], with [None] when the constructor throws. *)

Class Platform := {
  URL : Type;
  URL_parse : string -> option URL;
  URL_hostname : URL -> string;
  URL_pathname : URL -> string;
  searchParams_has : URL -> string -> bool;
  searchParams_delete : URL -> string -> URL;
  searchParams_set : URL -> string -> string -> URL;
  URL_toString : URL -> string;
  (** [slugify(s, { lower: true, strict: true, trim: true })]; [trim]
      defaults to [true], so both call shapes of the sources are this one. *)
  slugify : string -> string;
}.

(** ** The clock

    [Date.now()] consumes the next reading of the stream. *)

Definition Clock := nat -> N.

Definition Date_now (c : Clock) : N * Clock := (c O, fun n => c (S n)).

(** ** Data model ([src/types.ts]) *)

Module ExtractedLink.
Record t := mk {
  url : string;
  text : string;
  file : string;
  line : nat;
  column : nat;
  isAffiliate : bool;
  network : option string;
  originalUrl : option string;
}.
End ExtractedLink.

Module AffiliateLink.
Record t := mk {
  slug : string;
  name : string;
  url : string;
  is_affiliate : bool;
  network : option string;
  created_at : option string;
}.
End AffiliateLink.

Record NetworkOptions := {
  tag : option string;
  cleanParams : option bool;
}.

Module NetworkPlugin.
Record t := mk {
  name : string;
  detect : string -> bool;
  convert : string -> NetworkOptions -> string;
  extractProductId : string -> option string;
  generateSlug : string -> string -> Clock -> string * Clock;
}.
End NetworkPlugin.

(** One entry of [config.networks]. *)
Record NetworkConfig := {
  enabled : bool;
  network_tag : option string;
  network_cleanParams : option bool;
}.

Record LinksmithConfig := {
  siteUrl : string;
  tracking_baseUrl : string;
  networks : gmap string NetworkConfig;
}.

Record Change := {
  original : string;
  change_slug : string;
  trackingUrl : string;
}.

Record TransformResult := {
  result_file : string;
  originalContent : string;
  transformedContent : string;
  linksTransformed : nat;
  changes : list Change;
}.

(** ** Insertion-ordered maps ([Map<string, V>]) *)

Module Map.
Section Map.
Context {V : Type}.

Definition t := list (string * V).

Fixpoint get (m : t) (k : string) : option V :=
  match m with
  | [] => None
  | (k', v) :: m' => if String.eqb k' k then Some v else get m' k
  end.

Definition has (m : t) (k : string) : bool :=
  match get m k with Some _ => true | None => false end.

(** [m.set(k, v)]: an existing key keeps its position, a new key goes
    last. *)
Fixpoint set (m : t) (k : string) (v : V) : t :=
  match m with
  | [] => [(k, v)]
  | (k', v') :: m' =>
      if String.eqb k' k then (k', v) :: m' else (k', v') :: set m' k v
  end.

(** [new Map(entries)] *)
Definition of_entries (es : list (string * V)) : t :=
  fold_left (fun m e => set m (fst e) (snd e)) es [].

Definition keys (m : t) : list string := fst <$> m.

(** [Array.from(m.values())] *)
Definition values (m : t) : list V := snd <$> m.
End Map.
Arguments t : clear implicits.
End Map.

Record ConversionResult := {
  conv_original : string;
  converted : string;
  conv_network : string;
  conv_tag : option string;
}.

(** [this.plugins = new Map(plugins.map(p => [p.name, p]))] followed by
    [this.plugins.get(n)]. *)
Definition plugins_get (plugins : list NetworkPlugin.t) (n : string)
  : option NetworkPlugin.t :=
  Map.get (Map.of_entries (map (fun p => (NetworkPlugin.name p, p)) plugins)) n.

(** ** The Amazon plugin ([src/plugins/builtin/amazon.ts]) *)

Module AmazonPlugin.
Section AmazonPlugin.
Context `{Platform}.

Definition AMAZON_DOMAINS : list string :=
  [ "amazon.com"; "amazon.co.uk"; "amazon.de"; "amazon.fr"; "amazon.it";
    "amazon.es"; "amazon.ca"; "amazon.com.au"; "amazon.co.jp"; "amazon.in";
    "amzn.to"; "amzn.com" ].

(** [([A-Z0-9]{10})] under the [i] flag, at the start of [s]. *)
Definition asin_here (s : string) : option (string * string) :=
  let t := JS.slice0 10 s in
  if (String.length t =? 10)%nat
     && forallb JS.is_alnum (list_ascii_of_string t)
  then Some (t, JS.drop 10 s) else None.

(** [/\/(?:dp|gp\/product)\/([A-Z0-9]{10})/i]: capture group 1. *)
Definition pattern_product_here (s : string) : option string :=
  let alt (lit : string) :=
    if JS.prefix_ci lit s
    then fst <$> asin_here (JS.drop (String.length lit) s) else None in
  match alt "/dp/" with
  | Some r => Some r
  | None => alt "/gp/product/"
  end.

(** [/amzn\.to\/([A-Za-z0-9]+)/]: capture group 1. *)
Definition pattern_short_here (s : string) : option string :=
  if String.prefix "amzn.to/" s then
    let '(v, _) := JS.span JS.is_alnum (JS.drop 8 s) in
    if JS.truthy v then Some v else None
  else None.

(** [/\/(?:gp\/product|dp)\/([A-Z0-9]{10})\/ref=/i]: capture group 1. *)
Definition pattern_ref_here (s : string) : option string :=
  let alt (lit : string) :=
    if JS.prefix_ci lit s then
      match asin_here (JS.drop (String.length lit) s) with
      | Some (a, rest) => if JS.prefix_ci "/ref=" rest then Some a else None
      | None => None
      end
    else None in
  match alt "/gp/product/" with
  | Some r => Some r
  | None => alt "/dp/"
  end.

(** [url.match(pattern)[1]] for each pattern, in the order of the
    table. *)
Definition AMAZON_PATTERNS : list (string -> option string) :=
  [ RegExp.search pattern_product_here;
    RegExp.search pattern_short_here;
    RegExp.search pattern_ref_here ].

Definition isAmazonHost (hostname : string) (domain : string) : bool :=
  String.eqb hostname domain || JS.endsWith hostname ("." +:+ domain).

Definition detect (url : string) : bool :=
  match URL_parse url with
  | Some parsed =>
      let hostname :=
        JS.removeFirst "www." (JS.toLowerCase (URL_hostname parsed)) in
      let isAmazonDomain := existsb (isAmazonHost hostname) AMAZON_DOMAINS in
      if negb isAmazonDomain then false
      else
        let hasTag :=
          searchParams_has parsed "tag" || JS.includes url "tag="
          || JS.includes url "linkCode=" || JS.includes url "creative="
          || JS.includes url "camp=" in
        let isProductLink :=
          existsb (fun pattern => bool_decide (is_Some (pattern url)))
            AMAZON_PATTERNS in
        hasTag || isProductLink
  | None => false
  end.

Fixpoint extractProductId_loop (patterns : list (string -> option string))
  (url : string) : option string :=
  match patterns with
  | [] => None
  | pattern :: rest =>
      match pattern url with
      | Some m1 =>
          if JS.truthy m1 then
            if JS.includes url "amzn.to" then None else Some m1
          else extractProductId_loop rest url
      | None => extractProductId_loop rest url
      end
  end.

Definition extractProductId (url : string) : option string :=
  extractProductId_loop AMAZON_PATTERNS url.

Definition extractDomain (url : string) : string :=
  match URL_parse url with
  | Some parsed =>
      let hostname :=
        JS.removeFirst "www." (JS.toLowerCase (URL_hostname parsed)) in
      match List.find (isAmazonHost hostname) AMAZON_DOMAINS with
      | Some domain => if JS.truthy domain then domain else "amazon.com"
      | None => "amazon.com"
      end
  | None => "amazon.com"
  end.

Definition updateTag (url : string) (tag : option string) : string :=
  match tag with
  | None => url
  | Some tag =>
      if negb (JS.truthy tag) then url
      else
        match URL_parse url with
        | Some parsed =>
            let parsed :=
              fold_left searchParams_delete
                ["tag"; "linkCode"; "creative"; "creativeASIN"; "camp"; "ref"]
                parsed in
            URL_toString (searchParams_set parsed "tag" tag)
        | None =>
            if JS.includes url "tag=" then
              RegExp.replaceTag ("tag=" +:+ tag) url
            else
              let separator := if JS.includes url "?" then "&" else "?" in
              url +:+ separator +:+ "tag=" +:+ tag
        end
  end.

Definition convert (url : string) (options : NetworkOptions) : string :=
  match extractProductId url with
  | None => updateTag url (tag options)
  | Some asin =>
      let domain := extractDomain url in
      let cleanUrl := "https://www." +:+ domain +:+ "/dp/" +:+ asin in
      if JS.truthy_opt (tag options)
      then cleanUrl +:+ "?tag=" +:+ default "" (tag options)
      else cleanUrl
  end.

Definition generateSlug (url linkText : string) (clock : Clock)
  : string * Clock :=
  if JS.truthy linkText && negb (String.eqb linkText url) then
    (JS.stripTrailingDashes (JS.slice0 50 (slugify linkText)), clock)
  else
    match extractProductId url with
    | Some asin => ("amazon-" +:+ JS.toLowerCase asin, clock)
    | None =>
        let '(now, clock') := Date_now clock in
        ("amazon-product-" +:+ JS.toString36 now, clock')
    end.

Definition plugin : NetworkPlugin.t :=
  {| NetworkPlugin.name := "amazon";
     NetworkPlugin.detect := detect;
     NetworkPlugin.convert := convert;
     NetworkPlugin.extractProductId := extractProductId;
     NetworkPlugin.generateSlug := generateSlug |}.

End AmazonPlugin.
End AmazonPlugin.

(** ** Scanner ([src/core/scanner/index.ts]) *)

Module Scanner.

(** [detectNetwork]: the first plugin whose [detect] accepts the URL. *)
Fixpoint detectNetwork (plugins : list NetworkPlugin.t) (url : string)
  : bool * option string :=
  match plugins with
  | [] => (false, None)
  | plugin :: rest =>
      if NetworkPlugin.detect plugin url
      then (true, Some (NetworkPlugin.name plugin))
      else detectNetwork rest url
  end.

End Scanner.

(** ** Converter ([src/core/converter/index.ts]) *)

Module Converter.
Section Converter.
Variable config : LinksmithConfig.
Variable plugins : list NetworkPlugin.t.

Definition getNetworkConfig (network : string) : option NetworkConfig :=
  networks config !! network.

Definition convert (link : ExtractedLink.t) : option ConversionResult :=
  match ExtractedLink.network link with
  | None => None
  | Some network =>
      if negb (JS.truthy network) then None
      else
        match plugins_get plugins network with
        | None => None
        | Some plugin =>
            match getNetworkConfig network with
            | None => None
            | Some networkConfig =>
                if negb (enabled networkConfig) then None
                else
                  let options :=
                    {| tag := network_tag networkConfig;
                       cleanParams :=
                         Some (default true (network_cleanParams networkConfig)) |} in
                  Some {| conv_original := ExtractedLink.url link;
                          converted :=
                            NetworkPlugin.convert plugin
                              (ExtractedLink.url link) options;
                          conv_network := network;
                          conv_tag := network_tag networkConfig |}
            end
        end
  end.
End Converter.
End Converter.

(** ** Shared pieces of the slug engine

    [Transformer] and [Reporter] each carry their own copy of this code. *)

Section URLParts.
Context `{Platform}.

(** [url.hostname.replace('www.', '').split('.')[0]] *)
Definition domainOf (url : URL) : string :=
  hd "" (JS.split "." (JS.removeFirst "www." (URL_hostname url))).

(** [url.pathname.split('/').filter(Boolean)[0] || ''] *)
Definition pathPartOf (url : URL) : string :=
  hd "" (List.filter JS.truthy (JS.split "/" (URL_pathname url))).
End URLParts.

(** The [while (usedSlugs.has(slug))] loop of slug assignment.  [fuel]
    bounds the number of times the loop condition is evaluated; [None] means
    the bound was reached. *)
Fixpoint uniqueSlug_loop `{Platform} (fuel : nat) (usedSlugs : gset string)
  (url baseSlug slug : string) (counter : nat) : option string :=
  match fuel with
  | O => None
  | S fuel' =>
      if bool_decide (slug ∈ usedSlugs) then
        let numeric :=
          uniqueSlug_loop fuel' usedSlugs url baseSlug
            (baseSlug +:+ "-" +:+ pretty (S counter)) (S counter) in
        match URL_parse url with
        | Some parsed =>
            let domainSlug := baseSlug +:+ "-" +:+ domainOf parsed in
            if negb (bool_decide (domainSlug ∈ usedSlugs)) then Some domainSlug
            else numeric
        | None => numeric
        end
      else Some slug
  end.

(** [let slug = baseSlug; let counter = 1; while ...]: the loop condition
    is evaluated at most once more than there are reserved slugs. *)
Definition uniqueSlug `{Platform} (usedSlugs : gset string)
  (url baseSlug : string) : option string :=
  uniqueSlug_loop (S (size usedSlugs)) usedSlugs url baseSlug baseSlug 1.

(** ** Transformer ([src/core/transformer/index.ts]) *)

Module Transformer.
Section Transformer.
Context `{Platform}.
Variable config : LinksmithConfig.
Variable plugins : list NetworkPlugin.t.

Definition pluginOf (link : ExtractedLink.t) : option NetworkPlugin.t :=
  match ExtractedLink.network link with
  | Some network =>
      if JS.truthy network then plugins_get plugins network else None
  | None => None
  end.

Definition generateSlug (link : ExtractedLink.t) (clock : Clock)
  : string * Clock :=
  let url := ExtractedLink.url link in
  let text := ExtractedLink.text link in
  match pluginOf link with
  | Some plugin => NetworkPlugin.generateSlug plugin url text clock
  | None =>
      if JS.truthy text && negb (String.eqb text url) then
        (JS.stripTrailingDashes (JS.slice0 50 (slugify text)), clock)
      else
        match URL_parse url with
        | Some parsed =>
            (JS.slice0 50
               (slugify (domainOf parsed +:+ "-" +:+ pathPartOf parsed)),
             clock)
        | None =>
            let '(now, clock') := Date_now clock in
            ("link-" +:+ JS.toString36 now, clock')
        end
  end.

(** The converted URL stored in the entry ([finalUrl]). *)
Definition finalUrl (link : ExtractedLink.t) : string :=
  let url := ExtractedLink.url link in
  match ExtractedLink.network link with
  | Some network =>
      if JS.truthy network then
        match plugins_get plugins network, networks config !! network with
        | Some plugin, Some networkConfig =>
            if enabled networkConfig then
              NetworkPlugin.convert plugin url
                {| tag := network_tag networkConfig;
                   cleanParams :=
                     Some (default true (network_cleanParams networkConfig)) |}
            else url
        | _, _ => url
        end
      else url
  | None => url
  end.

Definition entryOf (link : ExtractedLink.t) (slug : string)
  : AffiliateLink.t :=
  {| AffiliateLink.slug := slug;
     AffiliateLink.name :=
       if JS.truthy (ExtractedLink.text link)
       then ExtractedLink.text link else ExtractedLink.url link;
     AffiliateLink.url := finalUrl link;
     AffiliateLink.is_affiliate := ExtractedLink.isAffiliate link;
     AffiliateLink.network := ExtractedLink.network link;
     AffiliateLink.created_at := None |}.

(** The [for (const link of links)] loop of [generateLinkMap]. *)
Fixpoint generateLinkMap_loop (links : list ExtractedLink.t)
  (map : Map.t AffiliateLink.t) (usedSlugs : gset string) (clock : Clock)
  : option (Map.t AffiliateLink.t * Clock) :=
  match links with
  | [] => Some (map, clock)
  | link :: rest =>
      let url := ExtractedLink.url link in
      if negb (JS.startsWith url "http") then
        generateLinkMap_loop rest map usedSlugs clock
      else if Map.has map url then
        generateLinkMap_loop rest map usedSlugs clock
      else
        let '(baseSlug, clock') := generateSlug link clock in
        match uniqueSlug usedSlugs url baseSlug with
        | None => None
        | Some slug =>
            generateLinkMap_loop rest
              (Map.set map url (entryOf link slug))
              ({[ slug ]} ∪ usedSlugs) clock'
        end
  end.

Definition generateLinkMap (links : list ExtractedLink.t) (clock : Clock)
  : option (Map.t AffiliateLink.t * Clock) :=
  generateLinkMap_loop links [] ∅ clock.

Definition findOrGenerateSlug (link : ExtractedLink.t)
  (linkMap : Map.t AffiliateLink.t) (clock : Clock) : string * Clock :=
  match Map.get linkMap (ExtractedLink.url link) with
  | Some existing => (AffiliateLink.slug existing, clock)
  | None => generateSlug link clock
  end.

(** [str.replace(/[.*+?^${}()|[\]\\]/g, '\\$&')] *)
Fixpoint escapeRegex (str : string) : string :=
  match str with
  | EmptyString => EmptyString
  | String a rest =>
      if RegExp.is_syntax a then String "\" (String a (escapeRegex rest))
      else String a (escapeRegex rest)
  end.

(** The comparator handed to [sort]: its sign. *)
Definition compareLinks (a b : ExtractedLink.t) : Z :=
  if negb (ExtractedLink.line a =? ExtractedLink.line b)%nat
  then Z.of_nat (ExtractedLink.line b) - Z.of_nat (ExtractedLink.line a)
  else Z.of_nat (ExtractedLink.column b) - Z.of_nat (ExtractedLink.column a).

Fixpoint insertLink (a : ExtractedLink.t) (sorted : list ExtractedLink.t)
  : list ExtractedLink.t :=
  match sorted with
  | [] => [a]
  | b :: rest =>
      if (compareLinks a b <=? 0)%Z then a :: sorted
      else b :: insertLink a rest
  end.

(** [[...links].sort(compare)]: the sort is stable, and every stable
    sort gives the same result for this comparator. *)
Definition sortLinks (links : list ExtractedLink.t) : list ExtractedLink.t :=
  foldr insertLink [] links.

(** The [for (const link of sortedLinks)] loop of [transformFile];
    [None] is an exception thrown by the [RegExp] constructor. *)
Fixpoint transformFile_loop (sortedLinks : list ExtractedLink.t)
  (linkMap : Map.t AffiliateLink.t) (transformedContent : string)
  (changes : list Change) (clock : Clock)
  : option (string * list Change * Clock) :=
  match sortedLinks with
  | [] => Some (transformedContent, changes, clock)
  | link :: rest =>
      let url := ExtractedLink.url link in
      if negb (JS.startsWith url "http") then
        transformFile_loop rest linkMap transformedContent changes clock
      else
        let '(slug, clock') := findOrGenerateSlug link linkMap clock in
        let trackingUrl := tracking_baseUrl config +:+ slug in
        let escaped := escapeRegex url in
        match RegExp.literal ("\]\(" +:+ escaped +:+ "\)") with
        | None => None
        | Some urlPattern =>
            let beforeReplace := transformedContent in
            let transformedContent :=
              RegExp.replaceAll urlPattern ("](" +:+ trackingUrl +:+ ")")
                transformedContent in
            let changes :=
              if negb (String.eqb transformedContent beforeReplace) then
                (changes ++ [ {| original := url;
                                 change_slug := slug;
                                 trackingUrl := trackingUrl |} ])%list
              else changes in
            transformFile_loop rest linkMap transformedContent changes clock'
        end
  end.

(** [transformFile]; [originalContent] is what [readFileSync(filePath)]
    returned. *)
Definition transformFile (filePath originalContent : string)
  (links : list ExtractedLink.t) (linkMap : Map.t AffiliateLink.t)
  (clock : Clock) : option (TransformResult * Clock) :=
  match transformFile_loop (sortLinks links) linkMap originalContent [] clock with
  | None => None
  | Some (transformedContent, changes, clock') =>
      Some ({| result_file := filePath;
               originalContent := originalContent;
               transformedContent := transformedContent;
               linksTransformed := length changes;
               changes := changes |}, clock')
  end.

End Transformer.
End Transformer.


(** ** Reporter ([src/core/reporter/index.ts]) *)

Module Reporter.
Section Reporter.
Context `{Platform}.
Variable plugins : list NetworkPlugin.t.
Variable config : option LinksmithConfig.

Definition generateSlug (link : ExtractedLink.t) (clock : Clock)
  : string * Clock :=
  let url := ExtractedLink.url link in
  let text := ExtractedLink.text link in
  let plugin :=
    match ExtractedLink.network link with
    | Some network =>
        if JS.truthy network then plugins_get plugins network else None
    | None => None
    end in
  match plugin with
  | Some plugin => NetworkPlugin.generateSlug plugin url text clock
  | None =>
      if JS.truthy text && negb (String.eqb text url) then
        (JS.stripTrailingDashes (JS.slice0 50 (slugify text)), clock)
      else
        match URL_parse url with
        | Some parsed =>
            (JS.slice0 50
               (slugify (domainOf parsed +:+ "-" +:+ pathPartOf parsed)),
             clock)
        | None =>
            let '(now, clock') := Date_now clock in
            ("link-" +:+ JS.toString36 now, clock')
        end
  end.

Definition finalUrl (link : ExtractedLink.t) : string :=
  let url := ExtractedLink.url link in
  match ExtractedLink.network link, config with
  | Some network, Some config =>
      if JS.truthy network then
        match plugins_get plugins network, networks config !! network with
        | Some plugin, Some networkConfig =>
            if enabled networkConfig then
              NetworkPlugin.convert plugin url
                {| tag := network_tag networkConfig;
                   cleanParams :=
                     Some (default true (network_cleanParams networkConfig)) |}
            else url
        | _, _ => url
        end
      else url
  | _, _ => url
  end.

(** The [for (const link of links)] loop of [toAffiliateLinks]. *)
Fixpoint toAffiliateLinks_loop (links : list ExtractedLink.t)
  (byUrl : Map.t AffiliateLink.t) (usedSlugs : gset string) (clock : Clock)
  : option (Map.t AffiliateLink.t * Clock) :=
  match links with
  | [] => Some (byUrl, clock)
  | link :: rest =>
      let url := ExtractedLink.url link in
      if negb (JS.startsWith url "http") then
        toAffiliateLinks_loop rest byUrl usedSlugs clock
      else if Map.has byUrl url then
        toAffiliateLinks_loop rest byUrl usedSlugs clock
      else
        let '(baseSlug, clock') := generateSlug link clock in
        match uniqueSlug usedSlugs url baseSlug with
        | None => None
        | Some slug =>
            toAffiliateLinks_loop rest
              (Map.set byUrl url
                 {| AffiliateLink.slug := slug;
                    AffiliateLink.name :=
                      if JS.truthy (ExtractedLink.text link)
                      then ExtractedLink.text link else url;
                    AffiliateLink.url := finalUrl link;
                    AffiliateLink.is_affiliate := ExtractedLink.isAffiliate link;
                    AffiliateLink.network := ExtractedLink.network link;
                    AffiliateLink.created_at := None |})
              ({[ slug ]} ∪ usedSlugs) clock'
        end
  end.

Definition toAffiliateLinks (links : list ExtractedLink.t) (clock : Clock)
  : option (list AffiliateLink.t * Clock) :=
  match toAffiliateLinks_loop links [] ∅ clock with
  | Some (byUrl, clock') => Some (Map.values byUrl, clock')
  | None => None
  end.

End Reporter.
End Reporter.

(** ** The flat-file store ([src/adapters/filesystem.ts])

    The file at [config.path] either does not exist ([None]) or holds a JSON
    array of records; [JSON.stringify] followed by [JSON.parse] gives back
    the same records, so the file is modelled by the list it encodes.  A
    file that holds anything else is the case [Store.Malformed] below. *)

Module FileSystemAdapter.

Definition File := option (list AffiliateLink.t).

Definition getLinks (file : File) : list AffiliateLink.t :=
  match file with
  | None => []
  | Some content => content
  end.

Definition upsertLinks (file : File) (links : list AffiliateLink.t) : File :=
  let existing := getLinks file in
  let existingMap :=
    Map.of_entries (map (fun l => (AffiliateLink.slug l, l)) existing) in
  let existingMap :=
    fold_left (fun m link => Map.set m (AffiliateLink.slug link) link)
      links existingMap in
  let merged := Map.values existingMap in
  Some merged.

Definition getLinkBySlug (file : File) (slug : string)
  : option AffiliateLink.t :=
  List.find (fun l => String.eqb (AffiliateLink.slug l) slug) (getLinks file).

End FileSystemAdapter.

(** ** The store file as the adapter finds it

    The text at [config.path] need not be a JSON array of link records.  It
    may be a text that [JSON.parse] rejects, such as that of an empty file,
    and then [getLinks] throws; or it may be the JSON of something that is
    not an array, which [getLinks] returns as it is and on which the first
    step of each of its callers ([existing.map], [links.find],
    [existingLinks.map]) throws.  [Malformed] stands for both, and [None]
    for the error thrown.  On every other file the three methods are those
    of [FileSystemAdapter]. *)

Module Store.

Inductive t :=
| WellFormed (file : FileSystemAdapter.File)
| Malformed.

Definition getLinks (store : t) : option (list AffiliateLink.t) :=
  match store with
  | WellFormed file => Some (FileSystemAdapter.getLinks file)
  | Malformed => None
  end.

Definition upsertLinks (store : t) (links : list AffiliateLink.t)
  : option t :=
  match store with
  | WellFormed file =>
      Some (WellFormed (FileSystemAdapter.upsertLinks file links))
  | Malformed => None
  end.

Definition getLinkBySlug (store : t) (slug : string)
  : option (option AffiliateLink.t) :=
  match store with
  | WellFormed file => Some (FileSystemAdapter.getLinkBySlug file slug)
  | Malformed => None
  end.

End Store.

(** ** A reference platform

    Used only to evaluate the program on concrete inputs.  [new URL] is
    modelled for absolute [http:]/[https:] URLs with a non-empty host and
    neither credentials nor port: the scheme is read without regard to case
    and lower-cased, as is the host name, which runs up to the first [/],
    [?] or [#]; the path runs up to the first [?] or [#], then comes the
    query; every other text is rejected.  [slugify] is modelled on ASCII
    text: letters and digits are kept, white space separates words, the
    characters of the package's character map that are ASCII are spelled
    out, everything else is dropped. *)

Module Reference.

Record url := {
  u_scheme : string;
  u_host : string;
  u_path : string;
  u_query : list (string * string);
  u_hash : string;
}.

Definition is_delim (a : ascii) : bool :=
  Ascii.eqb a "/" || Ascii.eqb a "?" || Ascii.eqb a "#".

Definition parse_pair (kv : string) : string * string :=
  let '(k, v) := JS.span (fun a => negb (Ascii.eqb a "=")) kv in
  (k, JS.drop 1 v).

Definition parse_query (q : string) : list (string * string) :=
  map parse_pair (List.filter JS.truthy (JS.split "&" q)).

Definition parse_after_scheme (scheme rest : string) : option url :=
  let '(host, rest) := JS.span (fun a => negb (is_delim a)) rest in
  if negb (JS.truthy host) || JS.includes host "@" || JS.includes host ":"
  then None
  else
    let '(path, rest) :=
      JS.span (fun a => negb (Ascii.eqb a "?" || Ascii.eqb a "#")) rest in
    let '(query, hash) := JS.span (fun a => negb (Ascii.eqb a "#")) rest in
    Some {| u_scheme := scheme;
            u_host := JS.toLowerCase host;
            u_path := if JS.truthy path then path else "/";
            u_query := parse_query (JS.drop 1 query);
            u_hash := hash |}.

Definition parse (s : string) : option url :=
  if JS.prefix_ci "https://" s then parse_after_scheme "https:" (JS.drop 8 s)
  else if JS.prefix_ci "http://" s then parse_after_scheme "http:" (JS.drop 7 s)
  else None.

Definition query_has (u : url) (k : string) : bool :=
  existsb (fun kv => String.eqb (fst kv) k) (u_query u).

Definition query_delete (u : url) (k : string) : url :=
  {| u_scheme := u_scheme u; u_host := u_host u; u_path := u_path u;
     u_query := List.filter (fun kv => negb (String.eqb (fst kv) k)) (u_query u);
     u_hash := u_hash u |}.

Definition query_set (u : url) (k v : string) : url :=
  {| u_scheme := u_scheme u; u_host := u_host u; u_path := u_path u;
     u_query := Map.set (u_query (query_delete u k)) k v;
     u_hash := u_hash u |}.

Definition print_query (q : list (string * string)) : string :=
  match q with
  | [] => ""
  | _ => "?" +:+ String.concat "&" (map (fun kv => fst kv +:+ "=" +:+ snd kv) q)
  end.

Definition to_string (u : url) : string :=
  u_scheme u +:+ "//" +:+ u_host u +:+ u_path u +:+ print_query (u_query u)
  +:+ u_hash u.

Definition is_space (a : ascii) : bool :=
  let n := nat_of_ascii a in (n =? 32)%nat || ((9 <=? n)%nat && (n <=? 13)%nat).

Definition charMap (a : ascii) : string :=
  if Ascii.eqb a "$" then "dollar"
  else if Ascii.eqb a "%" then "percent"
  else if Ascii.eqb a "&" then "and"
  else if Ascii.eqb a "<" then "less"
  else if Ascii.eqb a ">" then "greater"
  else if Ascii.eqb a "|" then "or"
  else if Ascii.eqb a "-" then " "
  else if JS.is_alnum a || is_space a then String a EmptyString
  else "".

(** Words of lower-cased letters and digits, joined by single dashes. *)
Fixpoint join_words (pending : bool) (started : bool) (s : string) : string :=
  match s with
  | EmptyString => EmptyString
  | String a s' =>
      if is_space a then join_words started started s'
      else
        let rest := String (JS.lower_char a) (join_words false true s') in
        if pending then String "-" rest else rest
  end.

Fixpoint expand (s : string) : string :=
  match s with
  | EmptyString => EmptyString
  | String a s' => charMap a +:+ expand s'
  end.

Definition slugify_ascii (s : string) : string :=
  join_words false false (expand s).

#[export] Instance platform : Platform := {|
  URL := url;
  URL_parse := parse;
  URL_hostname := u_host;
  URL_pathname := u_path;
  searchParams_has := query_has;
  searchParams_delete := query_delete;
  searchParams_set := query_set;
  URL_toString := to_string;
  slugify := slugify_ascii;
|}.

End Reference.

(** ** Vocabulary of the statements *)

(** The slugs handed out by a link map, in insertion order. *)
Definition slugsOf (m : Map.t AffiliateLink.t) : list string :=
  AffiliateLink.slug <$> Map.values m.

(** What the loop of slug assignment maintains: the keys are distinct, the
    reserved set is the set of slugs handed out, and these are distinct. *)
Definition consistent (map : Map.t AffiliateLink.t) (usedSlugs : gset string)
  : Prop :=
  NoDup (Map.keys map) /\ NoDup (slugsOf map) /\
  forall s, s ∈ usedSlugs <-> s ∈ slugsOf map.

(** The text [pat] occurs in [s]. *)
Definition occurs (pat s : string) : Prop := exists a b, s = a +:+ pat +:+ b.

(** No code unit of [s] is in [bad]. *)
Fixpoint avoids (bad : list ascii) (s : string) : bool :=
  match s with
  | EmptyString => true
  | String a s' => negb (existsb (Ascii.eqb a) bad) && avoids bad s'
  end.

(** A URL without closing bracket or closing parenthesis. *)
Definition plain (s : string) : bool := avoids ["]"; ")"]%char s.

(** A replacement text without [$]. *)
Definition dollarFree (s : string) : bool := avoids ["$"]%char s.

(** The markdown link target, closing bracket, parenthesised URL, that the
    rewrite pass looks for. *)
Definition target (url : string) : string := "](" +:+ url +:+ ")".

(** The occurrences that pass the guard [link.url.startsWith('http')]. *)
Definition qualifying (link : ExtractedLink.t) : bool :=
  JS.startsWith (ExtractedLink.url link) "http".

(** The candidate [`${baseSlug}-${n}`]. *)
Definition numbered (baseSlug : string) (n : nat) : string :=
  baseSlug +:+ "-" +:+ pretty n.

(** [stripped] is [s] without the first occurrence of [pat]; it is [s]
    itself when [pat] does not occur in [s]. *)
Definition withoutFirst (pat s stripped : string) : Prop :=
  (~ occurs pat s /\ stripped = s) \/
  (exists a b,
     s = a +:+ pat +:+ b /\ stripped = a +:+ b /\
     forall a' b', s = a' +:+ pat +:+ b' ->
       (String.length a <= String.length a')%nat).

(** [label] is the text of [s] before its first [sep]; it is all of [s]
    when [s] has no [sep]. *)
Definition upToFirst (sep : ascii) (s label : string) : Prop :=
  avoids [sep] label = true /\
  (s = label \/ exists rest, s = label +:+ String sep rest).

(** The host label of a host name: the text before the first dot of the
    host name once the first [www.] in it, wherever it stands, is
    removed. *)
Definition hostLabel (host label : string) : Prop :=
  exists stripped,
    withoutFirst "www." host stripped /\ upToFirst "." stripped label.

(** The configuration a [Reporter] works with: without one, no network is
    configured. *)
Definition reporterConfig (config : option LinksmithConfig) : LinksmithConfig :=
  match config with
  | Some c => c
  | None => {| siteUrl := ""; tracking_baseUrl := ""; networks := ∅ |}
  end.


(** The slug table of an occurrence list: one key per distinct qualifying
    URL, and pairwise distinct slugs. *)
Definition slugTable (links : list ExtractedLink.t)
  (m : Map.t AffiliateLink.t) : Prop :=
  NoDup (Map.keys m) /\
  (forall u, u ∈ Map.keys m <->
     JS.startsWith u "http" = true /\
     exists l, l ∈ links /\ ExtractedLink.url l = u) /\
  NoDup (slugsOf m).

(** The base slug of an occurrence is the same whatever the clock reads. *)
Definition clockIndependent `{Platform} (plugins : list NetworkPlugin.t)
  (link : ExtractedLink.t) : Prop :=
  forall c1 c2,
    fst (Transformer.generateSlug plugins link c1) =
    fst (Transformer.generateSlug plugins link c2).

(** The last record of [ls] that carries the slug [s]. *)
Fixpoint lastBySlug (s : string) (ls : list AffiliateLink.t)
  : option AffiliateLink.t :=
  match ls with
  | [] => None
  | l :: ls' =>
      match lastBySlug s ls' with
      | Some r => Some r
      | None => if String.eqb (AffiliateLink.slug l) s then Some l else None
      end
  end.

(** A map from slugs to records in which every record sits under its own
    slug. *)
Definition keyedBySlug (m : Map.t AffiliateLink.t) : Prop :=
  forall k v, (k, v) ∈ m -> k = AffiliateLink.slug v.

(** One step of the merge of [upsertLinks]. *)
Definition upsertStep (m : Map.t AffiliateLink.t) (link : AffiliateLink.t)
  : Map.t AffiliateLink.t :=
  Map.set m (AffiliateLink.slug link) link.

(** Replacement of the non-overlapping occurrences of [pat], found left to
    right, by the fixed text [rep]: what [RegExp.replaceAll] does when the
    template has no [$]. *)
Fixpoint replaceLiteral_go (pat rep : string) (skip : nat) (s : string)
  : string :=
  match s with
  | EmptyString => EmptyString
  | String a s' =>
      match skip with
      | S k => replaceLiteral_go pat rep k s'
      | O =>
          if String.prefix pat s then
            rep +:+ replaceLiteral_go pat rep (String.length pat - 1) s'
          else String a (replaceLiteral_go pat rep 0 s')
      end
  end.

Definition replaceLiteral (pat rep s : string) : string :=
  replaceLiteral_go pat rep 0 s.

(** The tracking URL the rewrite pass builds for an occurrence when the
    clock is [clock]. *)
Definition trackingUrlOf `{Platform} (config : LinksmithConfig)
  (plugins : list NetworkPlugin.t) (linkMap : Map.t AffiliateLink.t)
  (link : ExtractedLink.t) (clock : Clock) : string :=
  tracking_baseUrl config +:+
  fst (Transformer.findOrGenerateSlug plugins link linkMap clock).

(** One substitution of the rewrite pass: the occurrence, its slug, and the
    text before and after. *)
Record RewriteStep := {
  step_link : ExtractedLink.t;
  step_slug : string;
  step_before : string;
  step_after : string;
}.

(** The substitutions of the rewrite pass in the order they are made: for
    every occurrence that passes the guard, every link target with its URL
    in the current text is replaced by the target with the tracking URL. *)
Fixpoint rewriteSteps `{Platform} (config : LinksmithConfig)
  (plugins : list NetworkPlugin.t) (sortedLinks : list ExtractedLink.t)
  (linkMap : Map.t AffiliateLink.t) (content : string) (clock : Clock)
  : list RewriteStep :=
  match sortedLinks with
  | [] => []
  | link :: rest =>
      if qualifying link then
        let '(slug, clock') :=
          Transformer.findOrGenerateSlug plugins link linkMap clock in
        let after :=
          RegExp.replaceAll (target (ExtractedLink.url link))
            (target (tracking_baseUrl config +:+ slug)) content in
        {| step_link := link; step_slug := slug;
           step_before := content; step_after := after |}
        :: rewriteSteps config plugins rest linkMap after clock'
      else rewriteSteps config plugins rest linkMap content clock
  end.

(** The change entry of a substitution. *)
Definition changeOf (config : LinksmithConfig) (s : RewriteStep) : Change :=
  {| original := ExtractedLink.url (step_link s);
     change_slug := step_slug s;
     trackingUrl := tracking_baseUrl config +:+ step_slug s |}.

(** The substitution altered the text. *)
Definition altered (s : RewriteStep) : bool :=
  negb (String.eqb (step_after s) (step_before s)).
(** ** Methods that work on many links or files

    [Converter.convertAll], [Transformer.transformFiles] and
    [Transformer.applyTransforms].  The content files are a finite map from
    paths to texts; [readFileSync] of a path outside the map throws, and so
    does every method that reads it ([None]). *)

Module Batch.
Section Batch.
Context `{Platform}.
Variable config : LinksmithConfig.
Variable plugins : list NetworkPlugin.t.

(** [Converter.convertAll] *)
Fixpoint convertAll (links : list ExtractedLink.t) : list ConversionResult :=
  match links with
  | [] => []
  | link :: rest =>
      match Converter.convert config plugins link with
      | Some result => result :: convertAll rest
      | None => convertAll rest
      end
  end.

(** [Transformer.transformFile], reading the file itself. *)
Definition transformFile (fs : gmap string string) (filePath : string)
  (links : list ExtractedLink.t) (linkMap : Map.t AffiliateLink.t)
  (clock : Clock) : option (TransformResult * Clock) :=
  match fs !! filePath with
  | None => None
  | Some originalContent =>
      Transformer.transformFile config plugins filePath originalContent
        links linkMap clock
  end.

(** The [for (const [filePath, links] of fileLinks)] loop of
    [transformFiles]. *)
Fixpoint transformFiles_loop (fs : gmap string string)
  (fileLinks : Map.t (list ExtractedLink.t)) (linkMap : Map.t AffiliateLink.t)
  (results : list TransformResult) (clock : Clock)
  : option (list TransformResult * Clock) :=
  match fileLinks with
  | [] => Some (results, clock)
  | (filePath, links) :: rest =>
      match transformFile fs filePath links linkMap clock with
      | None => None
      | Some (result, clock') =>
          let results :=
            if (0 <? linksTransformed result)%nat
            then (results ++ [result])%list else results in
          transformFiles_loop fs rest linkMap results clock'
      end
  end.

(** [Transformer.transformFiles] *)
Definition transformFiles (fs : gmap string string)
  (fileLinks : Map.t (list ExtractedLink.t)) (linkMap : Map.t AffiliateLink.t)
  (clock : Clock) : option (list TransformResult * Clock) :=
  transformFiles_loop fs fileLinks linkMap [] clock.

(** [Transformer.applyTransforms]: one [writeFileSync] per result, in
    order. *)
Definition applyTransforms (fs : gmap string string)
  (results : list TransformResult) : gmap string string :=
  fold_left
    (fun fs result => <[result_file result := transformedContent result]> fs)
    results fs.

End Batch.
End Batch.

(** ** The commands ([src/cli/commands/transform.ts],
    [src/cli/commands/sync.ts], [src/cli/commands/convert.ts])

    The data flow of the commands from the scanner's result on; progress
    messages and printing are left out. *)

Module Commands.
Section Commands.
Context `{Platform}.
Variable config : LinksmithConfig.
Variable plugins : list NetworkPlugin.t.

(** The grouping loop: [existing = fileLinks.get(link.file) || []], then
    [existing.push(link)] and [fileLinks.set(link.file, existing)]. *)
Definition groupByFile (links : list ExtractedLink.t)
  : Map.t (list ExtractedLink.t) :=
  fold_left
    (fun fileLinks link =>
       let existing :=
         default [] (Map.get fileLinks (ExtractedLink.file link)) in
       Map.set fileLinks (ExtractedLink.file link) (existing ++ [link])%list)
    links [].

(** [transformResults.reduce((acc, r) => acc + r.linksTransformed, 0)] *)
Definition totalChanges (transformResults : list TransformResult) : nat :=
  fold_left (fun acc r => (acc + linksTransformed r)%nat) transformResults 0%nat.

(** The transform command: the results, and the content files
    afterwards. *)
Definition transform (fs : gmap string string)
  (externalLinks : list ExtractedLink.t) (dryRun : bool) (clock : Clock)
  : option (list TransformResult * gmap string string * Clock) :=
  match Transformer.generateLinkMap config plugins externalLinks clock with
  | None => None
  | Some (linkMap, clock) =>
      let fileLinks := groupByFile externalLinks in
      match Batch.transformFiles config plugins fs fileLinks linkMap clock with
      | None => None
      | Some (transformResults, clock) =>
          let fs :=
            if dryRun then fs
            else Batch.applyTransforms fs transformResults in
          Some (transformResults, fs, clock)
      end
  end.

(** The convert command ([src/cli/commands/convert.ts]): the
    conversions it reports for the scanner's affiliate links, all of them
    or those of the network asked for. *)
Definition convert (affiliateLinks : list ExtractedLink.t)
  (network : option string) : list ConversionResult :=
  let linksToConvert :=
    if JS.truthy_opt network
    then List.filter
           (fun l => bool_decide (ExtractedLink.network l = network))
           affiliateLinks
    else affiliateLinks in
  Batch.convertAll config plugins linksToConvert.

(** What the sync command reports. *)
Record SyncReport := {
  totalLinks : nat;
  newLinks : list AffiliateLink.t;
  updatedLinks : list AffiliateLink.t;
  existingLinks : list AffiliateLink.t;
}.

(** The sync command with the flat-file store: the report, and the store
    file afterwards; [None] when the command ends in its [catch] block.
    [adapter.getLinks()] is called in a dry run too, [adapter.upsertLinks]
    only in a real run. *)
Definition sync (store : Store.t)
  (externalLinks : list ExtractedLink.t) (dryRun : bool) (clock : Clock)
  : option (SyncReport * Store.t * Clock) :=
  match Transformer.generateLinkMap config plugins externalLinks clock with
  | None => None
  | Some (linkMap, clock) =>
      let links := Map.values linkMap in
      match Store.getLinks store with
      | None => None
      | Some existingLinks =>
          let existingSlugs : gset string :=
            list_to_set (AffiliateLink.slug <$> existingLinks) in
          let newLinks :=
            List.filter
              (fun l =>
                 negb (bool_decide (AffiliateLink.slug l ∈ existingSlugs)))
              links in
          let updatedLinks :=
            List.filter
              (fun l => bool_decide (AffiliateLink.slug l ∈ existingSlugs))
              links in
          let report :=
            {| totalLinks := length links;
               newLinks := newLinks;
               updatedLinks := updatedLinks;
               existingLinks := existingLinks |} in
          if dryRun then Some (report, store, clock)
          else
            match Store.upsertLinks store links with
            | None => None
            | Some store => Some (report, store, clock)
            end
      end
  end.

End Commands.
End Commands.

(** The slugs of [new] that are not in [seen], each once, in the order of
    their first appearance. *)
Fixpoint firstNew (seen new : list string) : list string :=
  match new with
  | [] => []
  | s :: rest =>
      if bool_decide (s ∈ seen) then firstNew seen rest
      else s :: firstNew (seen ++ [s]) rest
  end.

(** The occurrences of [links] that lie in the file [f], in order. *)
Definition inFile (f : string) (links : list ExtractedLink.t)
  : list ExtractedLink.t :=
  List.filter (fun l => String.eqb (ExtractedLink.file l) f) links.

(** ** The scanner's fallback extraction and its filters
    ([src/core/scanner/index.ts])

    [extractLinksWithRegex] is what [scanFile] falls back to when the
    markdown parser throws.  The parser itself and the file search are not
    part of the repository: [scan] takes the files and the links found in
    each of them as given. *)

Module Scan.
Section Scan.
Context `{Platform}.
Variable config : LinksmithConfig.
Variable plugins : list NetworkPlugin.t.

Definition is_quote (a : ascii) : bool :=
  Ascii.eqb a "034" || Ascii.eqb a "'".

(** [mdLinkPattern] at the start of [s]: an opening bracket, any run
    without closing bracket (the text), a closing bracket and an opening
    parenthesis, a non-empty run without closing parenthesis (the URL), a
    closing parenthesis.  The result is the two captures and the length
    of the match.  Both classes are negated single characters, so the
    greedy runs are the only way to match. *)
Definition mdLink_here (s : string) : option (string * string * nat) :=
  match s with
  | EmptyString => None
  | String a rest =>
      if Ascii.eqb a "[" then
        let '(text, rest) := JS.span (fun a => negb (Ascii.eqb a "]")) rest in
        if String.prefix "](" rest then
          let '(url, rest) :=
            JS.span (fun a => negb (Ascii.eqb a ")")) (JS.drop 2 rest) in
          if JS.truthy url && String.prefix ")" rest
          then Some (text, url, String.length text + String.length url + 4)%nat
          else None
        else None
      else None
  end.

(** [hrefPattern] at the start of [s]: the text href=, a single or double
    quote, a non-empty run without quotes (the URL), a single or double
    quote.  The result is the capture and the length of the match. *)
Definition href_here (s : string) : option (string * nat) :=
  if String.prefix "href=" s then
    match JS.drop 5 s with
    | EmptyString => None
    | String q rest =>
        if is_quote q then
          let '(url, rest) := JS.span (fun a => negb (is_quote a)) rest in
          match rest with
          | EmptyString => None
          | String _ _ =>
              if JS.truthy url
              then Some (url, String.length url + 7)%nat
              else None
          end
        else None
    end
  else None.

(** The [while ((match = pattern.exec(line)) !== null)] loop of a global
    pattern that matches no empty text: [index] is the position of [s] in
    the line, [skip] the number of code units of the last match still to
    be passed over.  The result is the index and the captures of every
    match. *)
Fixpoint execAll {A} (here : string -> option (A * nat))
  (index skip : nat) (s : string) : list (nat * A) :=
  match s with
  | EmptyString => []
  | String _ s' =>
      match skip with
      | S k => execAll here (S index) k s'
      | O =>
          match here s with
          | Some (captures, len) =>
              (index, captures) :: execAll here (S index) (len - 1) s'
          | None => execAll here (S index) 0 s'
          end
      end
  end.

(** The object pushed for a markdown match. *)
Definition mdLinkOf (filePath : string) (lineIndex : nat)
  (m : nat * (string * string)) : ExtractedLink.t :=
  let '(index, (text, url)) := m in
  let networkInfo := Scanner.detectNetwork plugins url in
  {| ExtractedLink.url := url;
     ExtractedLink.text := if JS.truthy text then text else url;
     ExtractedLink.file := filePath;
     ExtractedLink.line := lineIndex + 1;
     ExtractedLink.column := index + 1;
     ExtractedLink.isAffiliate := fst networkInfo;
     ExtractedLink.network := snd networkInfo;
     ExtractedLink.originalUrl := None |}.

(** The object pushed for an [href] match. *)
Definition hrefLinkOf (filePath : string) (lineIndex : nat)
  (m : nat * string) : ExtractedLink.t :=
  let '(index, url) := m in
  let networkInfo := Scanner.detectNetwork plugins url in
  {| ExtractedLink.url := url;
     ExtractedLink.text := url;
     ExtractedLink.file := filePath;
     ExtractedLink.line := lineIndex + 1;
     ExtractedLink.column := index + 1;
     ExtractedLink.isAffiliate := fst networkInfo;
     ExtractedLink.network := snd networkInfo;
     ExtractedLink.originalUrl := None |}.

(** The body of [lines.forEach((line, lineIndex) => ...)]: the markdown
    links of the line, then its [href] attributes. *)
Definition linksOfLine (filePath : string) (lineIndex : nat) (line : string)
  : list ExtractedLink.t :=
  (map (mdLinkOf filePath lineIndex) (execAll mdLink_here 0 0 line)
   ++ map (hrefLinkOf filePath lineIndex) (execAll href_here 0 0 line))%list.

Fixpoint forEachLine (filePath : string) (lineIndex : nat)
  (lines : list string) : list ExtractedLink.t :=
  match lines with
  | [] => []
  | line :: rest =>
      (linksOfLine filePath lineIndex line
       ++ forEachLine filePath (S lineIndex) rest)%list
  end.

(** [extractLinksWithRegex] *)
Definition extractLinksWithRegex (content filePath : string)
  : list ExtractedLink.t :=
  forEachLine filePath 0 (JS.split "010" content).

(** [isExternalLink] *)
Definition isExternalLink (url : string) : bool :=
  if JS.startsWith url "/" || JS.startsWith url "#" || JS.startsWith url "."
  then false
  else if JS.startsWith url "mailto:" || JS.startsWith url "tel:" then false
  else
    match URL_parse url with
    | None => false
    | Some parsed =>
        match URL_parse (siteUrl config) with
        | None => false
        | Some site =>
            negb (String.eqb (URL_hostname parsed) (URL_hostname site))
        end
    end.

Record ScanResult := {
  files : nat;
  links : list ExtractedLink.t;
  affiliateLinks : list ExtractedLink.t;
  externalLinks : list ExtractedLink.t;
}.

(** [scan], given the files found and what [scanFile] returns for each. *)
Definition scan (found : list string)
  (scanFile : string -> list ExtractedLink.t) : ScanResult :=
  let allLinks := concat (map scanFile found) in
  let externalLinks :=
    List.filter (fun link => isExternalLink (ExtractedLink.url link)) allLinks in
  let affiliateLinks := List.filter ExtractedLink.isAffiliate externalLinks in
  {| files := length found;
     links := allLinks;
     affiliateLinks := affiliateLinks;
     externalLinks := externalLinks |}.

End Scan.
End Scan.

(** ** Report formats ([Reporter.toCsv], [Reporter.toSql]) *)

Module Report.

Definition LF : string := String "010" EmptyString.

(** [value.replace(/c/g, 'cc')] for a single character [c]. *)
Fixpoint doubleAll (c : ascii) (value : string) : string :=
  match value with
  | EmptyString => EmptyString
  | String a rest =>
      if Ascii.eqb a c then String c (String c (doubleAll c rest))
      else String a (doubleAll c rest)
  end.

(** [escapeCsv] *)
Definition escapeCsv (value : string) : string :=
  if JS.includes value "," || JS.includes value (String "034" EmptyString)
     || JS.includes value LF
  then String "034" (doubleAll "034" value +:+ String "034" EmptyString)
  else value.

(** One row of [toCsv]. *)
Definition csvRow (link : AffiliateLink.t) : string :=
  String.concat ","
    [ escapeCsv (AffiliateLink.slug link);
      escapeCsv (AffiliateLink.name link);
      escapeCsv (AffiliateLink.url link);
      if AffiliateLink.is_affiliate link then "true" else "false";
      if JS.truthy_opt (AffiliateLink.network link)
      then default "" (AffiliateLink.network link) else "" ].

(** [toCsv] *)
Definition toCsv (links : list AffiliateLink.t) : string :=
  let headers := ["slug"; "name"; "url"; "is_affiliate"; "network"] in
  let rows := map csvRow links in
  String.concat LF (String.concat "," headers :: rows).

(** One element of [values] in [toSql]. *)
Definition sqlValues (link : AffiliateLink.t) : string :=
  let name := doubleAll "'" (AffiliateLink.name link) in
  let url := doubleAll "'" (AffiliateLink.url link) in
  let network :=
    if JS.truthy_opt (AffiliateLink.network link)
    then "'" +:+ default "" (AffiliateLink.network link) +:+ "'" else "NULL" in
  "  ('" +:+ AffiliateLink.slug link +:+ "', '" +:+ name +:+ "', '" +:+ url
  +:+ "', " +:+ (if AffiliateLink.is_affiliate link then "true" else "false")
  +:+ ", " +:+ network +:+ ")".

(** [toSql] *)
Definition toSql (links : list AffiliateLink.t) (tableName : string) : string :=
  match links with
  | [] => "-- No links to insert"
  | _ =>
      "INSERT INTO " +:+ tableName
      +:+ " (slug, name, url, is_affiliate, network)" +:+ LF
      +:+ "VALUES" +:+ LF
      +:+ String.concat ("," +:+ LF) (map sqlValues links) +:+ LF
      +:+ "ON CONFLICT (slug) DO UPDATE SET" +:+ LF
      +:+ "  name = EXCLUDED.name," +:+ LF
      +:+ "  url = EXCLUDED.url," +:+ LF
      +:+ "  is_affiliate = EXCLUDED.is_affiliate," +:+ LF
      +:+ "  network = EXCLUDED.network;"
  end.

End Report.

(** Reading of a quoted field, as a reader of CSV files or of SQL string
    literals does it after the opening quote: a doubled quote stands for
    one quote, a single quote ends the field.  The result is the field and
    what follows the closing quote. *)
Fixpoint readQuoted (q : ascii) (s : string) : option (string * string) :=
  match s with
  | EmptyString => None
  | String a s' =>
      if Ascii.eqb a q then
        match s' with
        | EmptyString => Some (EmptyString, EmptyString)
        | String b s'' =>
            if Ascii.eqb b q then
              match readQuoted q s'' with
              | Some (v, rest) => Some (String q v, rest)
              | None => None
              end
            else Some (EmptyString, s')
        end
      else
        match readQuoted q s' with
        | Some (v, rest) => Some (String a v, rest)
        | None => None
        end
  end.

(** Reading of one CSV field: quoted when it starts with a quote, else up
    to the next comma or line feed. *)
Definition readCsvField (s : string) : option (string * string) :=
  match s with
  | String a s' =>
      if Ascii.eqb a "034" then readQuoted "034" s'
      else Some (JS.span (fun a => negb (Ascii.eqb a "," || Ascii.eqb a "010")) s)
  | EmptyString => Some (EmptyString, EmptyString)
  end.

(** ** Configuration ([src/config.ts])

    The loaded configuration file is an object in which every field,
    and every field of [content] and [tracking], may be missing. *)

Module Config.

Record Content := {
  include : list string;
  exclude : list string;
}.

Record Tracking := {
  baseUrl : string;
  slugStrategy : string;
}.

Record Supabase := {
  supabase_url : string;
  serviceKey : string;
  table : string;
}.

Record Storage := {
  adapter : string;
  supabase : option Supabase;
  json_path : option string;
}.

Record t := {
  content : Content;
  siteUrl : string;
  tracking : Tracking;
  networks : gmap string NetworkConfig;
  storage : option Storage;
}.

Record PartialContent := {
  include' : option (list string);
  exclude' : option (list string);
}.

Record PartialTracking := {
  baseUrl' : option string;
  slugStrategy' : option string;
}.

(** [Partial<LinksmithConfig>], as found in a configuration file. *)
Record Overrides := {
  content' : option PartialContent;
  siteUrl' : option string;
  tracking' : option PartialTracking;
  networks' : option (gmap string NetworkConfig);
  storage' : option Storage;
}.

Definition DEFAULT_CONFIG : t :=
  {| content :=
       {| include := ["**/*.md"; "**/*.mdx"];
          exclude := ["**/node_modules/**"; "**/dist/**"; "**/.git/**"] |};
     siteUrl := "http://localhost:3000";
     tracking := {| baseUrl := "/link/"; slugStrategy := "auto" |};
     networks :=
       {[ "amazon" := {| enabled := true;
                         network_tag := Some "";
                         network_cleanParams := Some true |} ]};
     storage := None |}.

(** [mergeConfig]: an object spread takes every field the second object
    has, and the fields of the first for the rest. *)
Definition mergeConfig (defaults : t) (overrides : Overrides) : t :=
  {| content :=
       {| include :=
            default (include (content defaults))
              (content' overrides ≫= include');
          exclude :=
            default (exclude (content defaults))
              (content' overrides ≫= exclude') |};
     siteUrl :=
       if JS.truthy_opt (siteUrl' overrides)
       then default "" (siteUrl' overrides) else siteUrl defaults;
     tracking :=
       {| baseUrl :=
            default (baseUrl (tracking defaults))
              (tracking' overrides ≫= baseUrl');
          slugStrategy :=
            default (slugStrategy (tracking defaults))
              (tracking' overrides ≫= slugStrategy') |};
     networks := default ∅ (networks' overrides) ∪ networks defaults;
     storage := storage' overrides |}.

(** [validateConfig] *)
Definition validateConfig (config : t) : list string :=
  let errors := [] in
  let errors :=
    if (length (include (content config)) =? 0)%nat
    then (errors ++ ["content.include must have at least one pattern"])%list
    else errors in
  let errors :=
    if negb (JS.truthy (siteUrl config))
    then (errors ++ ["siteUrl is required"])%list else errors in
  let errors :=
    if negb (JS.truthy (baseUrl (tracking config)))
    then (errors ++ ["tracking.baseUrl is required"])%list else errors in
  errors.

End Config.

(** The part of the configuration that scanner, converter, transformer and
    reporter read. *)
Definition coreConfig (config : Config.t) : LinksmithConfig :=
  {| siteUrl := Config.siteUrl config;
     tracking_baseUrl := Config.baseUrl (Config.tracking config);
     networks := Config.networks config |}.

(** ** Facts about strings *)

#[local] Arguments String.append : simpl nomatch.

Lemma append_nil_r (s : string) : s +:+ "" = s.
Proof. induction s as [|a s IH]; simpl; congruence. Qed.

Lemma append_assoc (s t u : string) : (s +:+ t) +:+ u = s +:+ t +:+ u.
Proof. induction s as [|a s IH]; simpl; congruence. Qed.

Lemma append_length (s t : string) :
  String.length (s +:+ t) = (String.length s + String.length t)%nat.
Proof. induction s as [|a s IH]; simpl; congruence. Qed.

Lemma prefix_append (p t : string) : String.prefix p (p +:+ t) = true.
Proof.
  induction p as [|a p IH]; simpl; [by destruct t |].
  destruct (ascii_dec a a); [exact IH | congruence].
Qed.

Lemma prefix_inv (p s : string) :
  String.prefix p s = true -> exists t, s = p +:+ t.
Proof.
  revert s. induction p as [|a p IH]; intros s Hp.
  - by exists s.
  - destruct s as [|b s]; simpl in Hp; [done |].
    destruct (ascii_dec a b) as [->|]; [| done].
    destruct (IH _ Hp) as [t ->]. by exists t.
Qed.

Lemma prefix_iff (p s : string) :
  String.prefix p s = true <-> exists t, s = p +:+ t.
Proof.
  split; [apply prefix_inv |]. intros [t ->]. apply prefix_append.
Qed.

Lemma append_eq_inv (s1 s2 t1 t2 : string) :
  s1 +:+ s2 = t1 +:+ t2 ->
  (exists z, s1 = t1 +:+ z /\ t2 = z +:+ s2) \/
  (exists z, t1 = s1 +:+ z /\ s2 = z +:+ t2).
Proof.
  revert t1. induction s1 as [|a s1 IH]; intros t1 Heq; simpl in *.
  - right. by exists t1.
  - destruct t1 as [|b t1]; simpl in *.
    + left. by exists (String a s1).
    + injection Heq as -> Heq.
      destruct (IH _ Heq) as [[z [-> ->]]|[z [-> ->]]]; [left | right];
        by exists z.
Qed.

Lemma append_eq_length (s1 s2 t1 t2 : string) :
  s1 +:+ s2 = t1 +:+ t2 -> String.length s1 = String.length t1 ->
  s1 = t1 /\ s2 = t2.
Proof.
  revert t1. induction s1 as [|a s1 IH]; intros [|b t1] Heq Hlen;
    simpl in *; try done.
  injection Heq as -> Heq. injection Hlen as Hlen.
  destruct (IH _ Heq Hlen) as [-> ->]. done.
Qed.

Lemma drop_append (s t : string) : JS.drop (String.length s) (s +:+ t) = t.
Proof. induction s as [|a s IH]; simpl; [by destruct t | done]. Qed.

Lemma includes_cons (x : ascii) (sub s : string) :
  JS.includes (String x s) sub = true <->
  String.prefix sub (String x s) = true \/ JS.includes s sub = true.
Proof.
  change (JS.includes (String x s) sub)
    with (String.prefix sub (String x s) || JS.includes s sub).
  apply orb_true_iff.
Qed.

Lemma includes_prefix (sub s : string) :
  String.prefix sub s = true -> JS.includes s sub = true.
Proof.
  intros Hp. destruct s as [|x s].
  - destruct sub; [done | simpl in Hp; done].
  - apply includes_cons. by left.
Qed.

Lemma occurs_includes (pat s : string) :
  occurs pat s <-> JS.includes s pat = true.
Proof.
  split.
  - intros (a & b & ->). induction a as [|x a IH].
    + simpl. apply includes_prefix, prefix_append.
    + simpl. apply includes_cons. by right.
  - induction s as [|x s IH]; intros Hi.
    + destruct pat as [|c pat]; [by exists "", "" | by simpl in Hi].
    + apply includes_cons in Hi as [Hp|Hi].
      * apply prefix_inv in Hp as [t Ht]. exists "", t. done.
      * destruct (IH Hi) as (a & b & ->). by exists (String x a), b.
Qed.

#[global] Instance occurs_dec (pat s : string) : Decision (occurs pat s).
Proof.
  destruct (JS.includes s pat) eqn:E.
  - left. by apply occurs_includes.
  - right. intros Ho%occurs_includes. congruence.
Defined.

(** ** The host label *)

Lemma removeFirst_prefix (pat s : string) :
  String.prefix pat s = true ->
  withoutFirst pat s (JS.drop (String.length pat) s).
Proof.
  intros [t ->]%prefix_inv. rewrite drop_append. right. exists "", t.
  split; [done |]. split; [done |]. intros a' b' _. simpl. lia.
Qed.

Lemma removeFirst_spec (pat s : string) :
  withoutFirst pat s (JS.removeFirst pat s).
Proof.
  induction s as [|x s IH]; cbn [JS.removeFirst];
    destruct (String.prefix pat _) eqn:Hp;
    try by apply removeFirst_prefix.
  - left. split; [| done]. intros Ho%occurs_includes.
    cbn [JS.includes] in Ho. rewrite Hp in Ho. done.
  - destruct IH as [[Hno ->]|(a & b & Hs & -> & Hmin)].
    + left. split; [| done]. intros Ho%occurs_includes.
      apply includes_cons in Ho as [Ho|Ho]; [congruence |].
      by apply Hno, occurs_includes.
    + right. exists (String x a), b. split; [by rewrite Hs |].
      split; [done |]. intros [|y a'] b' Heq.
      * simpl in Heq. rewrite Heq, prefix_append in Hp. done.
      * simpl in Heq. injection Heq as _ Heq.
        specialize (Hmin _ _ Heq). simpl. lia.
Qed.

Lemma withoutFirst_unique (pat s t1 t2 : string) :
  withoutFirst pat s t1 -> withoutFirst pat s t2 -> t1 = t2.
Proof.
  intros [[Hno ->]|(a & b & Hs & -> & Hmin)]
         [[Hno' ->]|(a' & b' & Hs' & -> & Hmin')]; [done | | |].
  - destruct Hno. by exists a', b'.
  - destruct Hno'. by exists a, b.
  - assert (String.length a = String.length a') as Hlen.
    { apply Nat.le_antisymm; [by apply (Hmin a' b') | apply (Hmin' a b)].
      by rewrite <- Hs. }
    rewrite Hs in Hs'.
    destruct (append_eq_length _ _ _ _ Hs' Hlen) as [-> Hrest].
    destruct (append_eq_length _ _ _ _ Hrest eq_refl) as [_ ->]. done.
Qed.

Lemma split_hd_spec (sep : ascii) (s : string) :
  upToFirst sep s (hd "" (JS.split sep s)).
Proof.
  induction s as [|x s IH]; cbn [JS.split].
  - split; [done | by left].
  - destruct (Ascii.eqb_spec x sep) as [->|Hne].
    + split; [done |]. right. by exists s.
    + apply Ascii.eqb_neq in Hne. destruct IH as [Hav Hs].
      destruct (JS.split sep s) as [|w ws]; cbn [hd] in *.
      * split; [cbn; by rewrite Hne |].
        destruct Hs as [->|[rest ->]]; [by left | right; by exists rest].
      * split; [cbn [avoids existsb]; by rewrite Hne, Hav |].
        destruct Hs as [->|[rest ->]]; [by left | right; by exists rest].
Qed.

Lemma upToFirst_unique (sep : ascii) (s l1 l2 : string) :
  upToFirst sep s l1 -> upToFirst sep s l2 -> l1 = l2.
Proof.
  intros [H1 E1] [H2 E2].
  assert (exists t1, s = l1 +:+ t1 /\
            (t1 = "" \/ exists r, t1 = String sep r)) as (t1 & -> & Ht1).
  { destruct E1 as [->|[r ->]].
    - exists "". rewrite append_nil_r. by split; [| left].
    - exists (String sep r). split; [done |]. right. by exists r. }
  assert (exists t2, l1 +:+ t1 = l2 +:+ t2 /\
            (t2 = "" \/ exists r, t2 = String sep r)) as (t2 & Heq & Ht2).
  { destruct E2 as [->|[r ->]].
    - exists "". rewrite append_nil_r. by split; [| left].
    - exists (String sep r). split; [done |]. right. by exists r. }
  clear E1 E2. revert l2 H1 H2 Heq.
  induction l1 as [|x l1 IH]; intros [|y l2] H1 H2 Heq;
    cbn [avoids existsb String.append] in *.
  - done.
  - exfalso. destruct Ht1 as [->|[r ->]]; [done |].
    injection Heq as <- _. by rewrite Ascii.eqb_refl in H2.
  - exfalso. destruct Ht2 as [->|[r ->]]; [done |].
    injection Heq as -> _. by rewrite Ascii.eqb_refl in H1.
  - injection Heq as <- Heq.
    apply andb_true_iff in H1 as [_ H1]. apply andb_true_iff in H2 as [_ H2].
    f_equal. by apply IH.
Qed.

(** [domainOf] computes the host label, and nothing else is one. *)
Lemma domainOf_hostLabel `{Platform} (url : URL) (label : string) :
  hostLabel (URL_hostname url) label <-> label = domainOf url.
Proof.
  split.
  - intros (stripped & Hw & Hl).
    pose proof (removeFirst_spec "www." (URL_hostname url)) as Hw'.
    rewrite (withoutFirst_unique _ _ _ _ Hw Hw') in Hl.
    exact (upToFirst_unique _ _ _ _ Hl (split_hd_spec "." _)).
  - intros ->. exists (JS.removeFirst "www." (URL_hostname url)).
    split; [apply removeFirst_spec | apply split_hd_spec].
Qed.

(** ** Insertion-ordered maps *)

Lemma Map_get_None {V} (m : Map.t V) (k : string) :
  Map.get m k = None <-> k ∉ Map.keys m.
Proof.
  induction m as [|[k' v] m IH]; simpl.
  - split; [intros _; apply not_elem_of_nil | done].
  - destruct (String.eqb_spec k' k) as [->|Hne].
    + split; [done | intros Hn; exfalso; apply Hn; left].
    + rewrite IH. rewrite not_elem_of_cons. intuition congruence.
Qed.

Lemma Map_has_false {V} (m : Map.t V) (k : string) :
  Map.has m k = false <-> k ∉ Map.keys m.
Proof.
  unfold Map.has. rewrite <- Map_get_None. destruct (Map.get m k); naive_solver.
Qed.

Lemma Map_get_Some {V} (m : Map.t V) (k : string) (v : V) :
  Map.get m k = Some v -> (k, v) ∈ m.
Proof.
  induction m as [|[k' v'] m IH]; simpl; [done |].
  destruct (String.eqb_spec k' k) as [->|Hne].
  - intros [= ->]. left.
  - intros Hg. right. auto.
Qed.

Lemma Map_set_fresh {V} (m : Map.t V) (k : string) (v : V) :
  k ∉ Map.keys m -> Map.set m k v = (m ++ [(k, v)])%list.
Proof.
  induction m as [|[k' v'] m IH]; simpl; [done |].
  rewrite not_elem_of_cons. intros [Hne Hnin].
  destruct (String.eqb_spec k' k) as [->|_]; [done |]. by rewrite IH.
Qed.

Lemma Map_keys_set {V} (m : Map.t V) (k : string) (v : V) :
  Map.keys (Map.set m k v) =
  if Map.has m k then Map.keys m else (Map.keys m ++ [k])%list.
Proof.
  unfold Map.has. induction m as [|[k' v'] m IH]; simpl; [done |].
  destruct (String.eqb_spec k' k) as [->|_]; simpl; [done |].
  rewrite IH. by destruct (Map.get m k).
Qed.

(** ** The collision loop *)

Section UniqueSlug.
Context `{Platform}.

Lemma numbered_inj (baseSlug : string) : Inj (=) (=) (numbered baseSlug).
Proof.
  intros n m Heq. unfold numbered in Heq.
  apply (inj (String.append baseSlug)) in Heq.
  injection Heq as Heq. by apply (inj pretty) in Heq.
Qed.

Lemma numbered_ne_base (baseSlug : string) (n : nat) :
  numbered baseSlug n ≠ baseSlug.
Proof.
  unfold numbered. intros Heq.
  rewrite <- (append_nil_r baseSlug) in Heq at 2.
  by apply (inj (String.append baseSlug)) in Heq.
Qed.

Lemma uniqueSlug_loop_fresh fuel usedSlugs url baseSlug slug counter r :
  uniqueSlug_loop fuel usedSlugs url baseSlug slug counter = Some r ->
  r ∉ usedSlugs.
Proof.
  revert slug counter. induction fuel as [|fuel IH]; intros slug counter;
    simpl; [done |].
  case_bool_decide as Hin; [| by intros [= <-]].
  destruct (URL_parse url) as [parsed|]; [| by apply IH].
  case_bool_decide as Hd; simpl; [by apply IH | by intros [= <-]].
Qed.

Lemma uniqueSlug_loop_None fuel usedSlugs url baseSlug slug counter :
  uniqueSlug_loop (S fuel) usedSlugs url baseSlug slug counter = None ->
  slug ∈ usedSlugs /\
  forall i, 1 <= i <= fuel -> numbered baseSlug (counter + i) ∈ usedSlugs.
Proof.
  revert slug counter. induction fuel as [|fuel IH]; intros slug counter.
  - simpl. case_bool_decide; [intros _; split; [done | lia] | done].
  - intros Hn.
    assert (slug ∈ usedSlugs /\
            uniqueSlug_loop (S fuel) usedSlugs url baseSlug
              (numbered baseSlug (S counter)) (S counter) = None) as [Hs Hrec].
    { revert Hn. cbn [uniqueSlug_loop]. case_bool_decide; [| done].
      destruct (URL_parse url); [| done].
      case_bool_decide; simpl; done. }
    split; [done |]. apply IH in Hrec as [H1 Hrest].
    intros i Hi. destruct (decide (i = 1)) as [->|].
    + by replace (counter + 1) with (S counter) by lia.
    + replace (counter + i) with (S counter + (i - 1)) by lia.
      apply Hrest. lia.
Qed.

(** The loop always leaves with a slug: there are more candidates than
    reserved slugs. *)
Lemma uniqueSlug_total usedSlugs url baseSlug :
  exists slug, uniqueSlug usedSlugs url baseSlug = Some slug.
Proof.
  unfold uniqueSlug.
  destruct (uniqueSlug_loop _ _ _ _ _ _) as [slug|] eqn:E; [by exists slug |].
  apply uniqueSlug_loop_None in E as [Hb Hn]. exfalso.
  set (cands := baseSlug :: (numbered baseSlug <$> seq 2 (size usedSlugs))).
  assert (NoDup cands) as Hnd.
  { constructor.
    - intros (n & Heq & _)%list_elem_of_fmap.
      by eapply numbered_ne_base.
    - apply (NoDup_fmap_2 _), NoDup_seq. }
  assert (list_to_set cands ⊆ usedSlugs) as Hsub.
  { intros s [->|(n & -> & Hn2)%list_elem_of_fmap]%elem_of_list_to_set%elem_of_cons;
      [done |].
    apply elem_of_seq in Hn2. replace n with (1 + (n - 1)) by lia.
    apply Hn. lia. }
  apply subseteq_size in Hsub. rewrite size_list_to_set in Hsub by done.
  simpl in Hsub. rewrite length_fmap, length_seq in Hsub. lia.
Qed.

Lemma uniqueSlug_fresh usedSlugs url baseSlug slug :
  uniqueSlug usedSlugs url baseSlug = Some slug -> slug ∉ usedSlugs.
Proof. apply uniqueSlug_loop_fresh. Qed.

(** Once the host candidate is out, the loop walks the numbered
    candidates in increasing order. *)
Lemma uniqueSlug_loop_numeric fuel usedSlugs url baseSlug counter r :
  (forall parsed, URL_parse url = Some parsed ->
     baseSlug +:+ "-" +:+ domainOf parsed ∈ usedSlugs) ->
  uniqueSlug_loop fuel usedSlugs url baseSlug
    (numbered baseSlug (S counter)) (S counter) = Some r ->
  exists n, counter < n /\ r = numbered baseSlug n /\
    forall m, counter < m < n -> numbered baseSlug m ∈ usedSlugs.
Proof.
  intros Hdom. revert counter.
  induction fuel as [|fuel IH]; intros counter; simpl; [done |].
  case_bool_decide as Hin.
  - assert (uniqueSlug_loop fuel usedSlugs url baseSlug
              (baseSlug +:+ "-" +:+ pretty (S (S counter))) (S (S counter))
            = Some r ->
            exists n, counter < n /\ r = numbered baseSlug n /\
              forall m, counter < m < n -> numbered baseSlug m ∈ usedSlugs)
      as Hnum.
    { intros (n & Hlt & -> & Hbelow)%IH. exists n.
      split; [lia |]. split; [done |].
      intros m Hm. destruct (decide (m = S counter)) as [->|]; [done |].
      apply Hbelow. lia. }
    destruct (URL_parse url) as [parsed|] eqn:Hp; [| done].
    case_bool_decide as Hd; simpl; [done |].
    exfalso. apply Hd. by apply Hdom.
  - intros [= <-]. exists (S counter). split; [lia |]. split; [done |].
    intros m Hm. lia.
Qed.

End UniqueSlug.

(** ** Slug assignment *)

Section SlugAssignment.
Context `{Platform}.
Variable config : LinksmithConfig.
Variable plugins : list NetworkPlugin.t.

Lemma consistent_empty : consistent [] ∅.
Proof.
  split; [constructor |]. split; [constructor |].
  intros s. unfold slugsOf. simpl. rewrite elem_of_nil. set_solver.
Qed.

Lemma consistent_set map usedSlugs url entry :
  consistent map usedSlugs ->
  url ∉ Map.keys map ->
  AffiliateLink.slug entry ∉ usedSlugs ->
  consistent (Map.set map url entry) ({[ AffiliateLink.slug entry ]} ∪ usedSlugs).
Proof.
  intros (Hk & Hs & Hu) Hurl Hslug.
  rewrite (Map_set_fresh _ _ _ Hurl).
  unfold consistent, slugsOf, Map.keys, Map.values.
  rewrite !fmap_app. simpl. split; [| split].
  - apply NoDup_app. split; [done |]. split; [| apply NoDup_singleton].
    intros x Hx ->%list_elem_of_singleton. done.
  - apply NoDup_app. split; [done |]. split; [| apply NoDup_singleton].
    intros x Hx ->%list_elem_of_singleton. by apply Hslug, Hu.
  - intros s. rewrite elem_of_union, elem_of_singleton, elem_of_app,
      list_elem_of_singleton, Hu. tauto.
Qed.

Lemma generateLinkMap_loop_spec links map usedSlugs clock :
  consistent map usedSlugs ->
  exists m used' clock',
    Transformer.generateLinkMap_loop config plugins links map usedSlugs clock
      = Some (m, clock') /\
    consistent m used' /\
    forall u, u ∈ Map.keys m <->
      u ∈ Map.keys map \/
      (JS.startsWith u "http" = true /\
       exists l, l ∈ links /\ ExtractedLink.url l = u).
Proof.
  revert map usedSlugs clock.
  induction links as [|link rest IH]; intros map usedSlugs clock Hc.
  - exists map, usedSlugs, clock. split; [done |]. split; [done |].
    intros u. split; [auto |]. intros [Hu|(_ & l & Hl & _)]; [done |].
    by apply elem_of_nil in Hl.
  - cbn [Transformer.generateLinkMap_loop].
    destruct (JS.startsWith (ExtractedLink.url link) "http") eqn:Hq; simpl.
    + destruct (Map.has map (ExtractedLink.url link)) eqn:Hhas.
      * destruct (IH map usedSlugs clock Hc) as (m & u' & c' & -> & Hc' & Hk).
        exists m, u', c'. split; [done |]. split; [done |].
        intros u. rewrite Hk. split.
        -- intros [?|(? & l & Hl & ?)]; [by left |].
           right. split; [done |]. exists l. split; [by right | done].
        -- intros [?|(? & l & [->|Hl]%elem_of_cons & Hu)]; [by left | |].
           ++ left. subst u. apply dec_stable. intros Hn%Map_has_false.
              congruence.
           ++ right. split; [done |]. by exists l.
      * apply Map_has_false in Hhas.
        destruct (Transformer.generateSlug plugins link clock)
          as [baseSlug clock1].
        destruct (uniqueSlug_total usedSlugs (ExtractedLink.url link) baseSlug)
          as [slug Hslug].
        rewrite Hslug.
        pose proof (uniqueSlug_fresh _ _ _ _ Hslug) as Hfresh.
        pose proof (consistent_set map usedSlugs (ExtractedLink.url link)
                      (Transformer.entryOf config plugins link slug)
                      Hc Hhas Hfresh) as Hc1.
        destruct (IH _ _ clock1 Hc1) as (m & u' & c' & Heq & Hc' & Hk).
        exists m, u', c'. split; [exact Heq |]. split; [done |].
        intros u. rewrite Hk, Map_keys_set.
        apply Map_has_false in Hhas. rewrite Hhas, elem_of_app,
          list_elem_of_singleton.
        split.
        -- intros [[?| ->]|(? & l & Hl & ?)].
           ++ by left.
           ++ right. split; [done |]. exists link. split; [left | done].
           ++ right. split; [done |]. exists l. split; [by right | done].
        -- intros [?|(? & l & [->|Hl]%elem_of_cons & Hu)].
           ++ left. by left.
           ++ left. by right.
           ++ right. split; [done |]. by exists l.
    + destruct (IH map usedSlugs clock Hc) as (m & u' & c' & -> & Hc' & Hk).
      exists m, u', c'. split; [done |]. split; [done |].
      intros u. rewrite Hk. split.
      * intros [?|(? & l & Hl & ?)]; [by left |].
        right. split; [done |]. exists l. split; [by right | done].
      * intros [?|(Hu & l & [->|Hl]%elem_of_cons & Hl')]; [by left | |].
        -- subst u. congruence.
        -- right. split; [done |]. by exists l.
Qed.

End SlugAssignment.

(** [Reporter.toAffiliateLinks] runs the loop of
    [Transformer.generateLinkMap]. *)
Lemma toAffiliateLinks_loop_generateLinkMap_loop `{Platform} plugins rconfig
  links byUrl usedSlugs clock :
  Reporter.toAffiliateLinks_loop plugins rconfig links byUrl usedSlugs clock =
  Transformer.generateLinkMap_loop (reporterConfig rconfig) plugins links
    byUrl usedSlugs clock.
Proof.
  revert byUrl usedSlugs clock.
  induction links as [|link rest IH]; intros byUrl usedSlugs clock; [done |].
  cbn [Reporter.toAffiliateLinks_loop Transformer.generateLinkMap_loop].
  destruct (negb _); [apply IH |].
  destruct (Map.has _ _); [apply IH |].
  change (Reporter.generateSlug plugins link clock)
    with (Transformer.generateSlug plugins link clock).
  destruct (Transformer.generateSlug plugins link clock) as [baseSlug clock1].
  destruct (uniqueSlug _ _ _) as [slug|]; [| done].
  rewrite IH. do 2 f_equal.
  unfold Transformer.entryOf. f_equal.
  unfold Reporter.finalUrl, Transformer.finalUrl.
  destruct (ExtractedLink.network link) as [network|]; [| done].
  destruct rconfig as [c|]; simpl; [done |].
  destruct (JS.truthy network); [| done].
  rewrite lookup_empty. by destruct (plugins_get plugins network).
Qed.

Section SlugAssignmentFacts.
Context `{Platform}.
Variable config : LinksmithConfig.
Variable plugins : list NetworkPlugin.t.


(** The stored URL is the occurrence's own URL unless [Converter.convert]
    converts it. *)
Lemma finalUrl_convert link :
  Transformer.finalUrl config plugins link =
  match Converter.convert config plugins link with
  | Some r => converted r
  | None => ExtractedLink.url link
  end.
Proof.
  unfold Transformer.finalUrl, Converter.convert, Converter.getNetworkConfig.
  destruct (ExtractedLink.network link) as [network|]; [| done].
  destruct (JS.truthy network); simpl; [| done].
  destruct (plugins_get plugins network); [| done].
  destruct (networks config !! network) as [nc|]; [| done].
  by destruct (enabled nc).
Qed.

End SlugAssignmentFacts.

(** ** The flat-file store *)

Lemma Map_get_set {V} (m : Map.t V) (k k' : string) (v : V) :
  Map.get (Map.set m k v) k' =
  if String.eqb k k' then Some v else Map.get m k'.
Proof.
  induction m as [|[k0 v0] m IH]; simpl; [done |].
  destruct (String.eqb_spec k0 k) as [->|Hne]; simpl.
  - destruct (String.eqb_spec k k'); done.
  - rewrite IH. destruct (String.eqb_spec k0 k') as [->|]; [| done].
    destruct (String.eqb_spec k k'); [congruence | done].
Qed.

Lemma Map_set_elem {V} (m : Map.t V) (k k' : string) (v v' : V) :
  (k', v') ∈ Map.set m k v -> (k' = k /\ v' = v) \/ (k', v') ∈ m.
Proof.
  induction m as [|[k0 v0] m IH]; simpl.
  - intros [= -> ->]%list_elem_of_singleton. by left.
  - destruct (String.eqb_spec k0 k) as [->|Hne].
    + intros [[= -> ->]|Hin]%elem_of_cons; [by left |]. right. by right.
    + intros [[= -> ->]|Hin]%elem_of_cons; [right; left |].
      destruct (IH Hin); [by left |]. right. by right.
Qed.

Lemma Map_set_NoDup {V} (m : Map.t V) (k : string) (v : V) :
  NoDup (Map.keys m) -> NoDup (Map.keys (Map.set m k v)).
Proof.
  intros Hnd. rewrite Map_keys_set.
  destruct (Map.has m k) eqn:Hhas; [done |].
  apply Map_has_false in Hhas. apply NoDup_app.
  split; [done |]. split; [| apply NoDup_singleton].
  intros x Hx ->%list_elem_of_singleton. done.
Qed.

Lemma Map_get_elem {V} (m : Map.t V) (k : string) (v : V) :
  NoDup (Map.keys m) -> (k, v) ∈ m -> Map.get m k = Some v.
Proof.
  induction m as [|[k0 v0] m IH]; simpl.
  - intros _ Hin. by apply elem_of_nil in Hin.
  - intros [Hk0 Hnd]%NoDup_cons [[= -> ->]|Hin]%elem_of_cons.
    + by rewrite String.eqb_refl.
    + destruct (String.eqb_spec k0 k) as [->|_]; [| by apply IH].
      exfalso. apply Hk0. apply list_elem_of_fmap. by exists (k, v).
Qed.

Lemma lastBySlug_cons s l ls :
  lastBySlug s (l :: ls) =
  match lastBySlug s ls with
  | Some r => Some r
  | None => if String.eqb (AffiliateLink.slug l) s then Some l else None
  end.
Proof. done. Qed.

Lemma lastBySlug_app s ls1 ls2 :
  lastBySlug s (ls1 ++ ls2) =
  match lastBySlug s ls2 with
  | Some r => Some r
  | None => lastBySlug s ls1
  end.
Proof.
  induction ls1 as [|l ls1 IH]; simpl; [by destruct (lastBySlug s ls2) |].
  rewrite IH. by destruct (lastBySlug s ls2).
Qed.

Lemma lastBySlug_Some s ls r :
  lastBySlug s ls = Some r -> r ∈ ls /\ AffiliateLink.slug r = s.
Proof.
  induction ls as [|l ls IH]; simpl; [done |].
  destruct (lastBySlug s ls) as [r'|].
  - intros [= ->]. destruct IH as [Hin Hs]; [done |]. split; [by right | done].
  - destruct (String.eqb_spec (AffiliateLink.slug l) s); [| done].
    intros [= ->]. split; [left | done].
Qed.

Lemma lastBySlug_None s ls :
  lastBySlug s ls = None <-> s ∉ AffiliateLink.slug <$> ls.
Proof.
  induction ls as [|l ls IH]; simpl.
  - split; [intros _; apply not_elem_of_nil | done].
  - rewrite not_elem_of_cons, <- IH. destruct (lastBySlug s ls).
    + split; [done | intros [_ ?]; done].
    + destruct (String.eqb_spec (AffiliateLink.slug l) s);
        intuition congruence.
Qed.

Lemma upsertStep_fold_get ls m s :
  Map.get (fold_left upsertStep ls m) s =
  match lastBySlug s ls with
  | Some r => Some r
  | None => Map.get m s
  end.
Proof.
  revert m. induction ls as [|l ls IH]; intros m; simpl; [done |].
  rewrite IH. destruct (lastBySlug s ls); [done |].
  unfold upsertStep. rewrite Map_get_set.
  by destruct (String.eqb (AffiliateLink.slug l) s).
Qed.

Lemma upsertStep_fold_keyed ls m :
  keyedBySlug m -> NoDup (Map.keys m) ->
  keyedBySlug (fold_left upsertStep ls m) /\
  NoDup (Map.keys (fold_left upsertStep ls m)).
Proof.
  revert m. induction ls as [|l ls IH]; intros m Hk Hnd; simpl; [done |].
  apply IH.
  - intros k v [[-> ->]|Hin]%Map_set_elem; [done | by apply Hk].
  - by apply Map_set_NoDup.
Qed.

Lemma keyedBySlug_find m s :
  keyedBySlug m ->
  List.find (fun l => String.eqb (AffiliateLink.slug l) s) (Map.values m)
  = Map.get m s.
Proof.
  induction m as [|[k v] m IH]; intros Hk; simpl; [done |].
  rewrite <- (Hk k v) by left. destruct (String.eqb k s); [done |].
  apply IH. intros k' v' Hin. apply Hk. by right.
Qed.

(** The merged map of [upsertLinks]. *)
Lemma upsertLinks_merged file links :
  exists m,
    FileSystemAdapter.upsertLinks file links = Some (Map.values m) /\
    keyedBySlug m /\ NoDup (Map.keys m) /\
    forall s, Map.get m s =
      match lastBySlug s links with
      | Some r => Some r
      | None => lastBySlug s (FileSystemAdapter.getLinks file)
      end.
Proof.
  set (existing := FileSystemAdapter.getLinks file).
  exists (fold_left upsertStep (existing ++ links) []).
  assert (forall es : list AffiliateLink.t,
            Map.of_entries (map (fun l => (AffiliateLink.slug l, l)) es)
            = fold_left upsertStep es []) as Hof.
  { intros es. unfold Map.of_entries. generalize (@nil (string * AffiliateLink.t)).
    induction es as [|e es IH]; intros m0; simpl; [done |]. apply IH. }
  split.
  { unfold FileSystemAdapter.upsertLinks. fold existing.
    by rewrite Hof, fold_left_app. }
  destruct (upsertStep_fold_keyed (existing ++ links) []) as [Hk Hnd].
  { intros k v Hin. by apply elem_of_nil in Hin. }
  { constructor. }
  split; [done |]. split; [done |].
  intros s. rewrite upsertStep_fold_get, lastBySlug_app. simpl.
  destruct (lastBySlug s links); [done |]. by destruct (lastBySlug s existing).
Qed.

Lemma keyedBySlug_values m r :
  keyedBySlug m -> NoDup (Map.keys m) ->
  r ∈ Map.values m <-> Map.get m (AffiliateLink.slug r) = Some r.
Proof.
  intros Hk Hnd. split.
  - intros ([k v] & -> & Hin)%list_elem_of_fmap. simpl.
    rewrite <- (Hk k v Hin). by apply Map_get_elem.
  - intros Hin%Map_get_Some. apply list_elem_of_fmap.
    by exists (AffiliateLink.slug r, r).
Qed.

(** New value wins, per whole record: a record of the batch that is the
    only one of the batch with its slug is afterwards the record of that
    slug. *)
Lemma upsertLinks_new_wins file links r :
  r ∈ links ->
  (forall r', r' ∈ links -> AffiliateLink.slug r' = AffiliateLink.slug r ->
     r' = r) ->
  FileSystemAdapter.getLinkBySlug (FileSystemAdapter.upsertLinks file links)
    (AffiliateLink.slug r) = Some r.
Proof.
  intros Hin Huniq.
  destruct (upsertLinks_merged file links) as (m & -> & Hk & Hnd & Hget).
  unfold FileSystemAdapter.getLinkBySlug. simpl.
  rewrite keyedBySlug_find, Hget by done.
  destruct (lastBySlug (AffiliateLink.slug r) links) as [r'|] eqn:E.
  - apply lastBySlug_Some in E as [Hin' Hs]. f_equal. by apply Huniq.
  - apply lastBySlug_None in E. exfalso. apply E.
    apply list_elem_of_fmap. by exists r.
Qed.

(** ** Literal replacement *)

Lemma prefix_false_app (p a b : string) :
  String.prefix p (a +:+ b) = false -> String.prefix p a = false.
Proof.
  intros Hf. destruct (String.prefix p a) eqn:E; [| done].
  apply prefix_inv in E as [t ->]. by rewrite append_assoc, prefix_append in Hf.
Qed.

Lemma GetSubstitution_dollarFree matched before after templ :
  dollarFree templ = true ->
  RegExp.GetSubstitution matched before after templ = templ.
Proof.
  induction templ as [|a templ IH]; simpl; [done |].
  unfold dollarFree. simpl. rewrite orb_false_r.
  destruct (Ascii.eqb a "$"); simpl; [done |].
  intros Hf. by rewrite IH.
Qed.

Lemma replaceAll_go_dollarFree pat templ before skip s :
  dollarFree templ = true ->
  RegExp.replaceAll_go pat templ before skip s
  = replaceLiteral_go pat templ skip s.
Proof.
  intros Hf. revert before skip.
  induction s as [|a s IH]; intros before skip; simpl; [done |].
  destruct skip as [|k]; [| apply IH].
  rewrite GetSubstitution_dollarFree by done. by rewrite !IH.
Qed.

Lemma replaceAll_dollarFree pat templ s :
  dollarFree templ = true ->
  RegExp.replaceAll pat templ s = replaceLiteral pat templ s.
Proof. apply replaceAll_go_dollarFree. Qed.

(** A pattern that does not occur leaves the text as it is, whatever the
    template. *)
Lemma replaceAll_absent pat templ s :
  ~ occurs pat s -> RegExp.replaceAll pat templ s = s.
Proof.
  unfold RegExp.replaceAll. generalize EmptyString as before.
  induction s as [|a s IH]; intros before Habs; [done |].
  cbn [RegExp.replaceAll_go].
  destruct (String.prefix pat (String a s)) eqn:Hp.
  - exfalso. apply Habs. apply occurs_includes, includes_prefix, Hp.
  - f_equal. apply IH. intros Ho. apply Habs.
    apply occurs_includes, includes_cons. right. by apply occurs_includes.
Qed.

Section Replace.
Variables (c0 : ascii) (p0 : string) (rep : string).
Let pat := String c0 p0.

Lemma replaceLiteral_skip x t :
  replaceLiteral_go pat rep (String.length x) (x +:+ t)
  = replaceLiteral_go pat rep 0 t.
Proof. induction x as [|a x IH]; simpl; [by destruct t | done]. Qed.

Lemma replaceLiteral_match t :
  replaceLiteral pat rep (pat +:+ t) = rep +:+ replaceLiteral pat rep t.
Proof.
  unfold replaceLiteral.
  change (pat +:+ t) with (String c0 (p0 +:+ t)).
  cbn [replaceLiteral_go].
  change (String c0 (p0 +:+ t)) with (pat +:+ t). rewrite prefix_append.
  f_equal. unfold pat. cbn [String.length].
  replace (S (String.length p0) - 1) with (String.length p0) by lia.
  apply replaceLiteral_skip.
Qed.

Lemma replaceLiteral_nomatch a s :
  String.prefix pat (String a s) = false ->
  replaceLiteral pat rep (String a s) = String a (replaceLiteral pat rep s).
Proof. intros Hp. unfold replaceLiteral. cbn [replaceLiteral_go]. by rewrite Hp. Qed.

(** Induction along the scan of [replaceLiteral]. *)
Lemma replaceLiteral_ind (Q : string -> string -> Prop) :
  Q "" "" ->
  (forall t r, Q t r -> Q (pat +:+ t) (rep +:+ r)) ->
  (forall a s r, String.prefix pat (String a s) = false -> Q s r ->
     Q (String a s) (String a r)) ->
  forall s, Q s (replaceLiteral pat rep s).
Proof.
  intros Hnil Hmatch Hstep s.
  remember (String.length s) as n eqn:Hn. revert s Hn.
  induction n as [n IH] using lt_wf_ind. intros s Hn.
  destruct s as [|a s]; [done |].
  destruct (String.prefix pat (String a s)) eqn:Hp.
  - apply prefix_inv in Hp as [t Ht]. rewrite Ht, replaceLiteral_match.
    apply Hmatch. eapply IH; [| done]. rewrite Hn, Ht, append_length.
    unfold pat. simpl. lia.
  - rewrite replaceLiteral_nomatch by done. apply Hstep; [done |].
    eapply IH; [| done]. rewrite Hn. simpl. lia.
Qed.

Lemma occurs_cons_inv q a s :
  occurs q (String a s) -> String.prefix q (String a s) = true \/ occurs q s.
Proof.
  intros Ho%occurs_includes%includes_cons. rewrite occurs_includes. done.
Qed.

Lemma occurs_app_r q a s : occurs q s -> occurs q (a +:+ s).
Proof.
  intros (x & y & ->). exists (a +:+ x), y. by rewrite append_assoc.
Qed.

Lemma replaceLiteral_length_le s :
  String.length rep <= String.length pat ->
  String.length (replaceLiteral pat rep s) <= String.length s.
Proof.
  intros Hle. apply replaceLiteral_ind.
  - done.
  - intros t r Hr. rewrite !append_length. lia.
  - intros a t r _ Hr. simpl. lia.
Qed.

Lemma replaceLiteral_length_ge s :
  String.length pat <= String.length rep ->
  String.length s <= String.length (replaceLiteral pat rep s).
Proof.
  intros Hle. apply replaceLiteral_ind.
  - done.
  - intros t r Hr. rewrite !append_length. lia.
  - intros a t r _ Hr. simpl. lia.
Qed.

(** A pattern that occurs is rewritten: the text changes, unless the
    replacement is the pattern itself. *)
Lemma replaceLiteral_altered s :
  rep <> pat -> occurs pat s -> replaceLiteral pat rep s <> s.
Proof.
  intros Hne. induction s as [|a s IH]; intros Ho.
  - destruct Ho as (x & y & Heq). destruct x; discriminate.
  - destruct (String.prefix pat (String a s)) eqn:Hp.
    + apply prefix_inv in Hp as [t Ht]. rewrite Ht, replaceLiteral_match.
      intros Heq.
      destruct (Nat.lt_trichotomy (String.length rep) (String.length pat))
        as [Hlt|[Hlen|Hgt]].
      * pose proof (replaceLiteral_length_le t ltac:(lia)) as Hl.
        apply (f_equal String.length) in Heq. rewrite !append_length in Heq. lia.
      * by apply append_eq_length in Heq as [? _].
      * pose proof (replaceLiteral_length_ge t ltac:(lia)) as Hl.
        apply (f_equal String.length) in Heq. rewrite !append_length in Heq. lia.
    + rewrite replaceLiteral_nomatch by done. intros [= Heq].
      apply occurs_cons_inv in Ho as [Hp'|Ho]; [congruence |].
      by apply IH.
Qed.

(** The replacement acts on the two sides of a cut independently when no
    occurrence of the pattern that begins left of the cut runs across it. *)
Lemma replaceLiteral_app a b :
  (forall a1 a2 t, a = a1 +:+ a2 -> a2 <> "" -> a2 +:+ b = pat +:+ t ->
     exists t', a2 = pat +:+ t') ->
  replaceLiteral pat rep (a +:+ b)
  = replaceLiteral pat rep a +:+ replaceLiteral pat rep b.
Proof.
  remember (String.length a) as n eqn:Hn. revert a Hn.
  induction n as [n IH] using lt_wf_ind. intros a Hn Hcut.
  destruct a as [|x a]; [done |].
  destruct (String.prefix pat (String x a +:+ b)) eqn:Hp.
  - apply prefix_inv in Hp as [t Ht].
    destruct (Hcut "" (String x a) t) as [t' Ht']; [done | done | done |].
    rewrite Ht', append_assoc, !replaceLiteral_match, append_assoc. f_equal.
    eapply IH; [| done |].
    + rewrite Hn, Ht', append_length. unfold pat. simpl. lia.
    + intros a1 a2 u Ha Hne Hu. apply (Hcut (pat +:+ a1) a2 u); [| done | done].
      by rewrite Ht', Ha, append_assoc.
  - pose proof (prefix_false_app _ _ _ Hp) as Hp'.
    change (String x a +:+ b) with (String x (a +:+ b)) in *.
    rewrite !replaceLiteral_nomatch by done.
    change (String x (replaceLiteral pat rep a) +:+ replaceLiteral pat rep b)
      with (String x (replaceLiteral pat rep a +:+ replaceLiteral pat rep b)).
    f_equal. eapply IH; [| done |].
    + rewrite Hn. simpl. lia.
    + intros a1 a2 u Ha Hne Hu. apply (Hcut (String x a1) a2 u); [| done | done].
      by rewrite Ha.
Qed.

Lemma replaceLiteral_absent s :
  ~ occurs pat s -> replaceLiteral pat rep s = s.
Proof.
  induction s as [|a s IH]; intros Habs; [done |].
  rewrite replaceLiteral_nomatch.
  - f_equal. apply IH. intros Ho. apply Habs.
    by apply (occurs_app_r _ (String a "")).
  - destruct (String.prefix pat (String a s)) eqn:Hp; [| done].
    exfalso. apply Habs. apply occurs_includes, includes_prefix, Hp.
Qed.

End Replace.

(** ** Markdown link targets *)

Lemma avoids_app bad x y :
  avoids bad (x +:+ y) = avoids bad x && avoids bad y.
Proof.
  induction x as [|a x IH]; simpl; [done |]. rewrite IH. apply andb_assoc.
Qed.

Lemma plain_avoids_bracket s : plain s = true -> avoids ["]"]%char s = true.
Proof.
  unfold plain. induction s as [|a s IH]; simpl; [done |].
  rewrite !orb_false_r. intros [[H1 _]%negb_true_iff%orb_false_iff Hs]%andb_true_iff.
  rewrite H1. simpl. by apply IH.
Qed.

Lemma plain_avoids_paren s : plain s = true -> avoids [")"]%char s = true.
Proof.
  unfold plain. induction s as [|a s IH]; simpl; [done |].
  rewrite !orb_false_r. intros [[_ H2]%negb_true_iff%orb_false_iff Hs]%andb_true_iff.
  rewrite H2. simpl. by apply IH.
Qed.

(** The first [c] of [s +:+ t] is not inside [s] when [s] avoids [c]. *)
Lemma avoids_first c s t x y :
  avoids [c] s = true -> s +:+ t = x +:+ String c y ->
  exists z, x = s +:+ z.
Proof.
  revert x. induction s as [|a s IH]; intros x Hav Heq; simpl in *.
  - by exists x.
  - rewrite orb_false_r in Hav.
    apply andb_true_iff in Hav as [Ha%negb_true_iff Hav].
    destruct x as [|b x]; simpl in Heq.
    + injection Heq as -> _. by rewrite Ascii.eqb_refl in Ha.
    + injection Heq as -> Heq. destruct (IH _ Hav Heq) as [z ->]. by exists z.
Qed.

Lemma avoids_split c u v t t' :
  avoids [c] u = true -> avoids [c] v = true ->
  u +:+ String c t = v +:+ String c t' -> u = v.
Proof.
  intros Hu Hv Heq.
  destruct (avoids_first c u (String c t) v t' Hu Heq) as [z Hz].
  symmetry in Heq.
  destruct (avoids_first c v (String c t') u t Hv Heq) as [z' Hz'].
  rewrite Hz' in Hz at 1. rewrite append_assoc in Hz.
  rewrite <- (append_nil_r v) in Hz at 1.
  apply (inj (String.append v)) in Hz.
  destruct z'; [| discriminate]. by rewrite append_nil_r in Hz'.
Qed.

Lemma target_cons url : target url = String "]" (String "(" (url +:+ ")")).
Proof. done. Qed.

(** The only closing bracket of the target of a plain URL is its first
    code unit. *)
Lemma target_bracket url x y :
  plain url = true -> target url = x +:+ String "]" y -> x = "".
Proof.
  intros Hp Heq. destruct x as [|a x]; [done |]. exfalso.
  rewrite target_cons in Heq. simpl in Heq. injection Heq as <- Heq.
  assert (avoids ["]"]%char (String "(" (url +:+ ")")) = true) as Hav.
  { simpl. rewrite avoids_app, (plain_avoids_bracket _ Hp). done. }
  rewrite <- (append_nil_r (String "(" (url +:+ ")"))) in Heq.
  destruct (avoids_first _ _ _ _ _ Hav Heq) as [z ->].
  rewrite append_assoc in Heq. apply (inj (String.append _)) in Heq.
  destruct z; discriminate.
Qed.

(** Two targets of plain URLs that begin at the same place are equal. *)
Lemma target_same_start u v t t' :
  plain u = true -> plain v = true ->
  target u +:+ t = target v +:+ t' -> u = v.
Proof.
  intros Hu Hv Heq. rewrite !target_cons in Heq. simpl in Heq.
  injection Heq as Heq. rewrite !append_assoc in Heq. simpl in Heq.
  eapply avoids_split; [| | exact Heq]; by apply plain_avoids_paren.
Qed.

Lemma target_inj u v : target u = target v -> u = v.
Proof.
  rewrite !target_cons. intros [= Heq].
  apply (f_equal String.rev) in Heq. revert Heq.
  assert (forall s, String.rev (s +:+ ")") = String ")" (String.rev s)) as Hrev.
  { intros s. unfold String.rev.
    assert (forall s acc, String.rev_app (s +:+ ")") acc
                          = String ")" (String.rev_app s acc)) as Hgo.
    { clear. intros s. induction s as [|a s IH]; intros acc; simpl; [done |].
      apply IH. }
    apply Hgo. }
  rewrite !Hrev. intros [= Heq].
  assert (forall s, String.rev (String.rev s) = s) as Hinv.
  { intros s. unfold String.rev.
    assert (forall s acc, String.rev_app (String.rev_app s acc) ""
                          = String.rev_app acc s) as Hgo.
    { clear. intros s. induction s as [|a s IH]; intros acc; simpl; [done |].
      by rewrite IH. }
    apply (Hgo s ""). }
  by rewrite <- (Hinv u), <- (Hinv v), Heq.
Qed.

Section TargetReplace.
Variables (u rep : string).
Hypothesis Hu : plain u = true.

Lemma replaceLiteral_target_app a b :
  (forall a1 a2 t, a = a1 +:+ a2 -> a2 <> "" ->
     a2 +:+ b = target u +:+ t -> exists t', a2 = target u +:+ t') ->
  replaceLiteral (target u) rep (a +:+ b)
  = replaceLiteral (target u) rep a +:+ replaceLiteral (target u) rep b.
Proof. apply (replaceLiteral_app "]" (String "(" (u +:+ ")"))). Qed.

Lemma replaceLiteral_target_absent s :
  ~ occurs (target u) s -> replaceLiteral (target u) rep s = s.
Proof. apply (replaceLiteral_absent "]" (String "(" (u +:+ ")"))). Qed.

Lemma target_no_straddle_left a2 rest t :
  a2 <> "" -> a2 +:+ String "]" rest = target u +:+ t ->
  exists t', a2 = target u +:+ t'.
Proof.
  intros Hne Heq.
  apply append_eq_inv in Heq as [(z & Ha2 & _)|(z & Htu & Hz)]; [by exists z |].
  destruct z as [|c z].
  - exists "". rewrite Htu. by rewrite !append_nil_r.
  - simpl in Hz. injection Hz as <- _.
    by apply target_bracket in Htu.
Qed.

(** The target of another plain URL is a barrier for the replacement: the
    text on either side is rewritten on its own. *)
Lemma replaceLiteral_barrier v a b :
  plain v = true -> v <> u ->
  replaceLiteral (target u) rep (a +:+ target v +:+ b)
  = replaceLiteral (target u) rep a +:+ target v
    +:+ replaceLiteral (target u) rep b.
Proof.
  intros Hv Hne.
  rewrite replaceLiteral_target_app.
  2:{ intros a1 a2 t _ Hne2 Heq. rewrite (target_cons v) in Heq.
      by eapply target_no_straddle_left. }
  f_equal.
  rewrite replaceLiteral_target_app.
  2:{ intros q1 q2 t Hq Hne2 Heq.
      apply append_eq_inv in Heq as [(z & Hq2 & _)|(z & Htu & Hz)];
        [by exists z |].
      exfalso. destruct q2 as [|c q2]; [done |].
      pose proof Htu as Htu'. rewrite target_cons in Htu'. simpl in Htu'.
      injection Htu' as <- _.
      pose proof Hq as Hq1. apply target_bracket in Hq1 as ->; [| done].
      simpl in Hq. apply Hne. symmetry.
      apply (target_same_start u v "" z); [done | done |].
      by rewrite append_nil_r, Hq. }
  f_equal. apply replaceLiteral_target_absent.
  intros (x & y & Heq).
  pose proof Heq as Hx. rewrite (target_cons u) in Hx. simpl in Hx.
  apply target_bracket in Hx as ->; [| done].
  simpl in Heq. apply Hne.
  apply (target_same_start v u "" y); [done | done |].
  by rewrite append_nil_r.
Qed.

Lemma replaceLiteral_survives v s :
  plain v = true -> v <> u -> occurs (target v) s ->
  occurs (target v) (replaceLiteral (target u) rep s).
Proof.
  intros Hv Hne (a & b & ->). rewrite replaceLiteral_barrier by done.
  by eexists _, _.
Qed.

End TargetReplace.

(** Induction along a left-to-right scan for a pattern. *)
Lemma scan_ind (pat : string) (Q : string -> Prop) :
  pat <> "" ->
  Q "" ->
  (forall t, Q t -> Q (pat +:+ t)) ->
  (forall a s, String.prefix pat (String a s) = false -> Q s -> Q (String a s)) ->
  forall s, Q s.
Proof.
  intros Hne Hnil Hmatch Hstep s.
  remember (String.length s) as n eqn:Hn. revert s Hn.
  induction n as [n IH] using lt_wf_ind. intros s Hn.
  destruct s as [|a s]; [done |].
  destruct (String.prefix pat (String a s)) eqn:Hp.
  - apply prefix_inv in Hp as [t Ht]. rewrite Ht.
    apply Hmatch. eapply IH; [| done]. rewrite Hn, Ht, append_length.
    destruct pat; [done |]. simpl. lia.
  - apply Hstep; [done |]. eapply IH; [| done]. rewrite Hn. simpl. lia.
Qed.

Lemma target_scan_ind (u : string) (Q : string -> Prop) :
  Q "" ->
  (forall t, Q t -> Q (target u +:+ t)) ->
  (forall a s, String.prefix (target u) (String a s) = false -> Q s ->
     Q (String a s)) ->
  forall s, Q s.
Proof. by apply scan_ind. Qed.

Section TargetGone.
Variables (u t : string).
Hypothesis Hu : plain u = true.
Hypothesis Ht : plain t = true.

Lemma replaceLiteral_target_match s :
  replaceLiteral (target u) (target t) (target u +:+ s)
  = target t +:+ replaceLiteral (target u) (target t) s.
Proof. apply (replaceLiteral_match "]" (String "(" (u +:+ ")"))). Qed.

Lemma replaceLiteral_target_nomatch a s :
  String.prefix (target u) (String a s) = false ->
  replaceLiteral (target u) (target t) (String a s)
  = String a (replaceLiteral (target u) (target t) s).
Proof. apply (replaceLiteral_nomatch "]" (String "(" (u +:+ ")"))). Qed.

(** A text without closing bracket that begins the rewritten text begins
    the original text: it ends before the first replacement. *)
Lemma replaceLiteral_prefix_back s q r :
  avoids ["]"]%char q = true ->
  replaceLiteral (target u) (target t) s = q +:+ r ->
  exists r', s = q +:+ r'.
Proof.
  revert q r. induction s as [|s IHs|a s H IHs] using (target_scan_ind u);
    intros q r Hq Heq.
  - destruct q; [by exists "" | discriminate].
  - destruct q as [|a q]; [by eexists |].
    rewrite replaceLiteral_target_match, target_cons in Heq.
    simpl in Heq. injection Heq as <- _. simpl in Hq. done.
  - destruct q as [|b q]; [by eexists |].
    rewrite replaceLiteral_target_nomatch in Heq by done.
    simpl in Heq. injection Heq as <- Heq. simpl in Hq.
    apply andb_true_iff in Hq as [_ Hq].
    destruct (IHs _ _ Hq Heq) as [r' ->]. by exists r'.
Qed.

(** After the replacement of the target of [u] by the target of [t], the
    target of a plain URL [w] other than [t] does not occur unless it
    occurred before; the target of [u] itself does not occur at all. *)
Lemma replaceLiteral_target_gone w s :
  plain w = true -> w <> t ->
  (occurs (target w) s -> w = u) ->
  ~ occurs (target w) (replaceLiteral (target u) (target t) s).
Proof.
  intros Hw Hwt. induction s as [|s IHs|a s H IHs] using (target_scan_ind u);
    intros Hocc.
  - intros (x & y & Heq). destruct x; discriminate.
  - rewrite replaceLiteral_target_match. intros (x & y & Heq).
    apply append_eq_inv in Heq as [(z & Hz & Hr)|(z & Hz & Hr)].
    + destruct z as [|c z].
      * simpl in Hr. apply IHs; [| by exists "", y].
        intros Ho. apply Hocc. by apply occurs_app_r.
      * pose proof Hr as Hc. rewrite target_cons in Hc. simpl in Hc.
        injection Hc as <- _.
        pose proof Hz as Hx. apply target_bracket in Hx as ->; [| done].
        simpl in Hz. apply Hwt.
        apply (target_same_start w t y (replaceLiteral (target u) (target t) s));
          [done | done |].
        by rewrite Hr, Hz.
    + apply IHs; [| by exists z, y].
      intros Ho. apply Hocc. by apply occurs_app_r.
  - rewrite replaceLiteral_target_nomatch by done.
    intros [Hp|Ho]%occurs_cons_inv.
    + apply prefix_inv in Hp as [y Hy].
      rewrite target_cons in Hy. simpl in Hy. injection Hy as -> Hy.
      assert (avoids ["]"]%char (String "(" (w +:+ ")")) = true) as Hav.
      { simpl. rewrite avoids_app, (plain_avoids_bracket _ Hw). done. }
      destruct (replaceLiteral_prefix_back _ _ _ Hav Hy) as [r' ->].
      assert (occurs (target w) (String "]" (String "(" (w +:+ ")") +:+ r')))
        as Ho by by exists "", r'.
      apply Hocc in Ho as ->.
      change (String "]" (String "(" (u +:+ ")") +:+ r'))
        with (target u +:+ r') in H.
      by rewrite prefix_append in H.
    + apply IHs; [| done]. intros Ho'. apply Hocc.
      by apply (occurs_app_r _ (String a "")).
Qed.

End TargetGone.

(** ** The rewrite pass *)

Lemma is_syntax_backslash a :
  RegExp.is_syntax a = false -> Ascii.eqb a "\" = false.
Proof.
  unfold RegExp.is_syntax. simpl. rewrite !orb_false_iff. tauto.
Qed.

Lemma literal_go_escapeRegex url rest lit :
  RegExp.literal_go rest = Some lit ->
  RegExp.literal_go (Transformer.escapeRegex url +:+ rest)
  = Some (url +:+ lit).
Proof.
  intros Hrest. induction url as [|a url IH]; [done |].
  cbn [Transformer.escapeRegex].
  destruct (RegExp.is_syntax a) eqn:Hs.
  - change (RegExp.literal_go (String "\" (String a (Transformer.escapeRegex url)) +:+ rest))
      with (if RegExp.is_syntax a
            then String a <$> RegExp.literal_go (Transformer.escapeRegex url +:+ rest)
            else None).
    by rewrite Hs, IH.
  - change (RegExp.literal_go (String a (Transformer.escapeRegex url) +:+ rest))
      with (if Ascii.eqb a "\" then
              match Transformer.escapeRegex url +:+ rest with
              | EmptyString => None
              | String c rest' =>
                  if RegExp.is_syntax c
                  then String c <$> RegExp.literal_go rest' else None
              end
            else if RegExp.is_syntax a then None
            else String a <$> RegExp.literal_go (Transformer.escapeRegex url +:+ rest)).
    by rewrite (is_syntax_backslash _ Hs), Hs, IH.
Qed.

(** The pattern built from an occurrence is always accepted by the
    [RegExp] constructor, and matches exactly the link target of its URL. *)
Lemma literal_target url :
  RegExp.literal ("\]\(" +:+ Transformer.escapeRegex url +:+ "\)")
  = Some (target url).
Proof.
  unfold RegExp.literal.
  change (RegExp.literal_go ("\]\(" +:+ Transformer.escapeRegex url +:+ "\)"))
    with (String "]" <$> (String "(" <$>
            RegExp.literal_go (Transformer.escapeRegex url +:+ "\)"))).
  by rewrite (literal_go_escapeRegex url "\)" ")").
Qed.

Lemma insertLink_Permutation a sorted :
  Transformer.insertLink a sorted ≡ₚ a :: sorted.
Proof.
  induction sorted as [|b sorted IH]; simpl; [done |].
  destruct (_ <=? _)%Z; [done |]. rewrite IH. apply Permutation_swap.
Qed.

Lemma sortLinks_Permutation links : Transformer.sortLinks links ≡ₚ links.
Proof.
  induction links as [|a links IH]; simpl; [done |].
  by rewrite insertLink_Permutation, IH.
Qed.

Lemma elem_of_filter_bool {A} (f : A -> bool) (l : list A) (x : A) :
  x ∈ List.filter f l <-> x ∈ l /\ f x = true.
Proof. rewrite !list_elem_of_In. apply filter_In. Qed.

Lemma compareLinks_trans a b c :
  (Transformer.compareLinks a b <=? 0)%Z = true ->
  (Transformer.compareLinks b c <=? 0)%Z = true ->
  (Transformer.compareLinks a c <=? 0)%Z = true.
Proof.
  unfold Transformer.compareLinks. rewrite !Z.leb_le.
  destruct (Nat.eqb_spec (ExtractedLink.line a) (ExtractedLink.line b)),
    (Nat.eqb_spec (ExtractedLink.line b) (ExtractedLink.line c)),
    (Nat.eqb_spec (ExtractedLink.line a) (ExtractedLink.line c));
    simpl; lia.
Qed.

Lemma compareLinks_total a b :
  (Transformer.compareLinks a b <=? 0)%Z = false ->
  (Transformer.compareLinks b a <=? 0)%Z = true.
Proof.
  unfold Transformer.compareLinks. rewrite Z.leb_le, Z.leb_gt.
  destruct (Nat.eqb_spec (ExtractedLink.line a) (ExtractedLink.line b)),
    (Nat.eqb_spec (ExtractedLink.line b) (ExtractedLink.line a));
    simpl; lia.
Qed.

Lemma insertLink_first a sorted :
  Forall (fun b => (Transformer.compareLinks a b <=? 0)%Z = true) sorted ->
  Transformer.insertLink a sorted = a :: sorted.
Proof. intros Hall. destruct Hall as [|b l Hb _]; simpl; [done | by rewrite Hb]. Qed.

(** The sort puts the occurrences in descending order of position. *)
Lemma insertLink_sorted a sorted :
  StronglySorted (fun x y => (Transformer.compareLinks x y <=? 0)%Z = true) sorted ->
  StronglySorted (fun x y => (Transformer.compareLinks x y <=? 0)%Z = true)
    (Transformer.insertLink a sorted).
Proof.
  induction 1 as [|b l Hs IH Hall]; simpl; [repeat constructor |].
  destruct (Transformer.compareLinks a b <=? 0)%Z eqn:Hab.
  - constructor; [by constructor |]. constructor; [done |].
    eapply Forall_impl; [exact Hall |]. intros c Hbc. simpl in Hbc.
    by eapply compareLinks_trans.
  - constructor; [done |]. rewrite insertLink_Permutation.
    constructor; [by apply compareLinks_total | done].
Qed.

Lemma sortLinks_sorted links :
  StronglySorted (fun x y => (Transformer.compareLinks x y <=? 0)%Z = true)
    (Transformer.sortLinks links).
Proof.
  induction links as [|a links IH]; simpl; [constructor |].
  by apply insertLink_sorted.
Qed.

Lemma insertLink_filter (f : ExtractedLink.t -> bool) a sorted :
  StronglySorted (fun x y => (Transformer.compareLinks x y <=? 0)%Z = true) sorted ->
  List.filter f (Transformer.insertLink a sorted) =
  if f a then Transformer.insertLink a (List.filter f sorted)
  else List.filter f sorted.
Proof.
  induction 1 as [|b l Hs IH Hall]; simpl; [by destruct (f a) |].
  destruct (Transformer.compareLinks a b <=? 0)%Z eqn:Hab.
  - change (List.filter f (a :: b :: l))
      with (if f a then a :: List.filter f (b :: l) else List.filter f (b :: l)).
    destruct (f a); [| done].
    symmetry. apply insertLink_first.
    assert (Forall (fun c => (Transformer.compareLinks a c <=? 0)%Z = true)
              (b :: l)) as Hall'.
    { constructor; [done |]. eapply Forall_impl; [exact Hall |].
      intros c Hbc. simpl in Hbc. by eapply compareLinks_trans. }
    apply Forall_forall. intros c [Hc _]%elem_of_filter_bool.
    rewrite Forall_forall in Hall'. by apply Hall'.
  - cbn [List.filter]. rewrite IH.
    destruct (f b), (f a); simpl; by rewrite ?Hab.
Qed.

(** Sorting and discarding the occurrences that do not pass the guard
    commute. *)
Lemma sortLinks_filter (f : ExtractedLink.t -> bool) links :
  List.filter f (Transformer.sortLinks links)
  = Transformer.sortLinks (List.filter f links).
Proof.
  induction links as [|a links IH]; simpl; [done |].
  rewrite insertLink_filter by apply sortLinks_sorted.
  rewrite IH. by destruct (f a).
Qed.

Lemma filter_Permutation_bool {A} (f : A -> bool) (l l' : list A) :
  l ≡ₚ l' -> List.filter f l ≡ₚ List.filter f l'.
Proof.
  induction 1 as [|x l l' _ IH|x y l|l l' l'' _ IH1 _ IH2]; simpl.
  - done.
  - destruct (f x); [by constructor | done].
  - destruct (f x), (f y); try done. apply Permutation_swap.
  - by etrans.
Qed.

Section RewritePass.
Context `{Platform}.
Variable config : LinksmithConfig.
Variable plugins : list NetworkPlugin.t.
Variable linkMap : Map.t AffiliateLink.t.

Abbreviation loop := (Transformer.transformFile_loop config plugins).
Abbreviation tracking := (trackingUrlOf config plugins linkMap).

(** One turn of the loop for an occurrence that passes the guard. *)
Lemma transformFile_loop_qualifying link rest content changes clock :
  qualifying link = true ->
  let url := ExtractedLink.url link in
  let slug := fst (Transformer.findOrGenerateSlug plugins link linkMap clock) in
  let clock' := snd (Transformer.findOrGenerateSlug plugins link linkMap clock) in
  let content' :=
    RegExp.replaceAll (target url) (target (tracking link clock)) content in
  loop (link :: rest) linkMap content changes clock =
  loop rest linkMap content'
    (if negb (String.eqb content' content)
     then changes ++ [ {| original := url; change_slug := slug;
                          trackingUrl := tracking link clock |} ]
     else changes)%list
    clock'.
Proof.
  intros Hq url slug clock' content'.
  cbn [Transformer.transformFile_loop].
  unfold qualifying in Hq. rewrite Hq. simpl negb. cbv iota.
  subst url slug clock' content'. unfold trackingUrlOf.
  destruct (Transformer.findOrGenerateSlug plugins link linkMap clock)
    as [slug clock'].
  by rewrite literal_target.
Qed.

Lemma transformFile_loop_skip link rest content changes clock :
  qualifying link = false ->
  loop (link :: rest) linkMap content changes clock =
  loop rest linkMap content changes clock.
Proof.
  intros Hq. cbn [Transformer.transformFile_loop].
  unfold qualifying in Hq. by rewrite Hq.
Qed.

(** The loop never fails; it records the substitutions that altered the
    text, in the order they are made, and ends with the text of the last
    one. *)
Lemma transformFile_loop_steps sortedLinks content changes clock :
  let steps := rewriteSteps config plugins sortedLinks linkMap content clock in
  exists clock',
    loop sortedLinks linkMap content changes clock =
    Some (default content (last (step_after <$> steps)),
          (changes ++ (changeOf config <$> List.filter altered steps))%list,
          clock').
Proof.
  revert content changes clock.
  induction sortedLinks as [|link rest IH]; intros content changes clock.
  - exists clock. simpl. by rewrite app_nil_r.
  - cbn [rewriteSteps]. destruct (qualifying link) eqn:Hq.
    + rewrite transformFile_loop_qualifying by done. unfold trackingUrlOf.
      destruct (Transformer.findOrGenerateSlug plugins link linkMap clock)
        as [slug clock1]. cbn [fst snd].
      set (after := RegExp.replaceAll _ _ content).
      destruct (IH after
                  (if negb (String.eqb after content)
                   then changes ++ [ {| original := ExtractedLink.url link;
                                        change_slug := slug;
                                        trackingUrl :=
                                          tracking_baseUrl config +:+ slug |} ]
                   else changes)%list clock1) as [clock' ->].
      exists clock'. do 3 f_equal.
      * rewrite fmap_cons, last_cons.
        by destruct (last _).
      * clearbody after. cbn [List.filter].
        change (altered {| step_link := link; step_slug := slug;
                           step_before := content; step_after := after |})
          with (negb (String.eqb after content)).
        destruct (negb (String.eqb after content)); [| done].
        rewrite fmap_cons. by rewrite <- app_assoc.
    + rewrite transformFile_loop_skip by done. apply IH.
Qed.

(** The occurrences that do not pass the guard have no effect. *)
Lemma transformFile_loop_filter sortedLinks content changes clock :
  loop sortedLinks linkMap content changes clock =
  loop (List.filter qualifying sortedLinks) linkMap content changes clock.
Proof.
  revert content changes clock.
  induction sortedLinks as [|link rest IH]; intros content changes clock;
    [done |].
  cbn [List.filter]. destruct (qualifying link) eqn:Hq.
  - rewrite !transformFile_loop_qualifying by done. apply IH.
  - rewrite transformFile_loop_skip by done. apply IH.
Qed.

Lemma transformFile_filter filePath content links clock :
  Transformer.transformFile config plugins filePath content links linkMap clock
  = Transformer.transformFile config plugins filePath content
      (List.filter qualifying links) linkMap clock.
Proof.
  unfold Transformer.transformFile.
  by rewrite transformFile_loop_filter, sortLinks_filter.
Qed.

Lemma rewriteSteps_elem sortedLinks content clock s :
  s ∈ rewriteSteps config plugins sortedLinks linkMap content clock ->
  step_link s ∈ sortedLinks /\ qualifying (step_link s) = true /\
  step_after s =
  RegExp.replaceAll (target (ExtractedLink.url (step_link s)))
    (target (tracking_baseUrl config +:+ step_slug s)) (step_before s).
Proof.
  revert content clock.
  induction sortedLinks as [|link rest IH]; intros content clock; simpl.
  - intros Hin. by apply elem_of_nil in Hin.
  - destruct (qualifying link) eqn:Hq.
    + destruct (Transformer.findOrGenerateSlug plugins link linkMap clock)
        as [slug clock1].
      intros [->|Hin]%elem_of_cons.
      * simpl. split; [left | done].
      * destruct (IH _ _ Hin) as (? & ? & ?). split; [by right | done].
    + intros Hin. destruct (IH _ _ Hin) as (? & ? & ?).
      split; [by right | done].
Qed.


Lemma dollarFree_target t : dollarFree t = true -> dollarFree (target t) = true.
Proof.
  intros Ht. rewrite target_cons. unfold dollarFree in *. simpl.
  by rewrite avoids_app, Ht.
Qed.

Lemma replaceLiteral_target_altered u rep s :
  rep <> target u -> occurs (target u) s ->
  replaceLiteral (target u) rep s <> s.
Proof. apply (replaceLiteral_altered "]" (String "(" (u +:+ ")"))). Qed.

Lemma qualifying_not_internal link v :
  qualifying link = true -> JS.startsWith v "http" = false ->
  v <> ExtractedLink.url link.
Proof. unfold qualifying. intros Hq Hv ->. congruence. Qed.

(** The substitution of one turn, when the tracking URL has no [$]. *)
Lemma replaceAll_tracking link clock content :
  dollarFree (tracking link clock) = true ->
  RegExp.replaceAll (target (ExtractedLink.url link))
    (target (tracking link clock)) content
  = replaceLiteral (target (ExtractedLink.url link))
      (target (tracking link clock)) content.
Proof. intros Hd. by apply replaceAll_dollarFree, dollarFree_target. Qed.

(** Distinct plain URLs that all occur are all rewritten: one change entry
    each. *)
Lemma transformFile_loop_distinct rest content changes clock :
  NoDup (ExtractedLink.url <$> List.filter qualifying rest) ->
  (forall l, l ∈ rest -> qualifying l = true ->
     plain (ExtractedLink.url l) = true /\
     occurs (target (ExtractedLink.url l)) content) ->
  (forall l k, l ∈ rest -> qualifying l = true ->
     dollarFree (tracking l k) = true /\
     tracking l k <> ExtractedLink.url l) ->
  exists content' new clock',
    loop rest linkMap content changes clock
      = Some (content', (changes ++ new)%list, clock') /\
    original <$> new = ExtractedLink.url <$> List.filter qualifying rest.
Proof.
  revert content changes clock.
  induction rest as [|link rest IH]; intros content changes clock Hnd Hurl Htr.
  - exists content, [], clock. simpl. by rewrite app_nil_r.
  - destruct (qualifying link) eqn:Hq.
    + rewrite transformFile_loop_qualifying by done. cbv zeta.
      destruct (Hurl link ltac:(left) Hq) as [Hplain Hocc].
      destruct (Htr link clock ltac:(left) Hq) as [Hdollar Hne].
      rewrite replaceAll_tracking by done.
      set (T := tracking link clock) in *.
      set (U := ExtractedLink.url link) in *.
      assert (replaceLiteral (target U) (target T) content <> content) as Halt.
      { apply replaceLiteral_target_altered; [| done].
        intros Heq%target_inj. done. }
      apply String.eqb_neq in Halt. rewrite Halt. simpl negb. cbv iota.
      simpl in Hnd. rewrite Hq in Hnd. rewrite fmap_cons in Hnd.
      apply NoDup_cons in Hnd as [Hfresh Hnd].
      edestruct (IH (replaceLiteral (target U) (target T) content))
        as (content' & new & clock' & -> & Hnew); [exact Hnd | | |].
      * intros l Hl Hql. destruct (Hurl l ltac:(by right) Hql) as [Hpl Hol].
        split; [done |]. apply replaceLiteral_survives; [done | done | | done].
        intros Heq. apply Hfresh. unfold U in Heq. rewrite <- Heq.
        apply list_elem_of_fmap_2. apply elem_of_filter_bool. done.
      * intros l k Hl Hql. apply Htr; [by right | done].
      * eexists content', (_ :: new), clock'. split.
        -- by rewrite <- app_assoc.
        -- cbn [List.filter]. rewrite Hq, !fmap_cons, Hnew. done.
    + rewrite transformFile_loop_skip by done.
      simpl in Hnd. rewrite Hq in Hnd.
      edestruct (IH content changes clock)
        as (content' & new & clock' & -> & Hnew); [exact Hnd | | |].
      * intros l Hl. apply Hurl. by right.
      * intros l k Hl. apply Htr. by right.
      * exists content', new, clock'. split; [done |].
        simpl. by rewrite Hq.
Qed.

(** The target of a plain URL that does not pass the guard stays where it
    is, and the text on either side of it is rewritten on its own. *)
Lemma transformFile_loop_barrier rest v a b ch1 ch2 ch3 clock :
  plain v = true -> JS.startsWith v "http" = false ->
  (forall l, l ∈ rest -> qualifying l = true ->
     plain (ExtractedLink.url l) = true) ->
  (forall l k, l ∈ rest -> qualifying l = true ->
     dollarFree (tracking l k) = true) ->
  exists a' b' x y z clock',
    loop rest linkMap (a +:+ target v +:+ b) ch1 clock
      = Some (a' +:+ target v +:+ b', x, clock') /\
    loop rest linkMap a ch2 clock = Some (a', y, clock') /\
    loop rest linkMap b ch3 clock = Some (b', z, clock').
Proof.
  intros Hv Hint. revert a b ch1 ch2 ch3 clock.
  induction rest as [|link rest IH]; intros a b ch1 ch2 ch3 clock Hurl Htr.
  - by exists a, b, ch1, ch2, ch3, clock.
  - assert (forall l, l ∈ rest -> qualifying l = true ->
              plain (ExtractedLink.url l) = true) as Hurl'.
    { intros l Hl. apply Hurl. by right. }
    assert (forall l k, l ∈ rest -> qualifying l = true ->
              dollarFree (tracking l k) = true) as Htr'.
    { intros l k Hl. apply Htr. by right. }
    destruct (qualifying link) eqn:Hq.
    + rewrite !transformFile_loop_qualifying by done. cbv zeta.
      pose proof (Htr link clock ltac:(left) Hq) as Hdollar.
      rewrite !replaceAll_tracking by done.
      rewrite replaceLiteral_barrier;
        [| by apply Hurl; [left |] | done | by apply qualifying_not_internal].
      by apply IH.
    + rewrite !transformFile_loop_skip by done. by apply IH.
Qed.

(** With tracking URLs that are plain, free of [$] and different from
    every URL of the list, each URL whose target occurs in the text is
    rewritten exactly once, however many occurrences carry it. *)
Lemma transformFile_loop_once rest content changes clock :
  (forall l, l ∈ rest -> qualifying l = true ->
     plain (ExtractedLink.url l) = true) ->
  (forall l l' k, l ∈ rest -> qualifying l = true ->
     l' ∈ rest -> qualifying l' = true ->
     plain (tracking l k) = true /\ dollarFree (tracking l k) = true /\
     tracking l k <> ExtractedLink.url l') ->
  exists content' new clock',
    loop rest linkMap content changes clock
      = Some (content', (changes ++ new)%list, clock') /\
    NoDup (original <$> new) /\
    forall U, U ∈ original <$> new <->
      U ∈ ExtractedLink.url <$> List.filter qualifying rest /\
      occurs (target U) content.
Proof.
  revert content changes clock.
  induction rest as [|link rest IH]; intros content changes clock Hurl Htr.
  - exists content, [], clock. simpl. rewrite app_nil_r.
    split; [done |]. split; [constructor |].
    intros U. rewrite elem_of_nil. tauto.
  - assert (forall l, l ∈ rest -> qualifying l = true ->
              plain (ExtractedLink.url l) = true) as Hurl'.
    { intros l Hl. apply Hurl. by right. }
    assert (forall l l' k, l ∈ rest -> qualifying l = true ->
              l' ∈ rest -> qualifying l' = true ->
              plain (tracking l k) = true /\ dollarFree (tracking l k) = true /\
              tracking l k <> ExtractedLink.url l') as Htr'.
    { intros l l' k Hl Hql Hl' Hql'. apply Htr; [by right | done | by right | done]. }
    destruct (qualifying link) eqn:Hq.
    2:{ rewrite transformFile_loop_skip by done.
        destruct (IH content changes clock Hurl' Htr')
          as (content' & new & clock' & -> & Hnd & Hiff).
        exists content', new, clock'. split; [done |]. split; [done |].
        simpl. by rewrite Hq. }
    rewrite transformFile_loop_qualifying by done. cbv zeta.
    pose proof (Hurl link ltac:(left) Hq) as Hplain.
    destruct (Htr link link clock ltac:(left) Hq ltac:(left) Hq)
      as (HTplain & Hdollar & Hne).
    rewrite replaceAll_tracking by done.
    set (T := tracking link clock) in *.
    set (U := ExtractedLink.url link) in *.
    assert (forall W, W ∈ ExtractedLink.url <$> List.filter qualifying rest ->
              plain W = true /\ W <> T) as Hrest.
    { intros W (l & -> & [Hl Hql]%elem_of_filter_bool)%list_elem_of_fmap.
      split; [by apply Hurl' |].
      destruct (Htr link l clock ltac:(left) Hq ltac:(by right) Hql)
        as (_ & _ & HneW). done. }
    destruct (decide (occurs (target U) content)) as [Hocc|Habs].
    + assert (replaceLiteral (target U) (target T) content <> content) as Halt.
      { apply replaceLiteral_target_altered; [| done].
        intros Heq%target_inj. done. }
      apply String.eqb_neq in Halt. rewrite Halt. simpl negb. cbv iota.
      destruct (IH (replaceLiteral (target U) (target T) content)
                  (changes ++ [ {| original := U;
                      change_slug :=
                        fst (Transformer.findOrGenerateSlug plugins link linkMap clock);
                      trackingUrl := T |} ])%list
                  (snd (Transformer.findOrGenerateSlug plugins link linkMap clock))
                  Hurl' Htr')
        as (content' & new & clock' & -> & Hnd & Hiff).
      eexists content', (_ :: new), clock'. split; [by rewrite <- app_assoc |].
      rewrite fmap_cons. cbn [original]. split.
      * constructor; [| done]. intros [_ Hgone]%Hiff. revert Hgone.
        apply (replaceLiteral_target_gone U T HTplain U _ Hplain); [| done].
        intros Heq. apply Hne. done.
      * intros W. simpl. rewrite Hq, fmap_cons, !elem_of_cons, Hiff.
        fold U. split.
        -- intros [->|[HW Ho]]; [split; [by left | done] |].
           split; [by right |]. destruct (Hrest W HW) as [HWp HWT].
           apply dec_stable. intros Hno. revert Ho.
           by apply (replaceLiteral_target_gone U T HTplain W _ HWp).
        -- intros [[->|HW] Ho]; [by left |].
           destruct (decide (W = U)) as [->|HWU]; [by left |].
           right. split; [done |]. destruct (Hrest W HW) as [HWp HWT].
           by apply replaceLiteral_survives.
    + rewrite replaceLiteral_target_absent by done.
      rewrite String.eqb_refl. simpl negb. cbv iota.
      destruct (IH content changes
                  (snd (Transformer.findOrGenerateSlug plugins link linkMap clock))
                  Hurl' Htr')
        as (content' & new & clock' & -> & Hnd & Hiff).
      exists content', new, clock'. split; [done |]. split; [done |].
      intros W. simpl. rewrite Hq, fmap_cons, elem_of_cons, Hiff. fold U.
      split; [intros [? ?]; split; [by right | done] |].
      intros [[->|HW] Ho]; done.
Qed.

End RewritePass.

(** ** Slug assignment: the claims *)

(** Slug assignment always produces its table. *)
Lemma C1_slug_table_aux `{Platform} (config : LinksmithConfig)
  (plugins : list NetworkPlugin.t) (links : list ExtractedLink.t)
  (clock : Clock) :
  exists m clock',
    Transformer.generateLinkMap config plugins links clock = Some (m, clock') /\
    slugTable links m.
Proof.
  destruct (generateLinkMap_loop_spec config plugins links [] ∅ clock
              consistent_empty) as (m & used' & clock' & Hrun & Hc & Hk).
  exists m, clock'. split; [exact Hrun |].
  destruct Hc as (Hnd & Hns & _). split; [done |]. split; [| done].
  intros u. rewrite Hk. simpl. rewrite elem_of_nil. tauto.
Qed.

(** C1 fails as stated: the guard of slug assignment is the case-sensitive
    test [link.url.startsWith('http')].  A URL written with the scheme in
    upper case is an absolute [https:] URL for [new URL], the scanner counts
    it among the external links, and it gets no entry; a relative file name
    that happens to begin with the letters [http] gets one. *)
Lemma C1_counterexample :
  let config := {| siteUrl := "https://blog.example";
                   tracking_baseUrl := "/link/";
                   networks := ∅ |} in
  let upper :=
    ExtractedLink.mk "HTTPS://a.example/x" "A" "post.md" 1 1 false None None in
  let guide :=
    ExtractedLink.mk "http-guide.md" "Guide" "post.md" 2 1 false None None in
  Reference.u_scheme <$> Reference.parse "HTTPS://a.example/x" = Some "https:" /\
  Reference.parse "http-guide.md" = None /\
  Scan.isExternalLink (H := Reference.platform) config "HTTPS://a.example/x"
  = true /\
  (fun r => Map.keys (fst r)) <$>
    Transformer.generateLinkMap (H := Reference.platform) config []
      [upper; guide] (fun _ => 0%N)
  = Some ["http-guide.md"].
Proof. vm_compute. done. Qed.

(** C1, amended. For every occurrence list, the table built by
    [Transformer.generateLinkMap] is produced (the collision loop always
    ends), has exactly one entry per distinct URL that begins with the four
    lower-case characters [http], and no two of its entries share a slug;
    the list returned by [Reporter.toAffiliateLinks], with or without a
    configuration, is the list of values of such a table. *)
Theorem C1_slug_table `{Platform} (config : LinksmithConfig)
  (plugins : list NetworkPlugin.t) (links : list ExtractedLink.t)
  (clock : Clock) :
  (exists m clock',
     Transformer.generateLinkMap config plugins links clock = Some (m, clock') /\
     slugTable links m) /\
  (forall rconfig, exists byUrl clock',
     Reporter.toAffiliateLinks plugins rconfig links clock
       = Some (Map.values byUrl, clock') /\
     slugTable links byUrl).
Proof.
  pose proof (fun cfg => C1_slug_table_aux cfg plugins links clock) as Hgen.
  split; [apply Hgen |].
  intros rconfig.
  destruct (Hgen (reporterConfig rconfig)) as (m & clock' & Hrun & Htable).
  exists m, clock'. split; [| done].
  unfold Reporter.toAffiliateLinks.
  rewrite toAffiliateLinks_loop_generateLinkMap_loop.
  unfold Transformer.generateLinkMap in Hrun. by rewrite Hrun.
Qed.

(** C2 fails as stated: the label appended to the base slug is not always
    the first label of the host.  The code removes the first [www.] found
    anywhere in the host name and then cuts at the first dot; for the host
    [awww.example.com], whose first label is [awww], the candidate is the
    base slug followed by [-aexample]. *)
Lemma C2_counterexample :
  let config := {| siteUrl := "https://blog.example";
                   tracking_baseUrl := "/link/";
                   networks := ∅ |} in
  let occurrence url :=
    ExtractedLink.mk url "Best Blender" "post.md" 1 1 false None None in
  Reference.u_host <$> Reference.parse "https://awww.example.com/blender"
  = Some "awww.example.com" /\
  hd "" (JS.split "." "awww.example.com") = "awww" /\
  domainOf (H := Reference.platform) <$>
    Reference.parse "https://awww.example.com/blender"
  = Some "aexample" /\
  (fun r => slugsOf (fst r)) <$>
    Transformer.generateLinkMap (H := Reference.platform) config []
      [ occurrence "https://a.example/blender";
        occurrence "https://awww.example.com/blender" ] (fun _ => 0%N)
  = Some ["best-blender"; "best-blender-aexample"].
Proof. vm_compute. done. Qed.

(** C2, amended. When the base slug of an occurrence is already reserved,
    the loop of slug assignment first tries the base slug followed by [-]
    and the host label and takes it if it is free; the host label is the
    text before the first dot of the host name once the first [www.] in it,
    wherever it stands, is removed.  Otherwise, and for a URL that does not
    parse, it takes the first free one of [base-2], [base-3], ... in
    increasing order, [base-2] included; a base slug that is free is taken
    as it is.  The entry of [generateLinkMap] is built with that slug,
    which is then reserved. *)
Theorem C2_collision_resolution `{Platform} (config : LinksmithConfig)
  (plugins : list NetworkPlugin.t) (usedSlugs : gset string)
  (link : ExtractedLink.t) (clock : Clock) :
  let url := ExtractedLink.url link in
  let baseSlug := fst (Transformer.generateSlug plugins link clock) in
  let clock' := snd (Transformer.generateSlug plugins link clock) in
  exists slug,
    uniqueSlug usedSlugs url baseSlug = Some slug /\
    (slug ∉ usedSlugs) /\
    (baseSlug ∉ usedSlugs -> slug = baseSlug) /\
    (baseSlug ∈ usedSlugs ->
     forall parsed, URL_parse url = Some parsed ->
       baseSlug +:+ "-" +:+ domainOf parsed ∉ usedSlugs ->
       slug = baseSlug +:+ "-" +:+ domainOf parsed) /\
    (forall parsed label,
       hostLabel (URL_hostname parsed) label <-> label = domainOf parsed) /\
    (baseSlug ∈ usedSlugs ->
     (forall parsed, URL_parse url = Some parsed ->
        baseSlug +:+ "-" +:+ domainOf parsed ∈ usedSlugs) ->
     exists n, 2 <= n /\ slug = numbered baseSlug n /\
       forall m, 2 <= m < n -> numbered baseSlug m ∈ usedSlugs) /\
    (forall rest map,
       qualifying link = true -> Map.has map url = false ->
       Transformer.generateLinkMap_loop config plugins (link :: rest) map
         usedSlugs clock =
       Transformer.generateLinkMap_loop config plugins rest
         (Map.set map url (Transformer.entryOf config plugins link slug))
         ({[ slug ]} ∪ usedSlugs) clock').
Proof.
  intros url baseSlug clock'.
  destruct (uniqueSlug_total usedSlugs url baseSlug) as [slug Hslug].
  exists slug. split; [done |].
  split; [by eapply uniqueSlug_fresh |].
  pose proof Hslug as Hrun. unfold uniqueSlug in Hrun.
  cbn [uniqueSlug_loop] in Hrun.
  split; [| split; [| split; [| split]]].
  - intros Hfree. rewrite bool_decide_eq_false_2 in Hrun by done.
    by injection Hrun.
  - intros Hin parsed Hp Hd.
    rewrite bool_decide_eq_true_2, Hp, bool_decide_eq_false_2 in Hrun by done.
    simpl in Hrun. by injection Hrun.
  - intros parsed label. apply domainOf_hostLabel.
  - intros Hin Hdom. rewrite bool_decide_eq_true_2 in Hrun by done.
    assert (uniqueSlug_loop (size usedSlugs) usedSlugs url baseSlug
              (numbered baseSlug 2) 2 = Some slug) as Hnum.
    { destruct (URL_parse url) as [parsed|] eqn:Hp; [| done].
      rewrite bool_decide_eq_true_2 in Hrun by by apply Hdom. done. }
    apply uniqueSlug_loop_numeric in Hnum as (n & Hn & -> & Hbelow); [| done].
    exists n. split; [lia |]. split; [done |].
    intros m Hm. apply Hbelow. lia.
  - intros rest map Hq Hhas. cbn [Transformer.generateLinkMap_loop].
    unfold qualifying in Hq. subst url baseSlug clock'.
    rewrite Hq, Hhas. simpl.
    destruct (Transformer.generateSlug plugins link clock) as [b c].
    simpl in *. by rewrite Hslug.
Qed.

(** The base slug is independent of the clock unless it is one of the two
    fallback tokens. *)
Lemma generateSlug_text_clockIndependent `{Platform}
  (plugins : list NetworkPlugin.t) (link : ExtractedLink.t) :
  Transformer.pluginOf plugins link = None ->
  JS.truthy (ExtractedLink.text link)
  && negb (String.eqb (ExtractedLink.text link) (ExtractedLink.url link)) = true ->
  clockIndependent plugins link.
Proof.
  intros Hp Ht c1 c2. unfold Transformer.generateSlug. by rewrite Hp, Ht.
Qed.

Lemma generateSlug_parsed_clockIndependent `{Platform}
  (plugins : list NetworkPlugin.t) (link : ExtractedLink.t) :
  Transformer.pluginOf plugins link = None ->
  is_Some (URL_parse (ExtractedLink.url link)) ->
  clockIndependent plugins link.
Proof.
  intros Hp [parsed Hu] c1 c2. unfold Transformer.generateSlug.
  rewrite Hp, Hu. by destruct (_ && _).
Qed.

Lemma generateSlug_amazon_clockIndependent `{Platform}
  (plugins : list NetworkPlugin.t) (link : ExtractedLink.t) :
  Transformer.pluginOf plugins link = Some AmazonPlugin.plugin ->
  JS.truthy (ExtractedLink.text link)
  && negb (String.eqb (ExtractedLink.text link) (ExtractedLink.url link)) = true
  \/ is_Some (AmazonPlugin.extractProductId (ExtractedLink.url link)) ->
  clockIndependent plugins link.
Proof.
  intros Hp Hok c1 c2. unfold Transformer.generateSlug. rewrite Hp.
  cbn [NetworkPlugin.generateSlug AmazonPlugin.plugin].
  unfold AmazonPlugin.generateSlug.
  destruct (_ && _); [done |].
  destruct Hok as [|[asin Ha]]; [done |]. by rewrite Ha.
Qed.

(** The slug of an occurrence that reaches the generic fallback is the
    clock reading in base 36. *)
Lemma generateSlug_fallback `{Platform}
  (plugins : list NetworkPlugin.t) (link : ExtractedLink.t) (clock : Clock) :
  Transformer.pluginOf plugins link = None ->
  JS.truthy (ExtractedLink.text link)
  && negb (String.eqb (ExtractedLink.text link) (ExtractedLink.url link)) = false ->
  URL_parse (ExtractedLink.url link) = None ->
  Transformer.generateSlug plugins link clock
  = ("link-" +:+ JS.toString36 (clock 0), fun n => clock (S n)).
Proof.
  intros Hp Ht Hu. unfold Transformer.generateSlug. by rewrite Hp, Ht, Hu.
Qed.

(** The example of the specification: two occurrences with the text
    Best Blender and different URLs; the second one gets the host label,
    a third one on the same host the first free number. *)
Example best_blender_collision :
  let config := {| siteUrl := "http://localhost:3000";
                   tracking_baseUrl := "/link/";
                   networks := ∅ |} in
  let occurrence url :=
    ExtractedLink.mk url "Best Blender" "post.md" 1 1 false None None in
  (fun r => slugsOf (fst r)) <$>
    Transformer.generateLinkMap (H := Reference.platform) config []
      [ occurrence "https://a.example/blender";
        occurrence "https://www.shop.example/blender";
        occurrence "https://shop.example/other" ] (fun _ => 0%N)
  = Some ["best-blender"; "best-blender-shop"; "best-blender-2"].
Proof. done. Qed.

(** C3 fails as stated: the base slug of an Amazon short link whose text is
    its URL is built from [Date.now()], so two runs on the same list at
    different times give different slugs. *)
Lemma C3_counterexample :
  let config := {| siteUrl := "http://localhost:3000";
                   tracking_baseUrl := "/link/";
                   networks := ∅ |} in
  let plugins := [AmazonPlugin.plugin (H := Reference.platform)] in
  let link :=
    ExtractedLink.mk "https://amzn.to/3abcDEF" "https://amzn.to/3abcDEF"
      "post.md" 3 1 true (Some "amazon") None in
  let run (now : N) :=
    (fun r => slugsOf (fst r)) <$>
      Transformer.generateLinkMap (H := Reference.platform) config plugins
        [link] (fun _ => now) in
  run 1700000000000%N = Some ["amazon-product-loyw3v28"] /\
  run 1700000000001%N = Some ["amazon-product-loyw3v29"] /\
  run 1700000000000%N <> run 1700000000001%N.
Proof. vm_compute. split; [done |]. split; [done |]. discriminate. Qed.

(** C3, amended. When the base slug of no qualifying occurrence depends on
    the clock, two runs of slug assignment on the same list in the same
    order build the same table, whatever the clock reads in either run. *)
Theorem C3_deterministic_slugs `{Platform} (config : LinksmithConfig)
  (plugins : list NetworkPlugin.t) (links : list ExtractedLink.t)
  (c1 c2 : Clock) :
  (forall l, l ∈ links -> qualifying l = true -> clockIndependent plugins l) ->
  fst <$> Transformer.generateLinkMap config plugins links c1 =
  fst <$> Transformer.generateLinkMap config plugins links c2.
Proof.
  unfold Transformer.generateLinkMap.
  generalize (@nil (string * AffiliateLink.t)) (∅ : gset string).
  revert c1 c2.
  induction links as [|link rest IH]; intros c1 c2 map usedSlugs Hfree;
    [done |].
  assert (forall l, l ∈ rest -> qualifying l = true ->
            clockIndependent plugins l) as Hrest.
  { intros l Hl. apply Hfree. by right. }
  cbn [Transformer.generateLinkMap_loop].
  destruct (JS.startsWith _ _) eqn:Hq; simpl; [| by apply IH].
  destruct (Map.has _ _); [by apply IH |].
  pose proof (Hfree link ltac:(left) Hq c1 c2) as Hslug.
  destruct (Transformer.generateSlug plugins link c1) as [b1 c1'].
  destruct (Transformer.generateSlug plugins link c2) as [b2 c2'].
  simpl in Hslug. subst b2.
  destruct (uniqueSlug _ _ _); [by apply IH | done].
Qed.

Lemma NoDup_fmap_eq {A B} (f : A -> B) (l : list A) (x y : A) :
  NoDup (f <$> l) -> x ∈ l -> y ∈ l -> f x = f y -> x = y.
Proof.
  induction l as [|a l IH]; simpl.
  - intros _ Hx. by apply elem_of_nil in Hx.
  - intros [Ha Hnd]%NoDup_cons [->|Hx]%elem_of_cons [->|Hy]%elem_of_cons Heq.
    + done.
    + exfalso. apply Ha. rewrite Heq. by apply list_elem_of_fmap_2.
    + exfalso. apply Ha. rewrite <- Heq. by apply list_elem_of_fmap_2.
    + by apply IH.
Qed.



Lemma keyedBySlug_keys m :
  keyedBySlug m -> Map.keys m = AffiliateLink.slug <$> Map.values m.
Proof.
  induction m as [|[k v] m IH]; intros Hk; simpl; [done |].
  rewrite (Hk k v) by left. f_equal. apply IH.
  intros k' v' Hin. apply Hk. by right.
Qed.

Lemma lastBySlug_NoDup ls r :
  NoDup (AffiliateLink.slug <$> ls) -> r ∈ ls ->
  lastBySlug (AffiliateLink.slug r) ls = Some r.
Proof.
  intros Hnd Hin.
  destruct (lastBySlug (AffiliateLink.slug r) ls) as [r'|] eqn:E.
  - apply lastBySlug_Some in E as [Hin' Hs]. f_equal.
    by eapply NoDup_fmap_eq.
  - apply lastBySlug_None in E. exfalso. apply E.
    by apply list_elem_of_fmap_2.
Qed.

(** ** The flat-file store: the claims *)

(** C9. After a sync upsert, that is an upsert of the records of the table
    that slug assignment has just computed, the persisted record of every
    slug of the table is the newly computed record as a whole, whatever the
    store held for that slug before, and it is the only record with that
    slug. *)
Theorem C9_upsert_new_wins `{Platform} (config : LinksmithConfig)
  (plugins : list NetworkPlugin.t) (links : list ExtractedLink.t)
  (clock clock' : Clock) (m : Map.t AffiliateLink.t)
  (file : FileSystemAdapter.File) (r : AffiliateLink.t) :
  Transformer.generateLinkMap config plugins links clock = Some (m, clock') ->
  r ∈ Map.values m ->
  let store := FileSystemAdapter.upsertLinks file (Map.values m) in
  FileSystemAdapter.getLinkBySlug store (AffiliateLink.slug r) = Some r /\
  forall r', r' ∈ FileSystemAdapter.getLinks store ->
    AffiliateLink.slug r' = AffiliateLink.slug r -> r' = r.
Proof.
  intros Hrun Hin store.
  destruct (C1_slug_table_aux config plugins links clock)
    as (m0 & c0 & Hrun0 & _ & _ & Hnd).
  rewrite Hrun in Hrun0. injection Hrun0 as <- <-.
  assert (forall r', r' ∈ Map.values m ->
            AffiliateLink.slug r' = AffiliateLink.slug r -> r' = r) as Huniq.
  { intros r' Hin' Hs. by eapply NoDup_fmap_eq. }
  split; [by apply upsertLinks_new_wins |].
  subst store.
  destruct (upsertLinks_merged file (Map.values m))
    as (merged & -> & Hk & Hndk & Hget).
  simpl. intros r' Hr' Hs.
  apply (keyedBySlug_values _ _ Hk Hndk) in Hr'.
  rewrite Hs, Hget in Hr'.
  destruct (lastBySlug (AffiliateLink.slug r) (Map.values m)) as [r''|] eqn:E.
  - injection Hr' as ->. apply lastBySlug_Some in E as [Hin' Hs'].
    by apply Huniq.
  - apply lastBySlug_None in E. exfalso. apply E.
    by apply list_elem_of_fmap_2.
Qed.

(** Of two records of the old file that share a slug, the merge keeps the
    later one, whatever the batch. *)
Example upsert_duplicate_slug_in_file :
  let r1 := AffiliateLink.mk "best-blender" "Best Blender"
              "https://a.example/blender" false None None in
  let r2 := AffiliateLink.mk "best-blender" "Best Blender"
              "https://b.example/blender" false None None in
  let other := AffiliateLink.mk "mixer" "Mixer" "https://c.example/mixer"
                 false None None in
  FileSystemAdapter.upsertLinks (Some [r1; r2]) [other] = Some [r2; other].
Proof. done. Qed.

(** C10 fails as stated: of two records of the batch that share a slug only
    the later one is stored, so the store afterwards does not hold the
    whole batch. *)
Lemma C10_counterexample :
  let r1 := AffiliateLink.mk "best-blender" "Best Blender"
              "https://a.example/blender" false None None in
  let r2 := AffiliateLink.mk "best-blender" "Best Blender"
              "https://b.example/blender" false None None in
  let batch := [r1; r2] in
  FileSystemAdapter.getLinks (FileSystemAdapter.upsertLinks None batch) = [r2] /\
  r1 ∈ batch /\
  r1 ∉ FileSystemAdapter.getLinks (FileSystemAdapter.upsertLinks None batch).
Proof.
  split; [done |]. split; [left |].
  intros [[=]|Hin%elem_of_nil]%elem_of_cons. done.
Qed.

(** C10, amended. The store written by [upsertLinks] holds one record per
    slug: a record is in it exactly when it is the last record of the batch
    with its slug, or its slug is not in the batch and it is the last
    record of the old file with its slug.  So when the slugs of the old
    file are distinct, every old record whose slug is not in the batch is
    still there, unchanged. *)
Theorem C10_upsert_frame (file : FileSystemAdapter.File)
  (links : list AffiliateLink.t) :
  let store := FileSystemAdapter.getLinks (FileSystemAdapter.upsertLinks file links) in
  NoDup (AffiliateLink.slug <$> store) /\
  (forall r, r ∈ store <->
     lastBySlug (AffiliateLink.slug r) links = Some r \/
     ((AffiliateLink.slug r ∉ AffiliateLink.slug <$> links) /\
      lastBySlug (AffiliateLink.slug r) (FileSystemAdapter.getLinks file)
        = Some r)) /\
  (NoDup (AffiliateLink.slug <$> FileSystemAdapter.getLinks file) ->
   forall r, r ∈ FileSystemAdapter.getLinks file ->
     AffiliateLink.slug r ∉ AffiliateLink.slug <$> links -> r ∈ store).
Proof.
  intros store. subst store.
  destruct (upsertLinks_merged file links) as (m & -> & Hk & Hnd & Hget).
  simpl.
  assert (forall r, r ∈ Map.values m <->
     lastBySlug (AffiliateLink.slug r) links = Some r \/
     ((AffiliateLink.slug r ∉ AffiliateLink.slug <$> links) /\
      lastBySlug (AffiliateLink.slug r) (FileSystemAdapter.getLinks file)
        = Some r)) as Hiff.
  { intros r. rewrite (keyedBySlug_values _ _ Hk Hnd), Hget.
    destruct (lastBySlug (AffiliateLink.slug r) links) as [r'|] eqn:E.
    - split; [by left |]. intros [?|[Hnin _]]; [done |].
      exfalso. by apply lastBySlug_None in Hnin; congruence.
    - apply lastBySlug_None in E. split; [by right |].
      intros [?|[_ ?]]; done. }
  split; [by rewrite <- keyedBySlug_keys |]. split; [done |].
  intros Hnd0 r Hin Hnin. apply Hiff. right. split; [done |].
  by apply lastBySlug_NoDup.
Qed.

(** ** The rewrite pass: the claims *)

(** C5 fails as stated: a change is recorded only when the text changes, so
    an external URL in markdown-link form whose tracking URL is the URL
    itself (the tracking base is an absolute URL and the document already
    links through it) yields no change entry: one external URL, zero
    changes. *)
Lemma C5_counterexample :
  let config := {| siteUrl := "http://localhost:3000";
                   tracking_baseUrl := "https://go.example.com/";
                   networks := ∅ |} in
  let url := "https://go.example.com/best-blender" in
  let content := "[Best Blender](https://go.example.com/best-blender)" in
  let link := ExtractedLink.mk url "Best Blender" "post.md" 1 1 false None None in
  let linkMap :=
    [(url, AffiliateLink.mk "best-blender" "Best Blender" url false None None)] in
  occurs (target url) content /\
  fst <$> Transformer.generateLinkMap (H := Reference.platform) config []
            [link] (fun _ => 0%N)
  = Some linkMap /\
  fst <$> Transformer.transformFile (H := Reference.platform) config []
            "post.md" content [link] linkMap (fun _ => 0%N)
  = Some {| result_file := "post.md";
            originalContent := content;
            transformedContent := content;
            linksTransformed := 0;
            changes := [] |}.
Proof. split; [by apply occurs_includes | done]. Qed.

(** The guard of the rewrite pass is [startsWith('http')]: a relative link
    whose path begins with these four letters is rewritten. *)
Example relative_link_with_http_prefix :
  let config := {| siteUrl := "http://localhost:3000";
                   tracking_baseUrl := "/link/";
                   networks := ∅ |} in
  let link :=
    ExtractedLink.mk "http-guide.md" "Guide" "post.md" 1 1 false None None in
  let linkMap :=
    [("http-guide.md",
      AffiliateLink.mk "guide" "Guide" "http-guide.md" false None None)] in
  (fun r => (transformedContent r, linksTransformed r)) <$>
    (fst <$> Transformer.transformFile (H := Reference.platform) config []
               "post.md" "[Guide](http-guide.md)" [link] linkMap (fun _ => 0%N))
  = Some ("[Guide](/link/guide)", 1).
Proof. done. Qed.

(** C5, amended. Take a document and its occurrences such that the
    occurrences whose URL begins with the letters http carry pairwise
    distinct URLs without closing square bracket or closing parenthesis,
    each present in the document as a markdown link target, and such that
    the tracking URL of each has no dollar sign and is not the URL itself.
    Then the rewrite produces exactly one change entry per such occurrence,
    in the order of the descending sort; and around every markdown link
    target of the document whose URL does not begin with http (and has no
    closing square bracket or parenthesis) the text is rewritten on either
    side separately, the link itself staying byte for byte.  Whatever the
    document, the occurrences whose URL does not begin with http have no
    effect on the result. *)
Theorem C5_rewrite_distinct_urls `{Platform} (config : LinksmithConfig)
  (plugins : list NetworkPlugin.t) (filePath content : string)
  (links : list ExtractedLink.t) (linkMap : Map.t AffiliateLink.t)
  (clock : Clock) :
  NoDup (ExtractedLink.url <$> List.filter qualifying links) ->
  (forall l, l ∈ List.filter qualifying links ->
     plain (ExtractedLink.url l) = true /\
     occurs (target (ExtractedLink.url l)) content) ->
  (forall l k, l ∈ List.filter qualifying links ->
     dollarFree (trackingUrlOf config plugins linkMap l k) = true /\
     trackingUrlOf config plugins linkMap l k <> ExtractedLink.url l) ->
  exists r clock',
    Transformer.transformFile config plugins filePath content links linkMap clock
      = Some (r, clock') /\
    length (changes r) = length (List.filter qualifying links) /\
    original <$> changes r
      = ExtractedLink.url <$> List.filter qualifying (Transformer.sortLinks links) /\
    (forall v a b,
      plain v = true -> JS.startsWith v "http" = false ->
      content = a +:+ target v +:+ b ->
      exists ra rb ca cb,
        Transformer.transformFile config plugins filePath a links linkMap clock
          = Some (ra, ca) /\
        Transformer.transformFile config plugins filePath b links linkMap clock
          = Some (rb, cb) /\
        transformedContent r
          = transformedContent ra +:+ target v +:+ transformedContent rb) /\
    Transformer.transformFile config plugins filePath content links linkMap clock
    = Transformer.transformFile config plugins filePath content
        (List.filter qualifying links) linkMap clock.
Proof.
  intros Hnd Hurl Htr.
  pose proof (sortLinks_Permutation links) as Hperm.
  pose proof (filter_Permutation_bool qualifying _ _ Hperm) as Hpermf.
  assert (forall l, l ∈ Transformer.sortLinks links -> qualifying l = true ->
            l ∈ List.filter qualifying links) as Hin.
  { intros l Hl Hq. apply elem_of_filter_bool. by rewrite <- Hperm. }
  destruct (transformFile_loop_distinct config plugins linkMap
              (Transformer.sortLinks links) content [] clock)
    as (content' & new & clock' & Hrun & Hnew).
  { by rewrite Hpermf. }
  { intros l Hl Hq. by apply Hurl, Hin. }
  { intros l k Hl Hq. by apply Htr, Hin. }
  rewrite <- transformFile_filter.
  unfold Transformer.transformFile. rewrite Hrun.
  eexists _, clock'. split; [done |]. cbn [changes transformedContent].
  rewrite app_nil_l.
  split; [| split; [done |]]; [| split; [| done]].
  - rewrite <- (length_fmap original), Hnew, length_fmap.
    by apply Permutation_length.
  - intros v a b Hv Hint ->.
    destruct (transformFile_loop_barrier config plugins linkMap
                (Transformer.sortLinks links) v a b [] [] [] clock Hv Hint)
      as (a' & b' & x & y & z & clock2 & Hab & Ha & Hb).
    { intros l Hl Hq. by apply Hurl, Hin. }
    { intros l k Hl Hq. by apply Htr, Hin. }
    rewrite Ha, Hb. rewrite Hrun in Hab. injection Hab as -> _ _.
    by eexists _, _, _, _.
Qed.

(** C6 fails as stated: the substitution made for an occurrence replaces
    every markdown link target with its URL at once, so a URL that occurs,
    and is rewritten, at two positions of a file contributes one change
    entry. *)
Lemma C6_counterexample :
  let config := {| siteUrl := "http://localhost:3000";
                   tracking_baseUrl := "/link/";
                   networks := ∅ |} in
  let url := "https://a.example/blender" in
  let content :=
    "[first](https://a.example/blender) and [second](https://a.example/blender)" in
  let links :=
    [ ExtractedLink.mk url "first" "post.md" 1 1 false None None;
      ExtractedLink.mk url "second" "post.md" 1 40 false None None ] in
  let linkMap :=
    [(url, AffiliateLink.mk "first" "first" url false None None)] in
  fst <$> Transformer.generateLinkMap (H := Reference.platform) config []
            links (fun _ => 0%N)
  = Some linkMap /\
  fst <$> Transformer.transformFile (H := Reference.platform) config []
            "post.md" content links linkMap (fun _ => 0%N)
  = Some {| result_file := "post.md";
            originalContent := content;
            transformedContent := "[first](/link/first) and [second](/link/first)";
            linksTransformed := 1;
            changes := [ {| original := url; change_slug := "first";
                            trackingUrl := "/link/first" |} ] |}.
Proof. done. Qed.

(** C6, amended. When the URLs that begin with http have no closing
    square bracket or closing parenthesis, and the tracking URLs have none
    either, have no dollar sign and are none of these URLs, the change list
    has exactly one entry for every such URL that is present in the
    document as a markdown link target, however many occurrences of the
    list carry it, and no other entry. *)
Theorem C6_one_change_per_url `{Platform} (config : LinksmithConfig)
  (plugins : list NetworkPlugin.t) (filePath content : string)
  (links : list ExtractedLink.t) (linkMap : Map.t AffiliateLink.t)
  (clock : Clock) :
  (forall l, l ∈ List.filter qualifying links ->
     plain (ExtractedLink.url l) = true) ->
  (forall l l' k,
     l ∈ List.filter qualifying links -> l' ∈ List.filter qualifying links ->
     plain (trackingUrlOf config plugins linkMap l k) = true /\
     dollarFree (trackingUrlOf config plugins linkMap l k) = true /\
     trackingUrlOf config plugins linkMap l k <> ExtractedLink.url l') ->
  exists r clock',
    Transformer.transformFile config plugins filePath content links linkMap clock
      = Some (r, clock') /\
    NoDup (original <$> changes r) /\
    forall U, U ∈ original <$> changes r <->
      U ∈ ExtractedLink.url <$> List.filter qualifying links /\
      occurs (target U) content.
Proof.
  intros Hurl Htr.
  pose proof (sortLinks_Permutation links) as Hperm.
  pose proof (filter_Permutation_bool qualifying _ _ Hperm) as Hpermf.
  assert (forall l, l ∈ Transformer.sortLinks links -> qualifying l = true ->
            l ∈ List.filter qualifying links) as Hin.
  { intros l Hl Hq. apply elem_of_filter_bool. by rewrite <- Hperm. }
  destruct (transformFile_loop_once config plugins linkMap
              (Transformer.sortLinks links) content [] clock)
    as (content' & new & clock' & Hrun & Hnd & Hiff).
  { intros l Hl Hq. by apply Hurl, Hin. }
  { intros l l' k Hl Hq Hl' Hq'. apply Htr; by apply Hin. }
  unfold Transformer.transformFile. rewrite Hrun.
  eexists _, clock'. split; [done |]. cbn [changes]. rewrite app_nil_l.
  split; [done |].
  intros U. rewrite Hiff. by rewrite Hpermf.
Qed.

(** C7. The rewrite pass never fails.  Its change list holds, in the order
    the substitutions are made, the entry (original URL, slug, tracking
    URL) of exactly those substitutions that altered the text; a
    substitution whose pattern occurs nowhere in the current text leaves
    the text as it is and is not recorded; the reported count is the length
    of the change list. *)
Theorem C7_changes_record_alterations `{Platform} (config : LinksmithConfig)
  (plugins : list NetworkPlugin.t) (filePath content : string)
  (links : list ExtractedLink.t) (linkMap : Map.t AffiliateLink.t)
  (clock : Clock) :
  let steps :=
    rewriteSteps config plugins (Transformer.sortLinks links) linkMap
      content clock in
  exists r clock',
    Transformer.transformFile config plugins filePath content links linkMap clock
      = Some (r, clock') /\
    changes r = changeOf config <$> List.filter altered steps /\
    linksTransformed r = length (changes r) /\
    transformedContent r = default content (last (step_after <$> steps)) /\
    forall s, s ∈ steps ->
      ~ occurs (target (ExtractedLink.url (step_link s))) (step_before s) ->
      step_after s = step_before s /\ altered s = false.
Proof.
  intros steps.
  destruct (transformFile_loop_steps config plugins linkMap
              (Transformer.sortLinks links) content [] clock) as [clock' Hrun].
  unfold Transformer.transformFile. rewrite Hrun.
  eexists _, clock'. split; [done |]. simpl.
  split; [done |]. split; [done |]. split; [done |].
  intros s Hs Habs.
  apply rewriteSteps_elem in Hs as (_ & _ & Hafter).
  rewrite replaceAll_absent in Hafter by done.
  split; [done |]. unfold altered. by rewrite Hafter, String.eqb_refl.
Qed.

(** ** The Amazon plugin: the claim *)

(** C8. On a platform whose URL parser, when it accepts the URL of the
    example, reports the host name [www.amazon.com], the Amazon plugin
    converts the URL with the tag [donkitchencom-20] to
    [https://www.amazon.com/dp/B000A6PPOK?tag=donkitchencom-20]; so does the
    converter when the Amazon network is enabled with that tag. *)
Theorem C8_amazon_convert_example `{Platform} (config : LinksmithConfig)
  (networkConfig : NetworkConfig) (link : ExtractedLink.t) :
  let url :=
    "https://www.amazon.com/gp/product/B000A6PPOK/ref=as_li_ss_tl?camp=1789&creative=390957&tag=donkitchencom-20" in
  let expected := "https://www.amazon.com/dp/B000A6PPOK?tag=donkitchencom-20" in
  (forall parsed, URL_parse url = Some parsed ->
     URL_hostname parsed = "www.amazon.com") ->
  ExtractedLink.url link = url ->
  ExtractedLink.network link = Some "amazon" ->
  networks config !! "amazon" = Some networkConfig ->
  enabled networkConfig = true ->
  network_tag networkConfig = Some "donkitchencom-20" ->
  (forall cleanParams,
     AmazonPlugin.convert url
       {| tag := Some "donkitchencom-20"; cleanParams := cleanParams |}
     = expected) /\
  converted <$> Converter.convert config [AmazonPlugin.plugin] link
    = Some expected /\
  Transformer.finalUrl config [AmazonPlugin.plugin] link = expected.
Proof.
  intros url expected Hhost Hurl Hnet Hcfg Hen Htag.
  assert (forall cleanParams,
     AmazonPlugin.convert url
       {| tag := Some "donkitchencom-20"; cleanParams := cleanParams |}
     = expected) as Hconv.
  { intros cp. unfold AmazonPlugin.convert.
    change (AmazonPlugin.extractProductId url) with (Some "B000A6PPOK").
    cbn [tag JS.truthy_opt default]. unfold AmazonPlugin.extractDomain.
    destruct (URL_parse url) as [parsed|] eqn:Hp; [| done].
    by rewrite (Hhost parsed eq_refl). }
  split; [done |].
  assert (converted <$> Converter.convert config [AmazonPlugin.plugin] link
          = Some expected) as Hc.
  { unfold Converter.convert, Converter.getNetworkConfig.
    rewrite Hnet. simpl. rewrite Hcfg, Hen, Htag, Hurl. simpl.
    f_equal. apply Hconv. }
  split; [done |].
  rewrite finalUrl_convert.
  destruct (Converter.convert config [AmazonPlugin.plugin] link); [| done].
  by injection Hc.
Qed.

(** ** The claims at concrete inputs *)

Ltac elem_cases H :=
  repeat (apply elem_of_cons in H as [->|H]);
  try (apply elem_of_nil in H; destruct H).

(** C3, amended, at a list of three occurrences none of which falls back
    to the clock: two runs at different times give the same table. *)
Lemma C3_witness :
  let config := {| siteUrl := "http://localhost:3000";
                   tracking_baseUrl := "/link/";
                   networks := ∅ |} in
  let plugins := [AmazonPlugin.plugin (H := Reference.platform)] in
  let links :=
    [ ExtractedLink.mk "https://a.example/blender" "Best Blender" "post.md"
        1 1 false None None;
      ExtractedLink.mk "https://www.amazon.com/dp/B000A6PPOK"
        "https://www.amazon.com/dp/B000A6PPOK" "post.md" 2 1 true
        (Some "amazon") None;
      ExtractedLink.mk "https://b.example/mixer" "https://b.example/mixer"
        "post.md" 3 1 false None None ] in
  fst <$> Transformer.generateLinkMap (H := Reference.platform) config plugins
            links (fun _ => 1700000000000%N)
  = fst <$> Transformer.generateLinkMap (H := Reference.platform) config plugins
              links (fun _ => 1700000000001%N).
Proof.
  intros config plugins links.
  apply (C3_deterministic_slugs (H := Reference.platform) config plugins links).
  intros l Hl _. unfold links in Hl. elem_cases Hl; intros k1 k2; reflexivity.
Defined.


(** C5, amended, at a document with two external links and one internal
    link: two change entries, the internal link untouched. *)
Lemma C5_witness :
  let config := {| siteUrl := "http://localhost:3000";
                   tracking_baseUrl := "/link/";
                   networks := ∅ |} in
  let content :=
    "[Blender](https://a.example/blender), [Mixer](https://b.example/mixer) and [About](/about)" in
  let links :=
    [ ExtractedLink.mk "https://a.example/blender" "Blender" "post.md" 1 1
        false None None;
      ExtractedLink.mk "https://b.example/mixer" "Mixer" "post.md" 1 39
        false None None;
      ExtractedLink.mk "/about" "About" "post.md" 1 76 false None None ] in
  let linkMap :=
    [ ("https://a.example/blender",
       AffiliateLink.mk "blender" "Blender" "https://a.example/blender"
         false None None);
      ("https://b.example/mixer",
       AffiliateLink.mk "mixer" "Mixer" "https://b.example/mixer"
         false None None) ] in
  exists r clock',
    Transformer.transformFile (H := Reference.platform) config [] "post.md"
      content links linkMap (fun _ => 0%N) = Some (r, clock') /\
    length (changes r) = 2 /\
    transformedContent r
    = "[Blender](/link/blender), [Mixer](/link/mixer) and [About](/about)".
Proof.
  intros config content links linkMap.
  destruct (C5_rewrite_distinct_urls (H := Reference.platform) config []
              "post.md" content links linkMap (fun _ => 0%N))
    as (r & clock' & Hrun & Hlen & _ & _ & _).
  - compute_done.
  - intros l Hl. vm_compute in Hl. elem_cases Hl;
      (split; [reflexivity | apply occurs_includes; reflexivity]).
  - intros l k Hl. vm_compute in Hl. elem_cases Hl;
      (split; [reflexivity | discriminate]).
  - exists r, clock'. split; [exact Hrun |]. split; [exact Hlen |].
    vm_compute in Hrun. injection Hrun as <- _. reflexivity.
Defined.

(** C6, amended, at a document that links the same URL twice: the URL
    has one change entry. *)
Lemma C6_witness :
  let config := {| siteUrl := "http://localhost:3000";
                   tracking_baseUrl := "/link/";
                   networks := ∅ |} in
  let url := "https://a.example/blender" in
  let content :=
    "[first](https://a.example/blender) and [second](https://a.example/blender)" in
  let links :=
    [ ExtractedLink.mk url "first" "post.md" 1 1 false None None;
      ExtractedLink.mk url "second" "post.md" 1 40 false None None ] in
  let linkMap :=
    [(url, AffiliateLink.mk "first" "first" url false None None)] in
  exists r clock',
    Transformer.transformFile (H := Reference.platform) config [] "post.md"
      content links linkMap (fun _ => 0%N) = Some (r, clock') /\
    NoDup (original <$> changes r) /\
    (url ∈ original <$> changes r).
Proof.
  intros config url content links linkMap.
  destruct (C6_one_change_per_url (H := Reference.platform) config []
              "post.md" content links linkMap (fun _ => 0%N))
    as (r & clock' & Hrun & Hnd & Hiff).
  - intros l Hl. vm_compute in Hl. elem_cases Hl; reflexivity.
  - intros l l' k Hl Hl'. vm_compute in Hl, Hl'.
    elem_cases Hl; elem_cases Hl';
      (split; [reflexivity | split; [reflexivity | discriminate]]).
  - exists r, clock'. split; [exact Hrun |]. split; [exact Hnd |].
    apply Hiff. split; [left | apply occurs_includes; reflexivity].
Defined.

(** C8 on the reference platform. *)
Lemma C8_witness :
  let url :=
    "https://www.amazon.com/gp/product/B000A6PPOK/ref=as_li_ss_tl?camp=1789&creative=390957&tag=donkitchencom-20" in
  let networkConfig :=
    {| enabled := true; network_tag := Some "donkitchencom-20";
       network_cleanParams := Some true |} in
  let config := {| siteUrl := "http://localhost:3000";
                   tracking_baseUrl := "/link/";
                   networks := {[ "amazon" := networkConfig ]} |} in
  let link :=
    ExtractedLink.mk url "Blender" "post.md" 1 1 true (Some "amazon") None in
  AmazonPlugin.convert (H := Reference.platform) url
    {| tag := Some "donkitchencom-20"; cleanParams := Some true |}
  = "https://www.amazon.com/dp/B000A6PPOK?tag=donkitchencom-20".
Proof.
  intros url networkConfig config link.
  destruct (C8_amazon_convert_example (H := Reference.platform) config
              networkConfig link) as (Hconv & _ & _).
  - intros parsed Hp. vm_compute in Hp. injection Hp as <-. reflexivity.
  - reflexivity.
  - reflexivity.
  - reflexivity.
  - reflexivity.
  - reflexivity.
  - apply Hconv.
Defined.

(** C9 at the example of the specification: the stored URL of
    best-blender is the new one. *)
Lemma C9_witness :
  let config := {| siteUrl := "http://localhost:3000";
                   tracking_baseUrl := "/link/";
                   networks := ∅ |} in
  let links :=
    [ ExtractedLink.mk "https://b.example/blender" "Best Blender" "post.md"
        1 1 false None None ] in
  let old := AffiliateLink.mk "best-blender" "Best Blender"
               "https://a.example/blender" false None None in
  let new := AffiliateLink.mk "best-blender" "Best Blender"
               "https://b.example/blender" false None None in
  FileSystemAdapter.getLinkBySlug
    (FileSystemAdapter.upsertLinks (Some [old]) [new]) "best-blender"
  = Some new.
Proof.
  intros config links old new.
  apply (C9_upsert_new_wins (H := Reference.platform) config [] links
           (fun _ => 0%N) (fun _ => 0%N)
           [("https://b.example/blender", new)] (Some [old]) new).
  - reflexivity.
  - left.
Defined.

(** ** The flat-file store: further properties *)

Lemma of_entries_fold (ls : list AffiliateLink.t) (m : Map.t AffiliateLink.t) :
  fold_left (fun m e => Map.set m (fst e) (snd e))
    (map (fun l => (AffiliateLink.slug l, l)) ls) m
  = fold_left upsertStep ls m.
Proof.
  revert m. induction ls as [|l ls IH]; intros m; [done|].
  cbn [map fold_left]. apply IH.
Qed.

Lemma upsertLinks_fold file links :
  FileSystemAdapter.upsertLinks file links =
  Some (Map.values
          (fold_left upsertStep (FileSystemAdapter.getLinks file ++ links) [])).
Proof.
  unfold FileSystemAdapter.upsertLinks, Map.of_entries.
  rewrite of_entries_fold, fold_left_app. reflexivity.
Qed.

(** A map whose records sit under their own slugs is rebuilt from its
    records. *)
Lemma upsertStep_fold_values (m2 m1 : Map.t AffiliateLink.t) :
  keyedBySlug m2 -> NoDup (Map.keys (m1 ++ m2)%list) ->
  fold_left upsertStep (Map.values m2) m1 = (m1 ++ m2)%list.
Proof.
  revert m1. induction m2 as [|[k v] m2 IH]; intros m1 Hk Hnd.
  - by rewrite app_nil_r.
  - cbn [Map.values fmap list_fmap fold_left snd].
    assert (k = AffiliateLink.slug v) as Hkv by (apply Hk; left).
    unfold upsertStep at 2. rewrite <- Hkv.
    assert (Hnd' : NoDup (Map.keys ((m1 ++ [(k, v)]) ++ m2)%list))
      by (by rewrite <- app_assoc).
    rewrite Map_set_fresh.
    + change (fold_left upsertStep (Map.values m2) (m1 ++ [(k, v)])%list
              = (m1 ++ (k, v) :: m2)%list).
      rewrite IH; [by rewrite <- app_assoc| |done].
      intros k' v' Hin. apply Hk. by right.
    + unfold Map.keys in Hnd. rewrite fmap_app in Hnd.
      apply NoDup_app in Hnd as (_ & Hdis & _).
      intros Hin. apply (Hdis k Hin). cbn. left.
Qed.

Lemma upsertLinks_Some file links :
  exists m,
    FileSystemAdapter.upsertLinks file links = Some (Map.values m) /\
    m = fold_left upsertStep (FileSystemAdapter.getLinks file ++ links) [] /\
    keyedBySlug m /\ NoDup (Map.keys m).
Proof.
  eexists. split; [apply upsertLinks_fold|]. split; [done|].
  apply upsertStep_fold_keyed.
  - intros k v Hin. by apply elem_of_nil in Hin.
  - constructor.
Qed.

(** Two maps with the same keys in the same order and the same value under
    every key are equal. *)
Lemma Map_ext {V} (m1 m2 : Map.t V) :
  NoDup (Map.keys m1) -> Map.keys m1 = Map.keys m2 ->
  (forall k, Map.get m1 k = Map.get m2 k) -> m1 = m2.
Proof.
  revert m2. induction m1 as [|[k v] m1 IH]; intros [|[k2 v2] m2] Hnd Hk Hg;
    try done.
  cbn in Hk. injection Hk as <- Hk.
  change (Map.keys m1 = Map.keys m2) in Hk.
  change (NoDup (k :: Map.keys m1)) in Hnd.
  apply NoDup_cons in Hnd as [Hk1 Hnd].
  pose proof (Hg k) as Hgk. cbn in Hgk. rewrite String.eqb_refl in Hgk.
  injection Hgk as <-. f_equal. apply IH; [done..|].
  intros k'. specialize (Hg k'). cbn in Hg.
  destruct (String.eqb k k') eqn:E; [|done].
  apply String.eqb_eq in E as <-.
  assert (k ∉ Map.keys m2) as Hk2 by (by rewrite <- Hk).
  apply Map_get_None in Hk1. apply Map_get_None in Hk2. by rewrite Hk1, Hk2.
Qed.

Lemma upsertStep_fold_keys ls m :
  Map.keys (fold_left upsertStep ls m)
  = (Map.keys m ++ firstNew (Map.keys m) (AffiliateLink.slug <$> ls))%list.
Proof.
  revert m. induction ls as [|l ls IH]; intros m.
  - by rewrite app_nil_r.
  - cbn [fold_left]. rewrite IH, fmap_cons. cbn [firstNew].
    change (upsertStep m l) with (Map.set m (AffiliateLink.slug l) l).
    rewrite Map_keys_set.
    destruct (Map.has m (AffiliateLink.slug l)) eqn:E.
    + rewrite bool_decide_true; [done|].
      destruct (decide (AffiliateLink.slug l ∈ Map.keys m)) as [|Hn]; [done|].
      apply Map_has_false in Hn. congruence.
    + apply Map_has_false in E. rewrite bool_decide_false by done.
      by rewrite <- app_assoc.
Qed.

Lemma elem_of_firstNew seen new s :
  s ∈ firstNew seen new <-> s ∈ new /\ s ∉ seen.
Proof.
  revert seen. induction new as [|a new IH]; intros seen; cbn.
  - split; [by intros ?%elem_of_nil|by intros [?%elem_of_nil _]].
  - case_bool_decide as Ha.
    + rewrite IH, elem_of_cons. split; [tauto|].
      intros [[->|?] ?]; tauto.
    + rewrite !elem_of_cons, IH, elem_of_app, list_elem_of_singleton.
      split.
      * intros [->|[? ?]]; [tauto|]. split; [tauto|]. tauto.
      * intros [[->|?] ?]; [tauto|].
        destruct (decide (s = a)); tauto.
Qed.

Lemma NoDup_firstNew seen new : NoDup (firstNew seen new).
Proof.
  revert seen. induction new as [|a new IH]; intros seen; cbn;
    [constructor|].
  case_bool_decide; [apply IH|]. constructor; [|apply IH].
  rewrite elem_of_firstNew, elem_of_app, list_elem_of_singleton. tauto.
Qed.

Lemma firstNew_absorb seen new extra :
  (forall s, s ∈ extra -> s ∈ seen \/ s ∈ new) ->
  firstNew seen (new ++ extra) = firstNew seen new.
Proof.
  revert seen. induction new as [|a new IH]; intros seen Hex.
  - cbn. induction extra as [|e extra IHe]; [done|].
    cbn. rewrite bool_decide_true.
    + apply IHe. intros s Hs. apply Hex. by right.
    + destruct (Hex e) as [?|?%elem_of_nil]; [left|done..].
  - cbn. case_bool_decide as Ha.
    + apply IH. intros s Hs. destruct (Hex s Hs) as [?|[->|?]%elem_of_cons];
        tauto.
    + f_equal. apply IH. intros s Hs. rewrite elem_of_app, list_elem_of_singleton.
      destruct (Hex s Hs) as [?|[->|?]%elem_of_cons]; tauto.
Qed.

Lemma firstNew_NoDup_filter seen new :
  NoDup new ->
  firstNew seen new = List.filter (fun s => negb (bool_decide (s ∈ seen))) new.
Proof.
  revert seen. induction new as [|a new IH]; intros seen Hnd; [done|].
  apply NoDup_cons in Hnd as [Ha Hnd]. cbn.
  case_bool_decide as Hs; cbn; [by apply IH|].
  f_equal. rewrite (IH _ Hnd).
  clear -Ha. induction new as [|b new IH]; [done|].
  apply not_elem_of_cons in Ha as [Hab Ha].
  cbn. rewrite IH by done.
  assert (b <> a) by done.
  destruct (bool_decide (b ∈ seen)) eqn:E1, (bool_decide (b ∈ (seen ++ [a])%list)) eqn:E2;
    try done.
  - apply bool_decide_eq_true in E1. apply bool_decide_eq_false in E2.
    destruct E2. apply elem_of_app. by left.
  - apply bool_decide_eq_false in E1. apply bool_decide_eq_true in E2.
    apply elem_of_app in E2 as [?|?%list_elem_of_singleton]; done.
Qed.

Lemma upsertStep_fold_NoDup ls m :
  NoDup (Map.keys m) -> NoDup (Map.keys (fold_left upsertStep ls m)).
Proof.
  revert m. induction ls as [|l ls IH]; intros m Hnd; [done|].
  cbn. apply IH. by apply Map_set_NoDup.
Qed.

Lemma upsertStep_fold_idem ls m :
  NoDup (Map.keys m) ->
  fold_left upsertStep ls (fold_left upsertStep ls m)
  = fold_left upsertStep ls m.
Proof.
  intros Hnd. apply Map_ext.
  - by do 2 apply upsertStep_fold_NoDup.
  - rewrite <- fold_left_app, !upsertStep_fold_keys. f_equal.
    rewrite fmap_app. apply firstNew_absorb. tauto.
  - intros k. rewrite !upsertStep_fold_get.
    by destruct (lastBySlug k ls).
Qed.

Lemma Map_values_omap {V} (m : Map.t V) :
  NoDup (Map.keys m) -> Map.values m = omap (Map.get m) (Map.keys m).
Proof.
  induction m as [|[k v] m IH]; intros Hnd; [done|].
  change (NoDup (k :: Map.keys m)) in Hnd.
  apply NoDup_cons in Hnd as [Hk Hnd].
  change (v :: Map.values m =
          omap (Map.get ((k, v) :: m)) (k :: Map.keys m)).
  cbn [omap list_omap]. cbn [Map.get]. rewrite String.eqb_refl. f_equal.
  rewrite (IH Hnd). clear IH.
  assert (Hall : forall k', k' ∈ Map.keys m -> k' <> k) by (by intros k' ? ->).
  revert Hall. generalize (Map.keys m) as ks.
  induction ks as [|k' ks IH]; intros Hall; [done|].
  cbn [omap list_omap Map.get].
  assert (String.eqb k k' = false) as ->.
  { apply String.eqb_neq. intros ->. eapply Hall; [left|done]. }
  change (list_omap ?f ?l) with (omap f l).
  rewrite IH; [done|]. intros x Hx. apply Hall. by right.
Qed.

Lemma omap_fmap_elem {A B C} (g : B -> option C) (h : A -> B) (f : A -> C)
  (l : list A) :
  (forall x, x ∈ l -> g (h x) = Some (f x)) -> omap g (h <$> l) = f <$> l.
Proof.
  induction l as [|x l IH]; intros Hl; [done|].
  rewrite !fmap_cons. cbn [omap list_omap]. rewrite (Hl x) by left.
  change (list_omap ?f ?l) with (omap f l).
  rewrite IH; [done|]. intros y Hy. apply Hl. by right.
Qed.

Lemma omap_ext_elem {A B} (g1 g2 : A -> option B) (l : list A) :
  (forall x, x ∈ l -> g1 x = g2 x) -> omap g1 l = omap g2 l.
Proof.
  induction l as [|x l IH]; intros Hl; [done|].
  cbn [omap list_omap]. rewrite (Hl x) by left.
  change (list_omap ?f ?l) with (omap f l).
  rewrite IH; [done|]. intros y Hy. apply Hl. by right.
Qed.

Lemma of_records_NoDup (ls : list AffiliateLink.t) :
  NoDup (AffiliateLink.slug <$> ls) ->
  fold_left upsertStep ls [] = (fun l => (AffiliateLink.slug l, l)) <$> ls.
Proof.
  intros Hnd.
  set (m := (fun l => (AffiliateLink.slug l, l)) <$> ls).
  assert (Map.values m = ls) as Hv.
  { unfold Map.values, m. rewrite <- list_fmap_compose.
    clear. induction ls as [|l ls IH]; [done|]. cbn. by rewrite IH. }
  rewrite <- Hv at 1. apply (upsertStep_fold_values m []).
  - intros k v Hin. unfold m in Hin.
    apply list_elem_of_fmap in Hin as (l & [= -> ->] & _). done.
  - rewrite app_nil_l. unfold Map.keys, m. by rewrite <- list_fmap_compose.
Qed.

Lemma store_after_upsert file links :
  FileSystemAdapter.getLinks (FileSystemAdapter.upsertLinks file links)
  = Map.values
      (fold_left upsertStep links
         (fold_left upsertStep (FileSystemAdapter.getLinks file) [])).
Proof. by rewrite upsertLinks_fold, fold_left_app. Qed.

Lemma fold_upsertStep_keyed ls :
  keyedBySlug (fold_left upsertStep ls []) /\
  NoDup (Map.keys (fold_left upsertStep ls [])).
Proof.
  apply upsertStep_fold_keyed; [|constructor].
  intros k v Hin. by apply elem_of_nil in Hin.
Qed.

(** X1. Upserting two batches one after the other leaves the store file as
    one upsert of their concatenation does. *)
Theorem upsertLinks_batches_compose (file : FileSystemAdapter.File)
  (links1 links2 : list AffiliateLink.t) :
  FileSystemAdapter.upsertLinks
    (FileSystemAdapter.upsertLinks file links1) links2
  = FileSystemAdapter.upsertLinks file (links1 ++ links2).
Proof.
  rewrite (upsertLinks_fold file links1), !upsertLinks_fold.
  cbn [FileSystemAdapter.getLinks].
  destruct (fold_upsertStep_keyed (FileSystemAdapter.getLinks file ++ links1))
    as [Hk Hnd].
  rewrite fold_left_app, (upsertStep_fold_values _ []) by done.
  by rewrite app_nil_l, <- fold_left_app, <- app_assoc.
Qed.

(** X2. Upserting the same batch a second time changes nothing, whatever the
    file and the batch hold. *)
Theorem upsertLinks_idempotent (file : FileSystemAdapter.File)
  (links : list AffiliateLink.t) :
  FileSystemAdapter.upsertLinks
    (FileSystemAdapter.upsertLinks file links) links
  = FileSystemAdapter.upsertLinks file links.
Proof.
  rewrite (upsertLinks_fold file links), !upsertLinks_fold.
  cbn [FileSystemAdapter.getLinks].
  destruct (fold_upsertStep_keyed (FileSystemAdapter.getLinks file ++ links))
    as [Hk Hnd].
  rewrite fold_left_app, (upsertStep_fold_values _ []) by done.
  rewrite app_nil_l, (fold_left_app _ (FileSystemAdapter.getLinks file)).
  rewrite upsertStep_fold_idem; [done|].
  apply upsertStep_fold_NoDup. constructor.
Qed.

Lemma upsertStep_fold_layout (existing links : list AffiliateLink.t) :
  NoDup (AffiliateLink.slug <$> existing) ->
  Map.values (fold_left upsertStep links (fold_left upsertStep existing []))
  = (((fun r => default r (lastBySlug (AffiliateLink.slug r) links))
        <$> existing)
     ++ omap (fun s => lastBySlug s links)
          (firstNew (AffiliateLink.slug <$> existing)
             (AffiliateLink.slug <$> links)))%list.
Proof.
  intros Hnd.
  rewrite (of_records_NoDup existing Hnd).
  set (m0 := (fun l => (AffiliateLink.slug l, l)) <$> existing).
  assert (Hk0 : Map.keys m0 = AffiliateLink.slug <$> existing).
  { unfold Map.keys, m0. by rewrite <- list_fmap_compose. }
  assert (Hnd0 : NoDup (Map.keys m0)) by (by rewrite Hk0).
  rewrite Map_values_omap by (by apply upsertStep_fold_NoDup).
  rewrite upsertStep_fold_keys, omap_app, Hk0. f_equal.
  - apply omap_fmap_elem. intros r Hr. rewrite upsertStep_fold_get.
    destruct (lastBySlug (AffiliateLink.slug r) links); [done|]. cbn.
    apply Map_get_elem; [done|]. unfold m0.
    apply list_elem_of_fmap. by exists r.
  - apply omap_ext_elem. intros s Hs. rewrite upsertStep_fold_get.
    destruct (lastBySlug s links); [done|].
    apply elem_of_firstNew in Hs as [_ Hs]. rewrite <- Hk0 in Hs.
    by apply Map_get_None.
Qed.

(** X3. The layout of the store after an upsert into a file with distinct
    slugs: every old record keeps its position, replaced in place by the
    last record of the batch with its slug if there is one; the slugs that
    are new follow in the order of their first appearance in the batch,
    each with its last record. *)
Theorem upsertLinks_layout (file : FileSystemAdapter.File)
  (links : list AffiliateLink.t) :
  let existing := FileSystemAdapter.getLinks file in
  NoDup (AffiliateLink.slug <$> existing) ->
  FileSystemAdapter.getLinks (FileSystemAdapter.upsertLinks file links)
  = (((fun r => default r (lastBySlug (AffiliateLink.slug r) links))
        <$> existing)
     ++ omap (fun s => lastBySlug s links)
          (firstNew (AffiliateLink.slug <$> existing)
             (AffiliateLink.slug <$> links)))%list.
Proof.
  intros existing Hnd. rewrite store_after_upsert.
  by apply upsertStep_fold_layout.
Qed.

(** X4. Lookup by slug after an upsert: the last record of the batch with the
    slug, else the last one of the old file; a slug absent from both is
    absent afterwards; and when the old slugs are distinct, a slug the
    batch does not mention is looked up as before. *)
Theorem getLinkBySlug_after_upsert (file : FileSystemAdapter.File)
  (links : list AffiliateLink.t) (s : string) :
  let store := FileSystemAdapter.upsertLinks file links in
  let existing := FileSystemAdapter.getLinks file in
  FileSystemAdapter.getLinkBySlug store s
  = match lastBySlug s links with
    | Some r => Some r
    | None => lastBySlug s existing
    end /\
  (FileSystemAdapter.getLinkBySlug store s = None <->
   (s ∉ AffiliateLink.slug <$> existing) /\
   (s ∉ AffiliateLink.slug <$> links)) /\
  (NoDup (AffiliateLink.slug <$> existing) ->
   s ∉ AffiliateLink.slug <$> links ->
   FileSystemAdapter.getLinkBySlug store s
   = FileSystemAdapter.getLinkBySlug file s).
Proof.
  intros store existing.
  assert (Hget : FileSystemAdapter.getLinkBySlug store s
    = match lastBySlug s links with
      | Some r => Some r
      | None => lastBySlug s existing
      end).
  { unfold store. destruct (upsertLinks_merged file links)
      as (m & -> & Hk & Hnd & Hg).
    unfold FileSystemAdapter.getLinkBySlug. cbn [FileSystemAdapter.getLinks].
    rewrite keyedBySlug_find by done. apply Hg. }
  split; [done|]. split.
  - rewrite Hget, <- !lastBySlug_None.
    destruct (lastBySlug s links); [|tauto].
    split; [done|]. by intros [_ ?].
  - intros Hnd Hs. rewrite Hget.
    apply lastBySlug_None in Hs. rewrite Hs.
    unfold FileSystemAdapter.getLinkBySlug. fold existing.
    clear -Hnd. induction existing as [|r rs IH]; [done|].
    rewrite fmap_cons in Hnd. apply NoDup_cons in Hnd as [Hr Hnd].
    cbn [lastBySlug find]. rewrite (IH Hnd).
    destruct (String.eqb (AffiliateLink.slug r) s) eqn:E;
      [|by destruct (find _ rs)].
    apply String.eqb_eq in E as <-.
    destruct (find _ rs) as [r'|] eqn:Hf; [|done].
    apply find_some in Hf as [Hin Heq]. apply String.eqb_eq in Heq.
    destruct Hr. rewrite <- Heq. apply list_elem_of_fmap_2.
    by apply list_elem_of_In.
Qed.

(** ** The sync command *)

Lemma omap_length_Some {A B} (g : A -> option B) (l : list A) :
  (forall x, x ∈ l -> is_Some (g x)) -> length (omap g l) = length l.
Proof.
  induction l as [|x l IH]; intros Hl; [done|].
  cbn [omap list_omap]. destruct (Hl x) as [y ->]; [left|].
  cbn. change (list_omap ?f ?l) with (omap f l).
  rewrite IH; [done|]. intros z Hz. apply Hl. by right.
Qed.

Lemma NoDup_fmap_filter {A B} (f : A -> B) (g : A -> bool) (l : list A) :
  NoDup (f <$> l) -> NoDup (f <$> List.filter g l).
Proof.
  induction l as [|x l IH]; intros Hnd; [constructor|].
  rewrite fmap_cons in Hnd. apply NoDup_cons in Hnd as [Hx Hnd].
  cbn. destruct (g x); [|by apply IH].
  rewrite fmap_cons. constructor; [|by apply IH].
  intros Hin. apply Hx.
  apply list_elem_of_fmap in Hin as (y & -> & Hy).
  apply elem_of_filter_bool in Hy as [Hy _].
  by apply list_elem_of_fmap_2.
Qed.

(** X5. The sync command fails, in a dry run too, when the store file holds
    something else than a JSON array.  On a store file that is absent or
    holds an array of records it completes, and its counts add up: every
    link is new or updated, the updated links are no more than the records
    of the store, so that the printed number of unchanged records is not
    negative; a dry run leaves the store as it was; a real run makes every
    link retrievable under its slug, and when the slugs of the store were
    distinct the store grows by exactly the new links. *)
Theorem sync_report_counts `{Platform} (config : LinksmithConfig)
  (plugins : list NetworkPlugin.t) (file : FileSystemAdapter.File)
  (externalLinks : list ExtractedLink.t) (dryRun : bool) (clock : Clock) :
  Commands.sync config plugins Store.Malformed externalLinks dryRun clock
    = None /\
  exists report file' clock',
    Commands.sync config plugins (Store.WellFormed file) externalLinks dryRun
      clock
      = Some (report, Store.WellFormed file', clock') /\
    (length (Commands.newLinks report) + length (Commands.updatedLinks report)
     = Commands.totalLinks report)%nat /\
    (length (Commands.updatedLinks report)
     <= length (Commands.existingLinks report))%nat /\
    Commands.existingLinks report = FileSystemAdapter.getLinks file /\
    (dryRun = true -> file' = file) /\
    (dryRun = false ->
     (forall r, r ∈ Commands.newLinks report \/ r ∈ Commands.updatedLinks report ->
        FileSystemAdapter.getLinkBySlug file' (AffiliateLink.slug r) = Some r) /\
     (NoDup (AffiliateLink.slug <$> FileSystemAdapter.getLinks file) ->
      length (FileSystemAdapter.getLinks file')
      = (length (FileSystemAdapter.getLinks file)
         + length (Commands.newLinks report))%nat)).
Proof.
  destruct (C1_slug_table_aux config plugins externalLinks clock)
    as (m & clock' & Hm & _ & _ & Hslugs).
  unfold Commands.sync. rewrite Hm. split; [done|].
  cbn [Store.getLinks Store.upsertLinks].
  set (links := Map.values m).
  set (existing := FileSystemAdapter.getLinks file).
  set (existingSlugs := list_to_set (AffiliateLink.slug <$> existing) : gset string).
  set (isOld := fun l : AffiliateLink.t =>
                  bool_decide (AffiliateLink.slug l ∈ existingSlugs)).
  change (NoDup (AffiliateLink.slug <$> links)) in Hslugs.
  exists {| Commands.totalLinks := length links;
            Commands.newLinks := List.filter (fun l => negb (isOld l)) links;
            Commands.updatedLinks := List.filter isOld links;
            Commands.existingLinks := existing |},
    (if dryRun then file else FileSystemAdapter.upsertLinks file links),
    clock'.
  split; [by destruct dryRun|]. cbn.
  split; [|split; [|split; [done|split]]].
  - rewrite Nat.add_comm. apply (filter_length isOld).
  - rewrite <- (length_fmap AffiliateLink.slug (List.filter _ _)).
    rewrite <- (length_fmap AffiliateLink.slug existing).
    apply submseteq_length, NoDup_submseteq.
    + by apply NoDup_fmap_filter.
    + intros s Hs. apply list_elem_of_fmap in Hs as (x & -> & Hx).
      apply elem_of_filter_bool in Hx as [_ Hx].
      apply bool_decide_eq_true in Hx.
      by apply elem_of_list_to_set in Hx.
  - by intros ->.
  - intros ->. split.
    + intros r Hr.
      assert (r ∈ links) as Hin.
      { destruct Hr as [Hr|Hr]; by apply elem_of_filter_bool in Hr as [? _]. }
      apply upsertLinks_new_wins; [done|].
      intros r' Hr' Heq. by apply (NoDup_fmap_eq AffiliateLink.slug links).
    + intros Hnd. rewrite store_after_upsert.
      rewrite upsertStep_fold_layout by done. fold existing.
      rewrite length_app, length_fmap. f_equal.
      rewrite omap_length_Some.
      * rewrite firstNew_NoDup_filter by done.
        rewrite filter_map_swap, length_map. f_equal.
        generalize links as ls.
        induction ls as [|l ls IH]; [done|]. cbn.
        assert (bool_decide (AffiliateLink.slug l ∈ AffiliateLink.slug <$> existing)
                = isOld l) as ->.
        { unfold isOld, existingSlugs. apply bool_decide_ext.
          by rewrite elem_of_list_to_set. }
        rewrite IH. fold (isOld l). by destruct (isOld l).
      * intros s Hs. apply elem_of_firstNew in Hs as [Hs _].
        destruct (lastBySlug s links) eqn:E; [done|].
        by apply lastBySlug_None in E.
Qed.

(** ** The rewrite pass: further properties *)

Section RewriteAgain.
Context `{Platform}.
Variable config : LinksmithConfig.
Variable plugins : list NetworkPlugin.t.
Variable linkMap : Map.t AffiliateLink.t.

Abbreviation loop := (Transformer.transformFile_loop config plugins).
Abbreviation tracking := (trackingUrlOf config plugins linkMap).

(** A text in which no target of a qualifying occurrence occurs passes
    through the loop untouched. *)
Lemma transformFile_loop_untouched rest content changes clock :
  (forall l, l ∈ rest -> qualifying l = true ->
     ~ occurs (target (ExtractedLink.url l)) content) ->
  exists clock',
    loop rest linkMap content changes clock = Some (content, changes, clock').
Proof.
  revert clock. induction rest as [|l rest IH]; intros clock Hno.
  - by eexists.
  - assert (forall l', l' ∈ rest -> qualifying l' = true ->
              ~ occurs (target (ExtractedLink.url l')) content) as Hno'.
    { intros l' Hl'. apply Hno. by right. }
    destruct (qualifying l) eqn:Hq.
    + rewrite transformFile_loop_qualifying by done. cbv zeta.
      rewrite replaceAll_absent by (apply Hno; [left|done]).
      rewrite String.eqb_refl. simpl negb. cbv iota. by apply IH.
    + rewrite transformFile_loop_skip by done. by apply IH.
Qed.

(** A target that is absent, or whose URL is still to be processed, is
    absent at the end of the loop. *)
Lemma transformFile_loop_absent rest content changes clock W :
  plain W = true ->
  (forall l k, l ∈ rest -> qualifying l = true ->
     plain (tracking l k) = true /\ dollarFree (tracking l k) = true /\
     tracking l k <> W) ->
  ~ occurs (target W) content \/
  (exists l, l ∈ rest /\ qualifying l = true /\ ExtractedLink.url l = W) ->
  exists content' changes' clock',
    loop rest linkMap content changes clock = Some (content', changes', clock') /\
    ~ occurs (target W) content'.
Proof.
  intros HW. revert content changes clock.
  induction rest as [|l rest IH]; intros content changes clock Htr Hcase.
  - exists content, changes, clock. split; [done|].
    destruct Hcase as [?|(l & ?%elem_of_nil & _)]; done.
  - assert (forall l' k, l' ∈ rest -> qualifying l' = true ->
              plain (tracking l' k) = true /\ dollarFree (tracking l' k) = true /\
              tracking l' k <> W) as Htr'.
    { intros l' k Hl'. apply Htr. by right. }
    destruct (qualifying l) eqn:Hq.
    2:{ rewrite transformFile_loop_skip by done. apply IH; [done|].
        destruct Hcase as [?|(l' & [->|?]%elem_of_cons & Hq' & ?)];
          [by left|congruence|]. right. by exists l'. }
    rewrite transformFile_loop_qualifying by done. cbv zeta.
    destruct (Htr l clock ltac:(left) Hq) as (HTp & HTd & HTW).
    rewrite replaceAll_tracking by done.
    apply IH; [done|].
    destruct (decide (W = ExtractedLink.url l)) as [->|Hne].
    + left. apply (replaceLiteral_target_gone _ _ HTp); [done|congruence|done].
    + destruct Hcase as [Hno|(l' & [->|Hl']%elem_of_cons & Hq' & Hu)];
        [|done|right; by exists l'].
      left. apply (replaceLiteral_target_gone _ _ HTp); [done|congruence|].
      by intros ?.
Qed.

(** When every qualifying occurrence has its URL in the link map, the
    loop takes every slug from the map and leaves the clock alone. *)
Lemma transformFile_loop_table rest content changes clock :
  (forall l, l ∈ rest -> qualifying l = true ->
     ExtractedLink.url l ∈ Map.keys linkMap) ->
  exists content' new,
    loop rest linkMap content changes clock
      = Some (content', (changes ++ new)%list, clock) /\
    forall c, c ∈ new ->
      exists entry,
        original c ∈ ExtractedLink.url <$> List.filter qualifying rest /\
        Map.get linkMap (original c) = Some entry /\
        change_slug c = AffiliateLink.slug entry /\
        trackingUrl c = tracking_baseUrl config +:+ AffiliateLink.slug entry.
Proof.
  revert content changes.
  induction rest as [|l rest IH]; intros content changes Hin.
  - exists content, []. rewrite app_nil_r. split; [done|].
    by intros c ?%elem_of_nil.
  - assert (forall l', l' ∈ rest -> qualifying l' = true ->
              ExtractedLink.url l' ∈ Map.keys linkMap) as Hin'.
    { intros l' Hl'. apply Hin. by right. }
    destruct (qualifying l) eqn:Hq.
    2:{ rewrite transformFile_loop_skip by done.
        destruct (IH content changes Hin') as (content' & new & -> & Hnew).
        exists content', new. split; [done|]. cbn. by rewrite Hq. }
    rewrite transformFile_loop_qualifying by done. cbv zeta.
    destruct (Map.get linkMap (ExtractedLink.url l)) as [entry|] eqn:Hget.
    2:{ apply Map_get_None in Hget. destruct Hget. apply Hin; [left|done]. }
    unfold trackingUrlOf, Transformer.findOrGenerateSlug. rewrite Hget.
    cbn [fst snd].
    match goal with
    | |- context [loop rest linkMap ?c ?ch clock] =>
        destruct (IH c ch Hin') as (content' & new & Hrun & Hnew)
    end.
    destruct (negb _) eqn:Halt.
    + rewrite <- app_assoc in Hrun. eexists content', (_ :: new).
      split; [exact Hrun|].
      intros c [->|Hc]%elem_of_cons.
      * exists entry. cbn. rewrite Hq, fmap_cons.
        split; [left|done].
      * destruct (Hnew c Hc) as (e & ? & ? & ? & ?). exists e.
        cbn. rewrite Hq, fmap_cons. split; [by right|done].
    + exists content', new. split; [exact Hrun|].
      intros c Hc. destruct (Hnew c Hc) as (e & ? & ? & ? & ?). exists e.
      cbn. rewrite Hq, fmap_cons. split; [by right|done].
Qed.

End RewriteAgain.

Lemma elem_of_sortLinks (links : list ExtractedLink.t) (l : ExtractedLink.t) :
  l ∈ Transformer.sortLinks links <-> l ∈ links.
Proof. by rewrite sortLinks_Permutation. Qed.

(** The rewrite pass always completes. *)
Lemma transformFile_total `{Platform} config plugins filePath content links
  linkMap clock :
  exists r clock',
    Transformer.transformFile config plugins filePath content links linkMap
      clock = Some (r, clock') /\
    result_file r = filePath /\ originalContent r = content /\
    linksTransformed r = length (changes r).
Proof.
  unfold Transformer.transformFile.
  destruct (transformFile_loop_steps config plugins linkMap
              (Transformer.sortLinks links) content [] clock) as (clock' & ->).
  by eexists _, _.
Qed.

(** X6. Running the rewrite pass a second time on its own output changes
    nothing, when no URL has a closing bracket or parenthesis and no
    tracking URL has one, has a dollar sign, or is itself the URL of a
    qualifying occurrence. *)
Theorem transformFile_second_pass `{Platform} (config : LinksmithConfig)
  (plugins : list NetworkPlugin.t) (filePath content : string)
  (links : list ExtractedLink.t) (linkMap : Map.t AffiliateLink.t)
  (clock : Clock) :
  (forall l, l ∈ List.filter qualifying links ->
     plain (ExtractedLink.url l) = true) ->
  (forall l l' k,
     l ∈ List.filter qualifying links -> l' ∈ List.filter qualifying links ->
     plain (trackingUrlOf config plugins linkMap l k) = true /\
     dollarFree (trackingUrlOf config plugins linkMap l k) = true /\
     trackingUrlOf config plugins linkMap l k <> ExtractedLink.url l') ->
  exists r clock',
    Transformer.transformFile config plugins filePath content links linkMap clock
      = Some (r, clock') /\
    (forall l, l ∈ List.filter qualifying links ->
       ~ occurs (target (ExtractedLink.url l)) (transformedContent r)) /\
    forall clock2, exists clock3,
      Transformer.transformFile config plugins filePath (transformedContent r)
        links linkMap clock2
      = Some ({| result_file := filePath;
                 originalContent := transformedContent r;
                 transformedContent := transformedContent r;
                 linksTransformed := 0;
                 changes := [] |}, clock3).
Proof.
  intros Hurl Htr.
  destruct (transformFile_total config plugins filePath content links linkMap
              clock) as (r & clock' & Hrun & _).
  exists r, clock'. split; [done|].
  assert (Hgone : forall l, l ∈ List.filter qualifying links ->
            ~ occurs (target (ExtractedLink.url l)) (transformedContent r)).
  { intros l Hl. pose proof Hl as [Hin Hq]%elem_of_filter_bool.
    destruct (transformFile_loop_absent config plugins linkMap
                (Transformer.sortLinks links) content [] clock
                (ExtractedLink.url l)) as (c' & ch' & k' & Hloop & Hno).
    - by apply Hurl.
    - intros l' k Hl' Hq'. rewrite elem_of_sortLinks in Hl'.
      apply (Htr l' l k); [by apply elem_of_filter_bool|done].
    - right. exists l. by rewrite elem_of_sortLinks.
    - unfold Transformer.transformFile in Hrun. rewrite Hloop in Hrun.
      by injection Hrun as <- <-. }
  split; [done|]. intros clock2.
  destruct (transformFile_loop_untouched config plugins linkMap
              (Transformer.sortLinks links) (transformedContent r) [] clock2)
    as (clock3 & Hloop).
  - intros l Hl Hq. rewrite elem_of_sortLinks in Hl.
    apply Hgone. by apply elem_of_filter_bool.
  - exists clock3. unfold Transformer.transformFile. by rewrite Hloop.
Qed.

(** ** Grouping by file *)

Lemma inFile_app f l1 l2 : inFile f (l1 ++ l2) = (inFile f l1 ++ inFile f l2)%list.
Proof. unfold inFile. apply List.filter_app. Qed.

Lemma groupByFile_fold_get links (m : Map.t (list ExtractedLink.t)) f :
  Map.get
    (fold_left
       (fun fileLinks link =>
          Map.set fileLinks (ExtractedLink.file link)
            (default [] (Map.get fileLinks (ExtractedLink.file link)) ++ [link])%list)
       links m) f
  = match Map.get m f with
    | Some ls => Some (ls ++ inFile f links)%list
    | None => match inFile f links with [] => None | ls => Some ls end
    end.
Proof.
  revert m. induction links as [|l links IH]; intros m.
  - cbn. destruct (Map.get m f); [by rewrite app_nil_r|done].
  - cbn [fold_left]. rewrite IH, Map_get_set. unfold inFile. cbn [List.filter].
    destruct (String.eqb (ExtractedLink.file l) f) eqn:E.
    + apply String.eqb_eq in E as ->.
      destruct (Map.get m f); cbn; [by rewrite <- app_assoc|done].
    + done.
Qed.

Lemma groupByFile_fold_keys links (m : Map.t (list ExtractedLink.t)) :
  Map.keys
    (fold_left
       (fun fileLinks link =>
          Map.set fileLinks (ExtractedLink.file link)
            (default [] (Map.get fileLinks (ExtractedLink.file link)) ++ [link])%list)
       links m)
  = (Map.keys m ++ firstNew (Map.keys m) (ExtractedLink.file <$> links))%list.
Proof.
  revert m. induction links as [|l links IH]; intros m.
  - by rewrite app_nil_r.
  - cbn [fold_left]. rewrite IH, fmap_cons, Map_keys_set. cbn [firstNew].
    destruct (Map.has m (ExtractedLink.file l)) eqn:E.
    + rewrite bool_decide_true; [done|].
      destruct (decide (ExtractedLink.file l ∈ Map.keys m)) as [|Hn]; [done|].
      apply Map_has_false in Hn. congruence.
    + apply Map_has_false in E. rewrite bool_decide_false by done.
      by rewrite <- app_assoc.
Qed.

Lemma Map_set_append_concat {A} (m : Map.t (list A)) (k : string) (x : A) :
  concat (Map.values (Map.set m k (default [] (Map.get m k) ++ [x])%list))
  ≡ₚ (concat (Map.values m) ++ [x])%list.
Proof.
  induction m as [|[k' v'] m IH]; [done|].
  cbn [Map.set Map.get]. destruct (String.eqb k' k).
  - cbn. by rewrite <- app_assoc, (Permutation_app_comm [x]), app_assoc.
  - change (v' ++ concat (Map.values (Map.set m k
              (default [] (Map.get m k) ++ [x])%list))
            ≡ₚ (v' ++ concat (Map.values m)) ++ [x])%list.
    by rewrite IH, app_assoc.
Qed.

Lemma groupByFile_fold_concat links (m : Map.t (list ExtractedLink.t)) :
  concat
    (Map.values
       (fold_left
          (fun fileLinks link =>
             Map.set fileLinks (ExtractedLink.file link)
               (default [] (Map.get fileLinks (ExtractedLink.file link)) ++ [link])%list)
          links m))
  ≡ₚ (concat (Map.values m) ++ links)%list.
Proof.
  revert m. induction links as [|l links IH]; intros m.
  - by rewrite app_nil_r.
  - cbn [fold_left]. rewrite IH, Map_set_append_concat, <- app_assoc. done.
Qed.

(** X7. The groups of [groupByFile]: one key per file that has an occurrence,
    in the order of first appearance; under each file its occurrences, in
    their order; no occurrence is lost or repeated. *)
Theorem groupByFile_groups (links : list ExtractedLink.t) :
  let fileLinks := Commands.groupByFile links in
  Map.keys fileLinks = firstNew [] (ExtractedLink.file <$> links) /\
  NoDup (Map.keys fileLinks) /\
  (forall f, Map.get fileLinks f
     = match inFile f links with [] => None | ls => Some ls end) /\
  concat (Map.values fileLinks) ≡ₚ links.
Proof.
  unfold Commands.groupByFile. cbv zeta.
  split; [apply groupByFile_fold_keys|].
  split; [rewrite groupByFile_fold_keys; apply NoDup_firstNew|].
  split; [intros f; by rewrite groupByFile_fold_get|].
  apply (groupByFile_fold_concat links []).
Qed.

(** ** Transformation of many files *)

Section BatchFacts.
Context `{Platform}.
Variable config : LinksmithConfig.
Variable plugins : list NetworkPlugin.t.
Variable fs : gmap string string.
Variable linkMap : Map.t AffiliateLink.t.

Abbreviation positive := (fun r : TransformResult => (0 <? linksTransformed r)%nat).

(** One unreadable file makes the whole batch fail. *)
Lemma transformFiles_loop_None fileLinks results clock :
  (exists f, f ∈ Map.keys fileLinks /\ fs !! f = None) ->
  Batch.transformFiles_loop config plugins fs fileLinks linkMap results clock
  = None.
Proof.
  revert results clock.
  induction fileLinks as [|[f links] rest IH]; intros results clock (g & Hg & Hnone).
  - by apply elem_of_nil in Hg.
  - cbn [Batch.transformFiles_loop]. unfold Batch.transformFile.
    destruct (fs !! f) as [content|] eqn:E; [|done].
    destruct (transformFile_total config plugins f content links linkMap clock)
      as (r & clock' & -> & _).
    apply IH. exists g. split; [|done].
    change (g ∈ f :: Map.keys rest) in Hg.
    apply elem_of_cons in Hg as [->|Hg]; [congruence|done].
Qed.

(** With every file readable the batch completes: the results are the
    outcomes of the single files, in order, without those that changed
    nothing.  [Inv] is any property of the clock that every single
    transformation maintains. *)
Lemma transformFiles_loop_outcomes (Inv : Clock -> Prop) fileLinks results clock :
  (forall f, f ∈ Map.keys fileLinks -> is_Some (fs !! f)) ->
  (forall f links content clk r clk',
     (f, links) ∈ fileLinks -> Inv clk ->
     Transformer.transformFile config plugins f content links linkMap clk
       = Some (r, clk') -> Inv clk') ->
  Inv clock ->
  exists outcomes clock',
    Batch.transformFiles_loop config plugins fs fileLinks linkMap results clock
      = Some ((results ++ List.filter positive outcomes)%list, clock') /\
    Inv clock' /\
    Forall2
      (fun entry r =>
         exists content clk clk',
           Inv clk /\ fs !! entry.1 = Some content /\
           Transformer.transformFile config plugins entry.1 content entry.2
             linkMap clk = Some (r, clk'))
      fileLinks outcomes.
Proof.
  revert results clock.
  induction fileLinks as [|[f links] rest IH]; intros results clock Hfs Hinv Hc.
  - exists [], clock. cbn. by rewrite app_nil_r.
  - cbn [Batch.transformFiles_loop]. unfold Batch.transformFile.
    destruct (Hfs f) as [content Hcontent]; [left|]. rewrite Hcontent.
    destruct (transformFile_total config plugins f content links linkMap clock)
      as (r & clock1 & Hrun & _).
    rewrite Hrun.
    assert (Inv clock1) as Hc1 by (eapply Hinv; [left|exact Hc|exact Hrun]).
    destruct (IH (if positive r then (results ++ [r])%list else results) clock1)
      as (outcomes & clock' & Hloop & Hc' & Hall).
    { intros g Hg. apply Hfs. by right. }
    { intros g ls c k r' k' Hin. apply Hinv. by right. }
    { done. }
    exists (r :: outcomes), clock'. cbv zeta. rewrite Hloop.
    split; [|split; [done|]].
    + cbn [List.filter]. destruct (positive r); [by rewrite <- app_assoc|done].
    + constructor; [|done]. by exists content, clock, clock1.
Qed.

End BatchFacts.

Lemma sublist_filter_bool {A} (g : A -> bool) (l : list A) :
  sublist (List.filter g l) l.
Proof.
  induction l as [|x l IH]; [constructor|].
  cbn. destruct (g x); by constructor.
Qed.

Lemma Forall2_elem_r {A B} (R : A -> B -> Prop) (l : list A) (k : list B) y :
  Forall2 R l k -> y ∈ k -> exists x, x ∈ l /\ R x y.
Proof.
  induction 1 as [|x y' l k HR _ IH]; [by intros ?%elem_of_nil|].
  intros [->|Hy]%elem_of_cons.
  - exists x. split; [left|done].
  - destruct (IH Hy) as (x' & ? & ?). exists x'. split; [by right|done].
Qed.

Lemma Forall2_fmap_eq {A B C} (f : A -> C) (g : B -> C) (R : A -> B -> Prop)
  (l : list A) (k : list B) :
  Forall2 R l k -> (forall x y, R x y -> f x = g y) -> f <$> l = g <$> k.
Proof.
  induction 1 as [|x y l k HR _ IH]; intros Hfg; [done|].
  rewrite !fmap_cons, (Hfg x y HR), IH; done.
Qed.

Lemma transformFile_fields `{Platform} config plugins f content links linkMap
  clk r clk' :
  Transformer.transformFile config plugins f content links linkMap clk
    = Some (r, clk') ->
  result_file r = f /\ originalContent r = content /\
  linksTransformed r = length (changes r).
Proof.
  intros Hrun.
  destruct (transformFile_total config plugins f content links linkMap clk)
    as (r' & k' & Hrun' & ? & ? & ?).
  rewrite Hrun in Hrun'. by injection Hrun' as <- <-.
Qed.

(** A file in which no target of a qualifying occurrence occurs gets an
    empty list of changes. *)
Lemma transformFile_untouched `{Platform} config plugins f content links
  linkMap clk r clk' :
  (forall l, l ∈ links -> qualifying l = true ->
     ~ occurs (target (ExtractedLink.url l)) content) ->
  Transformer.transformFile config plugins f content links linkMap clk
    = Some (r, clk') ->
  transformedContent r = content /\ changes r = [] /\ linksTransformed r = 0%nat.
Proof.
  intros Hno Hrun.
  destruct (transformFile_loop_untouched config plugins linkMap
              (Transformer.sortLinks links) content [] clk) as (k & Hloop).
  { intros l Hl. rewrite elem_of_sortLinks in Hl. by apply Hno. }
  unfold Transformer.transformFile in Hrun. rewrite Hloop in Hrun.
  by injection Hrun as <- <-.
Qed.

(** With every qualifying URL in the link map, a file is transformed
    without a reading of the clock, and every change carries the slug of
    the map. *)
Lemma transformFile_table `{Platform} config plugins f content links linkMap clk :
  (forall l, l ∈ links -> qualifying l = true ->
     ExtractedLink.url l ∈ Map.keys linkMap) ->
  exists r,
    Transformer.transformFile config plugins f content links linkMap clk
      = Some (r, clk) /\
    forall c, c ∈ changes r ->
      exists entry,
        Map.get linkMap (original c) = Some entry /\
        change_slug c = AffiliateLink.slug entry /\
        trackingUrl c = tracking_baseUrl config +:+ AffiliateLink.slug entry.
Proof.
  intros Hin.
  destruct (transformFile_loop_table config plugins linkMap
              (Transformer.sortLinks links) content [] clk)
    as (content' & new & Hloop & Hnew).
  { intros l Hl. rewrite elem_of_sortLinks in Hl. by apply Hin. }
  unfold Transformer.transformFile. rewrite Hloop. eexists. split; [done|].
  cbn. intros c Hc. destruct (Hnew c Hc) as (e & _ & ? & ? & ?). by exists e.
Qed.

(** X8. [transformFiles] completes exactly when every file of the map can be
    read.  Its results follow the order of the map; each has at least one
    change and stands for a file of the map; and a file in which no link
    target of a qualifying occurrence occurs is not among the results. *)
Theorem transformFiles_results `{Platform} (config : LinksmithConfig)
  (plugins : list NetworkPlugin.t) (fs : gmap string string)
  (fileLinks : Map.t (list ExtractedLink.t)) (linkMap : Map.t AffiliateLink.t)
  (clock : Clock) :
  (is_Some (Batch.transformFiles config plugins fs fileLinks linkMap clock) <->
   forall f, f ∈ Map.keys fileLinks -> is_Some (fs !! f)) /\
  forall results clock',
    Batch.transformFiles config plugins fs fileLinks linkMap clock
      = Some (results, clock') ->
    sublist (result_file <$> results) (Map.keys fileLinks) /\
    (forall r, r ∈ results ->
       (0 < linksTransformed r)%nat /\
       linksTransformed r = length (changes r) /\
       fs !! result_file r = Some (originalContent r)) /\
    (NoDup (Map.keys fileLinks) ->
     forall f links content,
       (f, links) ∈ fileLinks -> fs !! f = Some content ->
       (forall l, l ∈ links -> qualifying l = true ->
          ~ occurs (target (ExtractedLink.url l)) content) ->
       f ∉ result_file <$> results).
Proof.
  assert (Hfwd : is_Some (Batch.transformFiles config plugins fs fileLinks
                            linkMap clock) ->
                 forall f, f ∈ Map.keys fileLinks -> is_Some (fs !! f)).
  { intros [x Hx] f Hf. destruct (fs !! f) eqn:E; [done|].
    unfold Batch.transformFiles in Hx.
    rewrite transformFiles_loop_None in Hx; [done|by exists f]. }
  assert (Hbwd : (forall f, f ∈ Map.keys fileLinks -> is_Some (fs !! f)) ->
    exists outcomes clock',
      Batch.transformFiles config plugins fs fileLinks linkMap clock
        = Some (List.filter (fun r => (0 <? linksTransformed r)%nat) outcomes,
                clock') /\
      Forall2
        (fun entry r =>
           exists content clk clk',
             True /\ fs !! entry.1 = Some content /\
             Transformer.transformFile config plugins entry.1 content entry.2
               linkMap clk = Some (r, clk'))
        fileLinks outcomes).
  { intros Hfs.
    destruct (transformFiles_loop_outcomes config plugins fs linkMap
                (fun _ => True) fileLinks [] clock Hfs)
      as (outcomes & clock' & Hrun & _ & Hall); [done..|].
    by exists outcomes, clock'. }
  split.
  - split; [done|]. intros Hfs.
    destruct (Hbwd Hfs) as (? & ? & -> & _). done.
  - intros results clock' Hrun.
    destruct Hbwd as (outcomes & k & Hrun' & Hall);
      [apply Hfwd; by rewrite Hrun|].
    rewrite Hrun in Hrun'. injection Hrun' as -> ->.
    assert (Hfiles : Map.keys fileLinks = result_file <$> outcomes).
    { apply (Forall2_fmap_eq _ _ _ _ _ Hall).
      intros [f links] r (content & clk & clk' & _ & _ & Hr).
      symmetry. by apply transformFile_fields in Hr as (? & _). }
    split; [|split].
    + rewrite Hfiles. apply fmap_sublist, sublist_filter_bool.
    + intros r [Hr Hpos]%elem_of_filter_bool.
      apply Nat.ltb_lt in Hpos. split; [done|].
      destruct (Forall2_elem_r _ _ _ _ Hall Hr)
        as ([f links] & _ & content & clk & clk' & _ & Hfs & Hone).
      cbn [fst snd] in Hfs, Hone.
      apply transformFile_fields in Hone as (Hf & Hc & ?).
      by rewrite Hf, Hc.
    + intros Hnd f links content Hin Hfs Hno Hf.
      apply list_elem_of_fmap in Hf as (r & -> & [Hr Hpos]%elem_of_filter_bool).
      destruct (Forall2_elem_r _ _ _ _ Hall Hr)
        as ([f' links'] & Hin' & content' & clk & clk' & _ & Hfs' & Hone).
      cbn [fst snd] in *.
      pose proof (transformFile_fields _ _ _ _ _ _ _ _ _ Hone) as (Hf' & _).
      assert ((f', links') = (result_file r, links)) as [= -> ->].
      { apply (NoDup_fmap_eq fst fileLinks); [done..|]. by cbn. }
      rewrite Hfs in Hfs'. injection Hfs' as <-.
      apply (transformFile_untouched _ _ _ _ _ _ _ _ _ Hno) in Hone
        as (_ & _ & Hzero).
      rewrite Hzero in Hpos. done.
Qed.

Lemma applyTransforms_lookup (results : list TransformResult)
  (fs : gmap string string) (p : string) :
  Batch.applyTransforms fs results !! p
  = match last (List.filter (fun r => String.eqb (result_file r) p) results) with
    | Some r => Some (transformedContent r)
    | None => fs !! p
    end.
Proof.
  revert fs. induction results as [|r rs IH]; intros fs; [done|].
  unfold Batch.applyTransforms in *. cbn [fold_left List.filter].
  rewrite IH.
  destruct (String.eqb (result_file r) p) eqn:E.
  - apply String.eqb_eq in E as <-. rewrite last_cons.
    destruct (last _); [done|]. by rewrite lookup_insert_eq.
  - apply String.eqb_neq in E. destruct (last _); [done|].
    by rewrite lookup_insert_ne.
Qed.

Lemma last_filter_elem {A} (g : A -> bool) (l : list A) (x : A) :
  last (List.filter g l) = Some x -> x ∈ l /\ g x = true.
Proof.
  intros (l' & E)%last_Some. apply elem_of_filter_bool.
  rewrite E. apply elem_of_app. right. left.
Qed.

Lemma applyTransforms_other (fs : gmap string string)
  (results : list TransformResult) (p : string) :
  p ∉ result_file <$> results ->
  Batch.applyTransforms fs results !! p = fs !! p.
Proof.
  intros Hp. rewrite applyTransforms_lookup.
  destruct (last _) as [r|] eqn:E; [|done].
  apply last_filter_elem in E as [Hr Hrp].
  apply String.eqb_eq in Hrp as <-. destruct Hp.
  by apply list_elem_of_fmap_2.
Qed.

Lemma applyTransforms_written (fs : gmap string string)
  (results : list TransformResult) (r : TransformResult) :
  NoDup (result_file <$> results) -> r ∈ results ->
  Batch.applyTransforms fs results !! result_file r
  = Some (transformedContent r).
Proof.
  intros Hnd Hr. rewrite applyTransforms_lookup.
  destruct (last _) as [r'|] eqn:E.
  - apply last_filter_elem in E as [Hr' Heq].
    apply String.eqb_eq in Heq.
    by rewrite (NoDup_fmap_eq result_file results r' r Hnd Hr' Hr Heq).
  - assert (r ∈ List.filter
              (fun x => String.eqb (result_file x) (result_file r)) results)
      as Hin.
    { apply elem_of_filter_bool. split; [done|]. apply String.eqb_refl. }
    destruct (List.filter _ results); [by apply elem_of_nil in Hin|].
    rewrite last_cons in E. by destruct (last l).
Qed.

(** X9. After [applyTransforms] every path holds what the last result for it
    wrote, and a path without a result holds what it held before; when the
    results stand for distinct files, each file holds the transformed
    content of its result.  Applied to what it has itself written, the
    method changes nothing. *)
Theorem applyTransforms_writes (fs : gmap string string)
  (results : list TransformResult) :
  (forall p,
     Batch.applyTransforms fs results !! p
     = match last (List.filter (fun r => String.eqb (result_file r) p) results) with
       | Some r => Some (transformedContent r)
       | None => fs !! p
       end) /\
  (forall p, p ∉ result_file <$> results ->
     Batch.applyTransforms fs results !! p = fs !! p) /\
  (NoDup (result_file <$> results) ->
   forall r, r ∈ results ->
     Batch.applyTransforms fs results !! result_file r
     = Some (transformedContent r)) /\
  Batch.applyTransforms (Batch.applyTransforms fs results) results
  = Batch.applyTransforms fs results.
Proof.
  split; [intros p; apply applyTransforms_lookup|].
  split; [intros p; apply applyTransforms_other|].
  split; [intros Hnd r; by apply applyTransforms_written|].
  apply map_eq. intros p. rewrite !applyTransforms_lookup.
  by destruct (last _).
Qed.

(** ** The transform command *)

Lemma append_inj_l (p s t : string) : p +:+ s = p +:+ t -> s = t.
Proof. induction p as [|a p IH]; cbn; [done|]. intros [= ?]. by apply IH. Qed.

Lemma elem_of_inFile f links l :
  l ∈ inFile f links <-> l ∈ links /\ ExtractedLink.file l = f.
Proof.
  unfold inFile. rewrite elem_of_filter_bool, String.eqb_eq. tauto.
Qed.

Lemma totalChanges_sum (results : list TransformResult) :
  (forall r, r ∈ results ->
     linksTransformed r = length (changes r) /\ (0 < linksTransformed r)%nat) ->
  Commands.totalChanges results = length (results ≫= changes) /\
  (length results <= Commands.totalChanges results)%nat.
Proof.
  unfold Commands.totalChanges.
  enough (forall acc,
    (forall r, r ∈ results ->
       linksTransformed r = length (changes r) /\ (0 < linksTransformed r)%nat) ->
    fold_left (fun acc r => (acc + linksTransformed r)%nat) results acc
      = (acc + length (results ≫= changes))%nat /\
    (acc + length results
     <= fold_left (fun acc r => (acc + linksTransformed r)%nat) results acc)%nat)
    as Hgen by (intros Hall; apply (Hgen 0%nat Hall)).
  induction results as [|r results IH]; intros acc Hall.
  - cbn. lia.
  - destruct (Hall r) as [Hlen Hpos]; [left|].
    destruct (IH (acc + linksTransformed r)%nat) as [Hsum Hle].
    { intros r' Hr'. apply Hall. by right. }
    cbn [fold_left]. rewrite Hsum. cbn [mbind list_bind]. rewrite length_app.
    change (list_bind ?f ?l) with (l ≫= f) in *.
    cbn [length] in *. lia.
Qed.

(** X10. The transform command, when every file with an external link can be
    read.  The rewrite pass takes every slug from the link map built from
    the same links and never reads the clock.  Every result stands for
    one file, has at least one change, and is the transformation of that
    file with its own occurrences.  Over all files, two changes carry the
    same tracking URL exactly when they replace the same URL.  The
    reported total of changes is the number of change entries of all
    results, and not less than the number of files transformed.  A dry run
    leaves every file alone; a real run writes the transformed content of
    every result and touches no other file. *)
Theorem transform_command `{Platform} (config : LinksmithConfig)
  (plugins : list NetworkPlugin.t) (fs : gmap string string)
  (externalLinks : list ExtractedLink.t) (dryRun : bool) (clock : Clock) :
  (forall l, l ∈ externalLinks -> is_Some (fs !! ExtractedLink.file l)) ->
  exists linkMap clock1 results fs',
    Transformer.generateLinkMap config plugins externalLinks clock
      = Some (linkMap, clock1) /\
    Commands.transform config plugins fs externalLinks dryRun clock
      = Some (results, fs', clock1) /\
    NoDup (result_file <$> results) /\
    (forall r, r ∈ results ->
       (0 < linksTransformed r)%nat /\
       fs !! result_file r = Some (originalContent r) /\
       Transformer.transformFile config plugins (result_file r)
         (originalContent r) (inFile (result_file r) externalLinks)
         linkMap clock1 = Some (r, clock1) /\
       forall c, c ∈ changes r ->
         exists entry,
           Map.get linkMap (original c) = Some entry /\
           change_slug c = AffiliateLink.slug entry /\
           trackingUrl c = tracking_baseUrl config +:+ AffiliateLink.slug entry) /\
    (forall r1 r2 c1 c2,
       r1 ∈ results -> r2 ∈ results -> c1 ∈ changes r1 -> c2 ∈ changes r2 ->
       (original c1 = original c2 <-> trackingUrl c1 = trackingUrl c2)) /\
    Commands.totalChanges results = length (results ≫= changes) /\
    (length results <= Commands.totalChanges results)%nat /\
    (dryRun = true -> fs' = fs) /\
    (dryRun = false ->
     (forall r, r ∈ results ->
        fs' !! result_file r = Some (transformedContent r)) /\
     forall p, p ∉ result_file <$> results -> fs' !! p = fs !! p).
Proof.
  intros Hread.
  destruct (C1_slug_table_aux config plugins externalLinks clock)
    as (linkMap & clock1 & Hmap & Hkeys & Hdom & Hslugs).
  pose proof (groupByFile_fold_keys externalLinks []) as Hgk.
  pose proof (fun f => groupByFile_fold_get externalLinks [] f) as Hgg.
  fold (Commands.groupByFile externalLinks) in Hgk, Hgg.
  cbn [Map.keys fmap list_fmap app Map.get] in Hgk, Hgg.
  set (fileLinks := Commands.groupByFile externalLinks) in *.
  assert (Hgnd : NoDup (Map.keys fileLinks))
    by (rewrite Hgk; apply NoDup_firstNew).
  assert (Hgroup : forall f links, (f, links) ∈ fileLinks ->
            links = inFile f externalLinks).
  { intros f links Hin. apply (Map_get_elem _ _ _ Hgnd) in Hin.
    rewrite Hgg in Hin. destruct (inFile f externalLinks); congruence. }
  assert (Htable : forall f links, (f, links) ∈ fileLinks ->
            forall l, l ∈ links -> qualifying l = true ->
              ExtractedLink.url l ∈ Map.keys linkMap).
  { intros f links Hin l Hl Hq. rewrite (Hgroup f links Hin) in Hl.
    apply elem_of_inFile in Hl as [Hl _]. apply Hdom. split; [done|].
    by exists l. }
  destruct (transformFiles_loop_outcomes config plugins fs linkMap
              (fun clk => clk = clock1) fileLinks [] clock1)
    as (outcomes & clock2 & Hrun & -> & Hall).
  { intros f Hf. rewrite Hgk in Hf. apply elem_of_firstNew in Hf as [Hf _].
    apply list_elem_of_fmap in Hf as (l & -> & Hl). by apply Hread. }
  { intros f links content clk r clk' Hin -> Hone.
    destruct (transformFile_table config plugins f content links linkMap clock1
                (Htable f links Hin)) as (r' & Hr' & _).
    rewrite Hone in Hr'. by injection Hr'. }
  { done. }
  rewrite app_nil_l in Hrun.
  set (results := List.filter (fun r => (0 <? linksTransformed r)%nat) outcomes)
    in *.
  assert (Hfiles : Map.keys fileLinks = result_file <$> outcomes).
  { apply (Forall2_fmap_eq _ _ _ _ _ Hall).
    intros [f links] r (content & clk & clk' & _ & _ & Hr).
    symmetry. by apply transformFile_fields in Hr as (? & _). }
  assert (Hnd : NoDup (result_file <$> results)).
  { apply (sublist_NoDup _ (Map.keys fileLinks)); [done|].
    rewrite Hfiles. apply fmap_sublist, sublist_filter_bool. }
  assert (Hres : forall r, r ∈ results ->
     (0 < linksTransformed r)%nat /\
     fs !! result_file r = Some (originalContent r) /\
     Transformer.transformFile config plugins (result_file r)
       (originalContent r) (inFile (result_file r) externalLinks)
       linkMap clock1 = Some (r, clock1) /\
     forall c, c ∈ changes r ->
       exists entry,
         Map.get linkMap (original c) = Some entry /\
         change_slug c = AffiliateLink.slug entry /\
         trackingUrl c = tracking_baseUrl config +:+ AffiliateLink.slug entry).
  { intros r [Hr Hpos]%elem_of_filter_bool. apply Nat.ltb_lt in Hpos.
    split; [done|].
    destruct (Forall2_elem_r _ _ _ _ Hall Hr)
      as ([f links] & Hin & content & clk & clk' & -> & Hfs & Hone).
    cbn [fst snd] in Hfs, Hone.
    destruct (transformFile_table config plugins f content links linkMap clock1
                (Htable f links Hin)) as (r' & Hr' & Hch).
    rewrite Hone in Hr'. injection Hr' as <- ->.
    pose proof (transformFile_fields _ _ _ _ _ _ _ _ _ Hone) as (Hf & Hc & _).
    rewrite Hf, Hc, <- (Hgroup f links Hin). done. }
  exists linkMap, clock1, results,
    (if dryRun then fs else Batch.applyTransforms fs results).
  split; [done|]. split.
  { unfold Commands.transform. rewrite Hmap. fold fileLinks.
    unfold Batch.transformFiles. by rewrite Hrun. }
  split; [done|]. split; [done|]. split.
  { intros r1 r2 c1 c2 Hr1 Hr2 Hc1 Hc2.
    destruct (Hres r1 Hr1) as (_ & _ & _ & Hch1).
    destruct (Hres r2 Hr2) as (_ & _ & _ & Hch2).
    destruct (Hch1 c1 Hc1) as (e1 & Hg1 & _ & ->).
    destruct (Hch2 c2 Hc2) as (e2 & Hg2 & _ & ->).
    split.
    - intros Heq. rewrite Heq, Hg2 in Hg1. by injection Hg1 as ->.
    - intros Heq%append_inj_l.
      apply Map_get_Some in Hg1, Hg2.
      assert ((original c1, e1) = (original c2, e2)) as [= -> _]; [|done].
      apply (NoDup_fmap_eq (fun kv => AffiliateLink.slug kv.2) linkMap);
        [|done..].
      unfold slugsOf, Map.values in Hslugs.
      by rewrite <- list_fmap_compose in Hslugs. }
  split; [|split].
  1-2: apply totalChanges_sum; intros r Hr;
       destruct (Hres r Hr) as (Hpos & _ & Hone & _);
       by apply transformFile_fields in Hone as (_ & _ & ?).
  split; [by intros ->|]. intros ->.
  split; [intros r Hr; by apply applyTransforms_written|].
  intros p Hp. by apply applyTransforms_other.
Qed.

(** ** Escaping, sorting, conversion *)

(** X11. Escaping is undone by reading the escaped text as a pattern: the
    pattern built from any URL is accepted and matches that URL literally,
    and so does the pattern of the rewrite pass. *)
Theorem escapeRegex_round_trip (s : string) :
  RegExp.literal_go (Transformer.escapeRegex s) = Some s /\
  (s <> "" -> RegExp.literal (Transformer.escapeRegex s) = Some s) /\
  RegExp.literal ("\]\(" +:+ Transformer.escapeRegex s +:+ "\)")
  = Some (target s).
Proof.
  assert (Hgo : RegExp.literal_go (Transformer.escapeRegex s) = Some s).
  { pose proof (literal_go_escapeRegex s "" "" eq_refl) as Hgo.
    by rewrite !append_nil_r in Hgo. }
  split; [done|]. split; [|apply literal_target].
  intros Hne. unfold RegExp.literal. rewrite Hgo. by destruct s.
Qed.

Lemma compareLinks_le (a b : ExtractedLink.t) :
  (Transformer.compareLinks a b <=? 0)%Z = true <->
  (ExtractedLink.line b < ExtractedLink.line a)%nat \/
  (ExtractedLink.line b = ExtractedLink.line a /\
   (ExtractedLink.column b <= ExtractedLink.column a)%nat).
Proof.
  unfold Transformer.compareLinks. rewrite Z.leb_le.
  destruct (Nat.eqb_spec (ExtractedLink.line a) (ExtractedLink.line b));
    cbn [negb]; lia.
Qed.

Lemma StronglySorted_mono {A} (R S : A -> A -> Prop) (l : list A) :
  (forall x y, R x y -> S x y) -> StronglySorted R l -> StronglySorted S l.
Proof.
  intros HRS. induction 1 as [|x l _ IH Hall]; constructor; [done|].
  eapply List.Forall_impl; [|exact Hall]. intros y. apply HRS.
Qed.

Lemma sortLinks_same_position (links : list ExtractedLink.t) ln col :
  Forall (fun l => ExtractedLink.line l = ln /\ ExtractedLink.column l = col)
    links ->
  Transformer.sortLinks links = links.
Proof.
  induction 1 as [|a links [Hl Hc] Hall IH]; [done|].
  cbn [Transformer.sortLinks foldr].
  change (foldr Transformer.insertLink [] links)
    with (Transformer.sortLinks links).
  rewrite IH. apply insertLink_first.
  eapply List.Forall_impl; [|exact Hall].
  intros b [Hl' Hc']. apply compareLinks_le. right. lia.
Qed.

(** X12. The order in which the rewrite pass takes the occurrences: the same
    occurrences, from the last position of the file to the first (later
    lines first, within a line later columns first), occurrences at one
    position in their original order. *)
Theorem sortLinks_descending (links : list ExtractedLink.t) :
  Transformer.sortLinks links ≡ₚ links /\
  StronglySorted
    (fun a b =>
       (ExtractedLink.line b < ExtractedLink.line a)%nat \/
       (ExtractedLink.line b = ExtractedLink.line a /\
        (ExtractedLink.column b <= ExtractedLink.column a)%nat))
    (Transformer.sortLinks links) /\
  forall ln col,
    let here l :=
      (ExtractedLink.line l =? ln)%nat && (ExtractedLink.column l =? col)%nat in
    List.filter here (Transformer.sortLinks links) = List.filter here links.
Proof.
  split; [apply sortLinks_Permutation|]. split.
  - eapply StronglySorted_mono; [|apply sortLinks_sorted].
    intros a b. apply compareLinks_le.
  - intros ln col here. rewrite sortLinks_filter.
    apply (sortLinks_same_position _ ln col).
    apply List.Forall_forall. intros l [_ Hl]%filter_In.
    unfold here in Hl. apply andb_true_iff in Hl as [H1 H2].
    by apply Nat.eqb_eq in H1, H2.
Qed.

Lemma convert_Some config plugins (link : ExtractedLink.t) (r : ConversionResult) :
  Converter.convert config plugins link = Some r <->
  exists n plugin nc,
    ExtractedLink.network link = Some n /\ n <> "" /\
    plugins_get plugins n = Some plugin /\
    networks config !! n = Some nc /\ enabled nc = true /\
    r = {| conv_original := ExtractedLink.url link;
           converted :=
             NetworkPlugin.convert plugin (ExtractedLink.url link)
               {| tag := network_tag nc;
                  cleanParams := Some (default true (network_cleanParams nc)) |};
           conv_network := n;
           conv_tag := network_tag nc |}.
Proof.
  unfold Converter.convert, Converter.getNetworkConfig, JS.truthy.
  split.
  - destruct (ExtractedLink.network link) as [n|]; [|done].
    destruct (String.eqb_spec n ""); cbn [negb]; [done|].
    destruct (plugins_get plugins n) as [plugin|] eqn:Ep; [|done].
    destruct (networks config !! n) as [nc|] eqn:En; [|done].
    destruct (enabled nc) eqn:E; cbn [negb]; [|done].
    intros [= <-]. by exists n, plugin, nc.
  - intros (n & plugin & nc & -> & Hn & -> & -> & -> & ->).
    by destruct (String.eqb_spec n "").
Qed.

Lemma elem_of_convertAll config plugins links r :
  r ∈ Batch.convertAll config plugins links <->
  exists l, l ∈ links /\ Converter.convert config plugins l = Some r.
Proof.
  induction links as [|l links IH]; cbn [Batch.convertAll].
  - split; [by intros ?%elem_of_nil|by intros (? & ?%elem_of_nil & _)].
  - destruct (Converter.convert config plugins l) as [r'|] eqn:E.
    + rewrite elem_of_cons, IH. split.
      * intros [->|(x & ? & ?)]; [exists l; split; [left|done]|].
        exists x. split; [by right|done].
      * intros (x & [->|?]%elem_of_cons & Hx); [left; congruence|].
        right. by exists x.
    + rewrite IH. split.
      * intros (x & ? & ?). exists x. split; [by right|done].
      * intros (x & [->|?]%elem_of_cons & Hx); [congruence|]. by exists x.
Qed.

(** X13. [convertAll] reports exactly the occurrences that carry the name of a
    registered plugin whose network is configured and enabled, each with
    the URL its plugin converts it to, in the order of the occurrences;
    the conversion of a concatenation is the concatenation of the
    conversions. *)
Theorem convertAll_reports (config : LinksmithConfig)
  (plugins : list NetworkPlugin.t) (links : list ExtractedLink.t) :
  (forall r, r ∈ Batch.convertAll config plugins links <->
     exists l n plugin nc,
       l ∈ links /\
       ExtractedLink.network l = Some n /\ n <> "" /\
       plugins_get plugins n = Some plugin /\
       networks config !! n = Some nc /\ enabled nc = true /\
       r = {| conv_original := ExtractedLink.url l;
              converted :=
                NetworkPlugin.convert plugin (ExtractedLink.url l)
                  {| tag := network_tag nc;
                     cleanParams :=
                       Some (default true (network_cleanParams nc)) |};
              conv_network := n;
              conv_tag := network_tag nc |}) /\
  sublist (conv_original <$> Batch.convertAll config plugins links)
    (ExtractedLink.url <$> links) /\
  forall links', Batch.convertAll config plugins (links ++ links')
    = (Batch.convertAll config plugins links
       ++ Batch.convertAll config plugins links')%list.
Proof.
  split; [|split].
  - intros r. rewrite elem_of_convertAll. split.
    + intros (l & Hl & (n & plugin & nc & Hc)%convert_Some).
      by exists l, n, plugin, nc.
    + intros (l & n & plugin & nc & Hl & Hc). exists l. split; [done|].
      apply convert_Some. by exists n, plugin, nc.
  - induction links as [|l links IH]; [constructor|].
    cbn [Batch.convertAll]. rewrite fmap_cons.
    destruct (Converter.convert config plugins l) as [r|] eqn:E.
    + apply convert_Some in E as (n & plugin & nc & _ & _ & _ & _ & _ & ->).
      rewrite fmap_cons. cbn [conv_original]. by constructor.
    + by constructor.
  - intros links'. induction links as [|l links IH]; [done|].
    cbn [Batch.convertAll app].
    destruct (Converter.convert config plugins l); by rewrite IH.
Qed.

(** ** The entries of the link map *)

Section FirstOccurrence.
Context `{Platform}.
Variable config : LinksmithConfig.
Variable plugins : list NetworkPlugin.t.

(** The first occurrence with the URL [u]. *)
Abbreviation firstWith u :=
  (List.find (fun l => String.eqb (ExtractedLink.url l) u)).

Lemma generateLinkMap_loop_first links map usedSlugs clock m clock' :
  Transformer.generateLinkMap_loop config plugins links map usedSlugs clock
    = Some (m, clock') ->
  forall u e, (u, e) ∈ m ->
    (u, e) ∈ map \/
    ((u ∉ Map.keys map) /\ JS.startsWith u "http" = true /\
     exists l slug, firstWith u links = Some l /\
       e = Transformer.entryOf config plugins l slug).
Proof.
  revert map usedSlugs clock.
  induction links as [|link rest IH]; intros map usedSlugs clock Hrun u e Hin.
  - cbn in Hrun. injection Hrun as <- <-. by left.
  - cbn [Transformer.generateLinkMap_loop] in Hrun. cbv zeta in Hrun.
    destruct (JS.startsWith (ExtractedLink.url link) "http") eqn:Hq;
      cbn [negb] in Hrun.
    2:{ destruct (IH _ _ _ Hrun u e Hin) as [?|(Hu & Hhttp & l & slug & Hf & ->)];
          [by left|].
        right. split; [done|]. split; [done|]. exists l, slug. split; [|done].
        cbn [find]. destruct (String.eqb_spec (ExtractedLink.url link) u);
          [congruence|done]. }
    destruct (Map.has map (ExtractedLink.url link)) eqn:Hhas.
    { destruct (IH _ _ _ Hrun u e Hin) as [?|(Hu & Hhttp & l & slug & Hf & ->)];
        [by left|].
      right. split; [done|]. split; [done|]. exists l, slug. split; [|done].
      cbn [find]. destruct (String.eqb_spec (ExtractedLink.url link) u) as [E|];
        [|done].
      destruct Hu. rewrite <- E. apply dec_stable. intros Hn.
      apply Map_has_false in Hn. congruence. }
    apply Map_has_false in Hhas.
    destruct (Transformer.generateSlug plugins link clock) as [baseSlug clock1].
    destruct (uniqueSlug usedSlugs (ExtractedLink.url link) baseSlug)
      as [slug|]; [|done].
    destruct (IH _ _ _ Hrun u e Hin) as [Hset|(Hu & Hhttp & l & s & Hf & ->)].
    + apply Map_set_elem in Hset as [[-> ->]|?]; [|by left].
      right. split; [done|]. split; [done|]. exists link, slug.
      split; [|done]. cbn [find]. by rewrite String.eqb_refl.
    + rewrite Map_keys_set in Hu.
      assert (Map.has map (ExtractedLink.url link) = false) as Hf'
        by (by apply Map_has_false).
      rewrite Hf' in Hu. apply not_elem_of_app in Hu as [Hu Hne].
      right. split; [done|]. split; [done|]. exists l, s. split; [|done].
      cbn [find]. destruct (String.eqb_spec (ExtractedLink.url link) u) as [E|];
        [|done].
      destruct Hne. rewrite E. left.
Qed.

End FirstOccurrence.

(** X14. Every entry of the link map is made from the first occurrence of its
    URL: the name is the text of that occurrence (the URL when the text is
    empty), the flag and the network are those of that occurrence, and the
    stored URL is what [Converter.convert] reports for it, or the URL
    itself when the converter declines.  [Reporter.toAffiliateLinks] makes
    the same table. *)
Theorem linkMap_entry_of_first_occurrence `{Platform}
  (config : LinksmithConfig) (plugins : list NetworkPlugin.t)
  (links : list ExtractedLink.t) (clock : Clock) :
  exists m clock',
    Transformer.generateLinkMap config plugins links clock = Some (m, clock') /\
    Reporter.toAffiliateLinks plugins (Some config) links clock
      = Some (Map.values m, clock') /\
    forall u e, Map.get m u = Some e ->
      exists l,
        List.find (fun l => String.eqb (ExtractedLink.url l) u) links = Some l /\
        AffiliateLink.name e
          = (if JS.truthy (ExtractedLink.text l) then ExtractedLink.text l else u) /\
        AffiliateLink.url e
          = match Converter.convert config plugins l with
            | Some r => converted r
            | None => u
            end /\
        AffiliateLink.is_affiliate e = ExtractedLink.isAffiliate l /\
        AffiliateLink.network e = ExtractedLink.network l /\
        AffiliateLink.created_at e = None.
Proof.
  destruct (C1_slug_table_aux config plugins links clock)
    as (m & clock' & Hrun & _).
  exists m, clock'. split; [done|]. split.
  { unfold Reporter.toAffiliateLinks.
    rewrite toAffiliateLinks_loop_generateLinkMap_loop. cbn [reporterConfig].
    unfold Transformer.generateLinkMap in Hrun. by rewrite Hrun. }
  intros u e Hget%Map_get_Some.
  destruct (generateLinkMap_loop_first config plugins links [] ∅ clock m clock'
              Hrun u e Hget) as [?%elem_of_nil|(_ & _ & l & slug & Hf & ->)];
    [done|].
  exists l. split; [done|].
  apply find_some in Hf as [_ Hu%String.eqb_eq].
  cbn. rewrite finalUrl_convert, Hu. done.
Qed.

(** ** The Amazon plugin: further properties *)

Lemma search_Some {A} (here : string -> option A) (s : string) (r : A) :
  RegExp.search here s = Some r ->
  exists a b, s = a +:+ b /\ here b = Some r.
Proof.
  induction s as [|c s IH]; cbn [RegExp.search].
  - destruct (here "") eqn:E; [|done]. intros [= ->]. by exists "", "".
  - destruct (here (String c s)) eqn:E.
    + intros [= ->]. by exists "", (String c s).
    + intros (a & b & -> & Hb)%IH. by exists (String c a), b.
Qed.

Lemma search_is_Some {A} (here : string -> option A) (a b : string) :
  is_Some (here b) -> is_Some (RegExp.search here (a +:+ b)).
Proof.
  intros [x Hx]. induction a as [|c a IH].
  - cbn. destruct b; cbn [RegExp.search]; rewrite Hx; by eapply mk_is_Some.
  - cbn [String.append RegExp.search].
    destruct (here (String c (a +:+ b))); [by eapply mk_is_Some|done].
Qed.

Lemma search_None {A} (here : string -> option A) (a b : string) :
  RegExp.search here (a +:+ b) = None -> here b = None.
Proof.
  intros Hs. destruct (here b) eqn:E; [|done].
  destruct (search_is_Some here a b) as [x Hx]; [by rewrite E|congruence].
Qed.

Lemma slice0_drop (n : nat) (s : string) : JS.slice0 n s +:+ JS.drop n s = s.
Proof.
  revert s. induction n as [|n IH]; intros [|c s]; cbn; try done.
  by rewrite IH.
Qed.

Lemma asin_here_Some (s t rest : string) :
  AmazonPlugin.asin_here s = Some (t, rest) ->
  String.length t = 10%nat /\
  forallb JS.is_alnum (list_ascii_of_string t) = true /\
  s = t +:+ rest.
Proof.
  unfold AmazonPlugin.asin_here.
  destruct (_ && _) eqn:E; [|done]. intros [= <- <-].
  apply andb_true_iff in E as [E1 E2]. apply Nat.eqb_eq in E1.
  split; [done|]. split; [done|]. exact (eq_sym (slice0_drop 10 s)).
Qed.

Lemma prefix_ci_inv (p s : string) :
  JS.prefix_ci p s = true ->
  exists lit,
    s = lit +:+ JS.drop (String.length p) s /\
    JS.toLowerCase lit = JS.toLowerCase p.
Proof.
  revert s. induction p as [|a p IH]; intros s; cbn.
  - intros _. by exists "".
  - destruct s as [|b s]; [done|].
    intros [Hab (lit & Hs & Hl)%IH]%andb_true_iff.
    apply Ascii.eqb_eq in Hab. exists (String b lit). cbn.
    by rewrite <- Hs, Hl, Hab.
Qed.

Lemma pattern_product_here_Some (s asin : string) :
  AmazonPlugin.pattern_product_here s = Some asin ->
  String.length asin = 10%nat /\
  forallb JS.is_alnum (list_ascii_of_string asin) = true /\
  exists lit after,
    s = lit +:+ asin +:+ after /\
    (JS.toLowerCase lit = "/dp/" \/ JS.toLowerCase lit = "/gp/product/").
Proof.
  unfold AmazonPlugin.pattern_product_here.
  assert (Halt : forall lit0,
    (if JS.prefix_ci lit0 s
     then fst <$> AmazonPlugin.asin_here (JS.drop (String.length lit0) s)
     else None) = Some asin ->
    String.length asin = 10%nat /\
    forallb JS.is_alnum (list_ascii_of_string asin) = true /\
    exists lit after, s = lit +:+ asin +:+ after /\
      JS.toLowerCase lit = JS.toLowerCase lit0).
  { intros lit0. destruct (JS.prefix_ci lit0 s) eqn:Hp; [|done].
    destruct (AmazonPlugin.asin_here _) as [[t rest]|] eqn:Ha; [|done].
    intros [= <-]. apply asin_here_Some in Ha as (? & ? & Hd).
    apply prefix_ci_inv in Hp as (lit & Hs & Hl).
    split; [done|]. split; [done|]. exists lit, rest.
    by rewrite <- Hd, <- Hs. }
  cbv zeta.
  destruct (if JS.prefix_ci "/dp/" s then _ else _) as [r|] eqn:E1.
  - intros [= ->]. apply Halt in E1 as (? & ? & lit & after & ? & ?).
    split; [done|]. split; [done|]. exists lit, after. split; [done|]. by left.
  - intros E2. apply Halt in E2 as (? & ? & lit & after & ? & ?).
    split; [done|]. split; [done|]. exists lit, after. split; [done|]. by right.
Qed.

(** Where the pattern with [/ref=] matches, the plain product pattern
    matches too. *)
Lemma pattern_ref_here_product (s a : string) :
  AmazonPlugin.pattern_ref_here s = Some a ->
  is_Some (AmazonPlugin.pattern_product_here s).
Proof.
  unfold AmazonPlugin.pattern_ref_here, AmazonPlugin.pattern_product_here.
  cbv zeta. intros Href.
  destruct (JS.prefix_ci "/dp/" s) eqn:Hdp.
  - assert (JS.prefix_ci "/gp/product/" s = false) as Hgp.
    { destruct s as [|c0 s]; [done|]. destruct s as [|c1 s].
      { cbn in Hdp. by rewrite andb_false_r in Hdp. }
      cbn in Hdp |- *.
      apply andb_true_iff in Hdp as [_ [Hd _]%andb_true_iff].
      apply Ascii.eqb_eq in Hd. rewrite <- Hd. cbn. apply andb_false_r. }
    rewrite Hgp in Href.
    destruct (AmazonPlugin.asin_here _) as [[t rest]|]; [|done].
    by eapply mk_is_Some.
  - destruct (JS.prefix_ci "/gp/product/" s) eqn:Hgp; [|done].
    destruct (AmazonPlugin.asin_here _) as [[t rest]|]; [|done].
    by eapply mk_is_Some.
Qed.

Lemma pattern_short_here_includes (s v : string) :
  AmazonPlugin.pattern_short_here s = Some v ->
  String.prefix "amzn.to" s = true.
Proof.
  unfold AmazonPlugin.pattern_short_here.
  destruct (String.prefix "amzn.to/" s) eqn:Hp; [|done]. intros _.
  apply prefix_inv in Hp as (t & ->). apply (prefix_append "amzn.to").
Qed.

Lemma includes_append (a b sub : string) :
  JS.includes b sub = true -> JS.includes (a +:+ b) sub = true.
Proof.
  intros Hb. apply occurs_includes. apply occurs_includes in Hb.
  by apply occurs_app_r.
Qed.

Lemma truthy_length (s : string) : String.length s <> 0%nat -> JS.truthy s = true.
Proof. by destruct s. Qed.

Lemma extractProductId_eq (url : string) :
  AmazonPlugin.extractProductId url
  = (if JS.includes url "amzn.to" then None
     else RegExp.search AmazonPlugin.pattern_product_here url).
Proof.
  unfold AmazonPlugin.extractProductId, AmazonPlugin.AMAZON_PATTERNS.
  cbn [AmazonPlugin.extractProductId_loop].
  destruct (RegExp.search AmazonPlugin.pattern_product_here url)
    as [m1|] eqn:E1.
  { apply search_Some in E1 as (a & b & _ & Hb).
    apply pattern_product_here_Some in Hb as (Hlen & _).
    rewrite truthy_length by (rewrite Hlen; lia). done. }
  destruct (RegExp.search AmazonPlugin.pattern_short_here url)
    as [m2|] eqn:E2.
  { apply search_Some in E2 as (a & b & -> & Hb).
    apply pattern_short_here_includes in Hb.
    rewrite (includes_append a b) by (by apply includes_prefix).
    destruct (JS.truthy m2); [done|].
    destruct (RegExp.search AmazonPlugin.pattern_ref_here _) as [m3|];
      [by destruct (JS.truthy m3)|done]. }
  destruct (RegExp.search AmazonPlugin.pattern_ref_here url)
    as [m3|] eqn:E3.
  { apply search_Some in E3 as (a & b & -> & Hb).
    apply pattern_ref_here_product in Hb as [x Hx].
    apply search_None in E1. congruence. }
  by destruct (JS.includes url "amzn.to").
Qed.

Lemma extractProductId_loop_first (url asin : string) :
  AmazonPlugin.extractProductId url = Some asin ->
  exists x, RegExp.search AmazonPlugin.pattern_product_here url = Some x.
Proof.
  rewrite extractProductId_eq. destruct (JS.includes url "amzn.to"); [done|].
  intros ->. by exists asin.
Qed.

(** X15. Only the first pattern of the table ever yields a product identifier:
    the result is what the product pattern captures at its leftmost match,
    unless the text [amzn.to] occurs anywhere in the URL.  An identifier is
    ten letters or digits that follow [/dp/] or [/gp/product/] (in any
    case) in the URL. *)
Theorem extractProductId_product_pattern (url : string) :
  AmazonPlugin.extractProductId url
  = (if JS.includes url "amzn.to" then None
     else RegExp.search AmazonPlugin.pattern_product_here url) /\
  forall asin, AmazonPlugin.extractProductId url = Some asin ->
    String.length asin = 10%nat /\
    forallb JS.is_alnum (list_ascii_of_string asin) = true /\
    JS.includes url "amzn.to" = false /\
    exists before lit after,
      url = before +:+ lit +:+ asin +:+ after /\
      (JS.toLowerCase lit = "/dp/" \/ JS.toLowerCase lit = "/gp/product/").
Proof.
  pose proof (extractProductId_eq url) as Heq.
  split; [done|]. intros asin. rewrite Heq.
  destruct (JS.includes url "amzn.to"); [done|].
  intros (before & b & -> & Hb)%search_Some.
  apply pattern_product_here_Some in Hb as (? & ? & lit & after & -> & ?).
  split; [done|]. split; [done|]. split; [done|]. by exists before, lit, after.
Qed.

Lemma AMAZON_DOMAINS_truthy (d : string) :
  d ∈ AmazonPlugin.AMAZON_DOMAINS -> JS.truthy d = true.
Proof.
  unfold AmazonPlugin.AMAZON_DOMAINS. intros Hd.
  repeat (apply elem_of_cons in Hd as [->|Hd]; [done|]).
  by apply elem_of_nil in Hd.
Qed.

Lemma extractDomain_in_table `{Platform} (url : string) :
  AmazonPlugin.extractDomain url ∈ AmazonPlugin.AMAZON_DOMAINS.
Proof.
  assert ("amazon.com" ∈ AmazonPlugin.AMAZON_DOMAINS) as Hdef by left.
  unfold AmazonPlugin.extractDomain.
  destruct (URL_parse url) as [parsed|]; [|done].
  cbv zeta. destruct (find _ _) as [d|] eqn:Hf; [|done].
  apply find_some in Hf as [Hd%list_elem_of_In _].
  by rewrite (AMAZON_DOMAINS_truthy d Hd).
Qed.

(** X16. What [convert] returns.  For a URL with a product identifier it is the
    canonical product address on a domain of the table, followed by the
    tag when one is configured, and by nothing else of the original URL.
    Without product identifier and without tag the URL comes back
    unchanged.  Without product identifier and with a tag, a URL that
    [detect] accepts gets its tag through the URL parser, after the old
    affiliate parameters are deleted: the textual fallback is not taken.
    The option [cleanParams] has no influence on the result. *)
Theorem convert_canonical `{Platform} (url : string) (options : NetworkOptions) :
  (forall asin, AmazonPlugin.extractProductId url = Some asin ->
     exists domain,
       domain ∈ AmazonPlugin.AMAZON_DOMAINS /\
       domain = AmazonPlugin.extractDomain url /\
       AmazonPlugin.convert url options
       = "https://www." +:+ domain +:+ "/dp/" +:+ asin +:+
         (if JS.truthy_opt (tag options)
          then "?tag=" +:+ default "" (tag options) else "")) /\
  (AmazonPlugin.extractProductId url = None ->
   JS.truthy_opt (tag options) = false ->
   AmazonPlugin.convert url options = url) /\
  (AmazonPlugin.extractProductId url = None ->
   AmazonPlugin.detect url = true ->
   forall t, tag options = Some t -> JS.truthy t = true ->
     exists parsed,
       URL_parse url = Some parsed /\
       AmazonPlugin.convert url options
       = URL_toString
           (searchParams_set
              (fold_left searchParams_delete
                 ["tag"; "linkCode"; "creative"; "creativeASIN"; "camp"; "ref"]
                 parsed)
              "tag" t)) /\
  (forall cleanParams',
     AmazonPlugin.convert url
       {| tag := tag options; cleanParams := cleanParams' |}
     = AmazonPlugin.convert url options).
Proof.
  split; [|split; [|split]].
  - intros asin Hid. exists (AmazonPlugin.extractDomain url).
    split; [apply extractDomain_in_table|]. split; [done|].
    unfold AmazonPlugin.convert. rewrite Hid. cbv zeta.
    destruct (JS.truthy_opt (tag options)).
    + by rewrite !append_assoc.
    + by rewrite append_nil_r.
  - intros Hid Htag. unfold AmazonPlugin.convert, AmazonPlugin.updateTag.
    rewrite Hid. destruct (tag options) as [t|]; [|done].
    cbn in Htag. by rewrite Htag.
  - intros Hid Hdet t Htag Ht.
    unfold AmazonPlugin.detect in Hdet.
    destruct (URL_parse url) as [parsed|] eqn:Hparse; [|done].
    exists parsed. split; [done|].
    unfold AmazonPlugin.convert, AmazonPlugin.updateTag.
    by rewrite Hid, Htag, Ht, Hparse.
  - intros cp. unfold AmazonPlugin.convert. by destruct options.
Qed.

(** X17. A URL that [detect] accepts has been parsed, and the domain that
    [convert] builds its result on is a domain of the table that the host
    name of the URL is or ends with: the first such one, never a mere
    default.  A URL that cannot be parsed is never accepted; a URL on an
    Amazon host from which a product identifier can be extracted always
    is. *)
Theorem detect_domain `{Platform} (url : string) :
  (AmazonPlugin.detect url = true ->
   exists parsed,
     URL_parse url = Some parsed /\
     let hostname :=
       JS.removeFirst "www." (JS.toLowerCase (URL_hostname parsed)) in
     List.find (AmazonPlugin.isAmazonHost hostname) AmazonPlugin.AMAZON_DOMAINS
       = Some (AmazonPlugin.extractDomain url) /\
     AmazonPlugin.isAmazonHost hostname (AmazonPlugin.extractDomain url) = true) /\
  (URL_parse url = None -> AmazonPlugin.detect url = false) /\
  (forall parsed asin,
     URL_parse url = Some parsed ->
     existsb
       (AmazonPlugin.isAmazonHost
          (JS.removeFirst "www." (JS.toLowerCase (URL_hostname parsed))))
       AmazonPlugin.AMAZON_DOMAINS = true ->
     AmazonPlugin.extractProductId url = Some asin ->
     AmazonPlugin.detect url = true).
Proof.
  split; [|split].
  - unfold AmazonPlugin.detect, AmazonPlugin.extractDomain.
    destruct (URL_parse url) as [parsed|]; [|done]. cbv zeta.
    set (hostname := JS.removeFirst "www." (JS.toLowerCase (URL_hostname parsed))).
    destruct (existsb _ AmazonPlugin.AMAZON_DOMAINS) eqn:Hex; [|done].
    intros _. exists parsed. split; [done|].
    apply existsb_exists in Hex as (d & Hd & Hhost).
    destruct (find (AmazonPlugin.isAmazonHost hostname) AmazonPlugin.AMAZON_DOMAINS)
      as [d'|] eqn:Hf.
    + pose proof Hf as [Hd'%list_elem_of_In Hhost']%find_some.
      by rewrite (AMAZON_DOMAINS_truthy d' Hd').
    + by rewrite (find_none _ _ Hf d Hd) in Hhost.
  - unfold AmazonPlugin.detect. by intros ->.
  - intros parsed asin Hparse Hhost Hid.
    unfold AmazonPlugin.detect. rewrite Hparse. cbv zeta. rewrite Hhost.
    cbn [negb].
    destruct (extractProductId_loop_first url asin Hid) as [x Hx].
    unfold AmazonPlugin.AMAZON_PATTERNS. cbn [existsb].
    rewrite Hx, bool_decide_true by (by eapply mk_is_Some).
    by rewrite !orb_true_r.
Qed.

(** ** The scanner's fallback extraction *)

Lemma span_spec (f : ascii -> bool) (s x y : string) :
  JS.span f s = (x, y) ->
  s = x +:+ y /\
  forallb f (list_ascii_of_string x) = true /\
  match y with String a _ => f a = false | EmptyString => True end.
Proof.
  revert x y. induction s as [|a s IH]; intros x y; cbn [JS.span].
  - by intros [= <- <-].
  - destruct (f a) eqn:Ha.
    + destruct (JS.span f s) as [x' y'] eqn:E. intros [= <- <-].
      destruct (IH x' y' eq_refl) as (-> & Hx & Hy).
      cbn. by rewrite Ha, Hx.
    + by intros [= <- <-].
Qed.

Lemma span_app (f : ascii -> bool) (x y : string) :
  forallb f (list_ascii_of_string x) = true ->
  match y with String a _ => f a = false | EmptyString => True end ->
  JS.span f (x +:+ y) = (x, y).
Proof.
  intros Hx Hy. induction x as [|a x IH]; cbn.
  - destruct y as [|b y]; [done|]. cbn. by rewrite Hy.
  - cbn in Hx. apply andb_true_iff in Hx as [Ha Hx].
    by rewrite Ha, (IH Hx).
Qed.

Lemma forallb_avoids (c : ascii) (s : string) :
  forallb (fun a => negb (Ascii.eqb a c)) (list_ascii_of_string s)
  = avoids [c] s.
Proof.
  induction s as [|a s IH]; [done|]. cbn. rewrite IH.
  by rewrite orb_false_r.
Qed.

Lemma truthy_ne (s : string) : JS.truthy s = true <-> s <> "".
Proof. destruct s; cbn; split; done. Qed.

Lemma mdLink_here_Some (s text url : string) (len : nat) :
  Scan.mdLink_here s = Some (text, url, len) ->
  exists rest,
    s = "[" +:+ text +:+ target url +:+ rest /\
    avoids ["]"]%char text = true /\ avoids [")"]%char url = true /\
    url <> "" /\ len = (String.length text + String.length url + 4)%nat.
Proof.
  unfold Scan.mdLink_here. destruct s as [|a s]; [done|].
  destruct (Ascii.eqb_spec a "[") as [->|]; [|done].
  destruct (JS.span _ s) as [t r1] eqn:E1.
  apply span_spec in E1 as (-> & Ht & _).
  destruct (String.prefix "](" r1) eqn:Hp; [|done].
  apply prefix_inv in Hp as (r2 & ->).
  change (JS.drop 2 ("](" +:+ r2)) with r2.
  destruct (JS.span _ r2) as [u r3] eqn:E2.
  apply span_spec in E2 as (-> & Hu & _).
  destruct (JS.truthy u && String.prefix ")" r3) eqn:Hc; [|done].
  apply andb_true_iff in Hc as [Hne Hp]. apply prefix_inv in Hp as (r4 & ->).
  intros [= <- <- <-]. exists r4.
  rewrite forallb_avoids in Ht, Hu. apply truthy_ne in Hne.
  split; [|done]. unfold target. cbn. by rewrite !append_assoc.
Qed.

Lemma mdLink_here_match (text url rest : string) :
  avoids ["]"]%char text = true -> avoids [")"]%char url = true ->
  url <> "" ->
  Scan.mdLink_here ("[" +:+ text +:+ target url +:+ rest)
  = Some (text, url, (String.length text + String.length url + 4)%nat).
Proof.
  intros Ht Hu Hne. unfold Scan.mdLink_here, target. cbn [String.append].
  cbn [Ascii.eqb Bool.eqb]. cbv iota.
  rewrite !append_assoc. cbn [String.append].
  rewrite (span_app _ text); [|by rewrite forallb_avoids|done].
  change (String.prefix "](" (String "]" (String "(" ?r))) with (String.prefix "" r).
  assert (forall r, String.prefix "" r = true) as Hnil by (by intros []).
  rewrite Hnil. cbn [JS.drop].
  rewrite (span_app _ url); [|by rewrite forallb_avoids|done].
  apply truthy_ne in Hne. rewrite Hne. cbn. by rewrite Hnil.
Qed.

Lemma href_here_Some (s url : string) (len : nat) :
  Scan.href_here s = Some (url, len) ->
  exists q q' rest,
    Scan.is_quote q = true /\ Scan.is_quote q' = true /\
    s = "href=" +:+ String q url +:+ String q' rest /\
    url <> "" /\
    forallb (fun a => negb (Scan.is_quote a)) (list_ascii_of_string url) = true.
Proof.
  unfold Scan.href_here.
  destruct (String.prefix "href=" s) eqn:Hp; [|done].
  apply prefix_inv in Hp as (r & ->).
  change (JS.drop 5 ("href=" +:+ r)) with r.
  destruct r as [|q r]; [done|].
  destruct (Scan.is_quote q) eqn:Hq; [|done].
  destruct (JS.span _ r) as [u r2] eqn:E.
  apply span_spec in E as (-> & Hu & Hy).
  destruct r2 as [|q' r2]; [done|].
  destruct (JS.truthy u) eqn:Hne; [|done]. intros [= <- <-].
  exists q, q', r2. apply truthy_ne in Hne.
  apply negb_false_iff in Hy. done.
Qed.

Lemma execAll_elem {A} (here : string -> option (A * nat)) index skip s i r :
  (i, r) ∈ Scan.execAll here index skip s ->
  exists a b len,
    s = a +:+ b /\ i = (index + String.length a)%nat /\ here b = Some (r, len).
Proof.
  revert index skip. induction s as [|c s IH]; intros index skip;
    cbn [Scan.execAll]; [by intros ?%elem_of_nil|].
  assert (Hrec : forall k,
    (i, r) ∈ Scan.execAll here (S index) k s ->
    exists a b len,
      String c s = a +:+ b /\ i = (index + String.length a)%nat /\
      here b = Some (r, len)).
  { intros k (a & b & len & -> & -> & Hb)%IH.
    exists (String c a), b, len. cbn. split; [done|]. split; [lia|done]. }
  destruct skip as [|k]; [|apply Hrec].
  destruct (here (String c s)) as [[captures len]|] eqn:E; [|apply Hrec].
  intros [[= -> ->]|Hin]%elem_of_cons; [|by eapply Hrec].
  exists "", (String c s), len. cbn. split; [done|]. split; [lia|done].
Qed.

Lemma split_first (c : ascii) (s : string) :
  exists w ws,
    JS.split c s = w :: ws /\ (exists y, s = w +:+ y) /\
    forall line, line ∈ ws -> occurs line s.
Proof.
  induction s as [|a s (w & ws & E & (y & Hy) & Hws)]; cbn [JS.split].
  - exists "", []. split; [done|]. split; [by exists ""|].
    by intros line ?%elem_of_nil.
  - destruct (Ascii.eqb a c).
    + exists "", (JS.split c s). split; [done|].
      split; [by exists (String a s)|].
      intros line Hin. rewrite E in Hin.
      apply elem_of_cons in Hin as [->|Hin].
      * exists (String a ""), y. by rewrite Hy.
      * destruct (Hws line Hin) as (x & z & ->). by exists (String a x), z.
    + rewrite E. exists (String a w), ws. split; [done|].
      split; [exists y; by rewrite Hy|].
      intros line Hin. destruct (Hws line Hin) as (x & z & ->).
      by exists (String a x), z.
Qed.

Lemma split_elem_occurs (c : ascii) (s line : string) :
  line ∈ JS.split c s -> occurs line s.
Proof.
  destruct (split_first c s) as (w & ws & -> & (y & ->) & Hws).
  intros [->|Hin]%elem_of_cons; [by exists "", y|by apply Hws].
Qed.

Lemma occurs_trans (p line s : string) :
  occurs p line -> occurs line s -> occurs p s.
Proof.
  intros (a & b & ->) (x & y & ->). exists (x +:+ a), (b +:+ y).
  by rewrite !append_assoc.
Qed.

Lemma forEachLine_elem plugins filePath lineIndex lines l :
  l ∈ Scan.forEachLine plugins filePath lineIndex lines ->
  exists k line,
    lines !! k = Some line /\
    l ∈ Scan.linksOfLine plugins filePath (lineIndex + k) line.
Proof.
  revert lineIndex. induction lines as [|line lines IH]; intros lineIndex;
    cbn [Scan.forEachLine]; [by intros ?%elem_of_nil|].
  intros [Hin|(k & line' & Hk & Hin)%IH]%elem_of_app.
  - exists 0%nat, line. by rewrite Nat.add_0_r.
  - exists (S k), line'. split; [done|].
    by replace (lineIndex + S k)%nat with (S lineIndex + k)%nat by lia.
Qed.

Lemma forEachLine_lookup plugins filePath lineIndex lines k line l :
  lines !! k = Some line ->
  l ∈ Scan.linksOfLine plugins filePath (lineIndex + k) line ->
  l ∈ Scan.forEachLine plugins filePath lineIndex lines.
Proof.
  revert lineIndex k. induction lines as [|line' lines IH];
    intros lineIndex [|k]; cbn [Scan.forEachLine]; try done.
  - intros [= ->]. rewrite Nat.add_0_r. intros Hin.
    apply elem_of_app. by left.
  - intros Hk Hin. apply elem_of_app. right. apply (IH _ k); [done|].
    by replace (S lineIndex + k)%nat with (lineIndex + S k)%nat by lia.
Qed.

Lemma detectNetwork_pair plugins url :
  Scanner.detectNetwork plugins url
  = ((Scanner.detectNetwork plugins url).1, (Scanner.detectNetwork plugins url).2).
Proof. by destruct (Scanner.detectNetwork plugins url). Qed.

(** X18. Every link the fallback extraction reports lies in the given file at
    a line of the content, has a non-empty URL and a non-empty text, and
    carries the label of the first plugin that detects its URL.  Its URL
    stands in the content either as a markdown link target, closing
    bracket, parenthesised URL, which is the text the rewrite pass looks
    for, or as the quoted value of an [href] attribute. *)
Theorem extractLinksWithRegex_reports (plugins : list NetworkPlugin.t)
  (content filePath : string) (l : ExtractedLink.t) :
  l ∈ Scan.extractLinksWithRegex plugins content filePath ->
  ExtractedLink.file l = filePath /\
  ExtractedLink.url l <> "" /\ ExtractedLink.text l <> "" /\
  ExtractedLink.originalUrl l = None /\
  (ExtractedLink.isAffiliate l, ExtractedLink.network l)
    = Scanner.detectNetwork plugins (ExtractedLink.url l) /\
  (1 <= ExtractedLink.line l <= length (JS.split "010" content))%nat /\
  (1 <= ExtractedLink.column l)%nat /\
  ((avoids [")"]%char (ExtractedLink.url l) = true /\
    occurs (target (ExtractedLink.url l)) content) \/
   (exists q q',
      Scan.is_quote q = true /\ Scan.is_quote q' = true /\
      occurs ("href=" +:+ String q (ExtractedLink.url l) +:+ String q' "")
        content)).
Proof.
  unfold Scan.extractLinksWithRegex.
  intros (k & line & Hk & Hin)%forEachLine_elem.
  assert (occurs line content) as Hline.
  { apply (split_elem_occurs "010"). by eapply list_elem_of_lookup_2. }
  apply lookup_lt_Some in Hk. cbn [Nat.add] in Hin.
  unfold Scan.linksOfLine in Hin.
  apply elem_of_app in Hin as [Hin|Hin];
    apply list_elem_of_In, in_map_iff in Hin as (m & <- & Hm);
    apply list_elem_of_In in Hm.
  - destruct m as [i [text url]].
    apply execAll_elem in Hm as (a & b & len & -> & -> & Hb).
    apply mdLink_here_Some in Hb as (rest & -> & Ht & Hu & Hne & _).
    cbn [Scan.mdLinkOf ExtractedLink.file ExtractedLink.url ExtractedLink.text
         ExtractedLink.originalUrl ExtractedLink.isAffiliate
         ExtractedLink.network ExtractedLink.line ExtractedLink.column].
    split; [done|]. split; [done|].
    split; [by destruct text|]. split; [done|].
    split; [symmetry; apply detectNetwork_pair|].
    split; [lia|]. split; [lia|]. left. split; [done|].
    apply (occurs_trans _ _ _ ) with (2 := Hline).
    exists (a +:+ "[" +:+ text), rest. by rewrite !append_assoc.
  - destruct m as [i url].
    apply execAll_elem in Hm as (a & b & len & -> & -> & Hb).
    apply href_here_Some in Hb as (q & q' & rest & Hq & Hq' & -> & Hne & _).
    cbn [Scan.hrefLinkOf ExtractedLink.file ExtractedLink.url ExtractedLink.text
         ExtractedLink.originalUrl ExtractedLink.isAffiliate
         ExtractedLink.network ExtractedLink.line ExtractedLink.column].
    split; [done|]. split; [done|]. split; [done|]. split; [done|].
    split; [symmetry; apply detectNetwork_pair|].
    split; [lia|]. split; [lia|]. right. exists q, q'.
    split; [done|]. split; [done|].
    apply (occurs_trans _ _ _ ) with (2 := Hline).
    exists a, rest. by rewrite !append_assoc.
Qed.

Lemma execAll_first (pre text url post : string) (index : nat) :
  avoids ["["]%char pre = true ->
  avoids ["]"]%char text = true -> avoids [")"]%char url = true ->
  url <> "" ->
  ((index + String.length pre)%nat, (text, url))
  ∈ Scan.execAll Scan.mdLink_here index 0
      (pre +:+ "[" +:+ text +:+ target url +:+ post).
Proof.
  intros Hpre Ht Hu Hne. revert index.
  induction pre as [|c pre IH]; intros index.
  - pose proof (mdLink_here_match text url post Ht Hu Hne) as Hm.
    cbn [String.append] in Hm |- *. cbn [Scan.execAll]. rewrite Hm.
    rewrite Nat.add_0_r. left.
  - cbn in Hpre. rewrite orb_false_r in Hpre.
    apply andb_true_iff in Hpre as [Hc Hpre].
    cbn [String.append Scan.execAll]. unfold Scan.mdLink_here at 1.
    apply negb_true_iff in Hc. rewrite Hc.
    cbn [String.length]. rewrite <- Nat.add_succ_comm. by apply IH.
Qed.

(** X19. A markdown link before which its line has no opening bracket is
    reported by the fallback extraction, with its text and URL, the number
    of its line and the column of its opening bracket. *)
Theorem extractLinksWithRegex_finds (plugins : list NetworkPlugin.t)
  (content filePath : string) (k : nat) (line pre text url post : string) :
  JS.split "010" content !! k = Some line ->
  line = pre +:+ "[" +:+ text +:+ target url +:+ post ->
  avoids ["["]%char pre = true ->
  avoids ["]"]%char text = true -> avoids [")"]%char url = true ->
  url <> "" ->
  Scan.mdLinkOf plugins filePath k (String.length pre, (text, url))
  ∈ Scan.extractLinksWithRegex plugins content filePath.
Proof.
  intros Hk -> Hpre Ht Hu Hne. unfold Scan.extractLinksWithRegex.
  apply (forEachLine_lookup _ _ _ _ k _ _ Hk). cbn [Nat.add].
  unfold Scan.linksOfLine. apply elem_of_app. left.
  apply list_elem_of_In, in_map, list_elem_of_In.
  by apply (execAll_first pre text url post 0).
Qed.

(** ** The scanner's filters *)

(** When [isExternalLink] accepts a URL. *)
Lemma isExternalLink_iff `{Platform} (config : LinksmithConfig)
  (url : string) :
  Scan.isExternalLink config url = true <->
  exists parsed site,
    URL_parse url = Some parsed /\
    URL_parse (siteUrl config) = Some site /\
    URL_hostname parsed <> URL_hostname site /\
    JS.startsWith url "/" = false /\
    JS.startsWith url "#" = false /\
    JS.startsWith url "." = false /\
    JS.startsWith url "mailto:" = false /\
    JS.startsWith url "tel:" = false.
Proof.
  unfold Scan.isExternalLink. split.
  - intros Hext.
    destruct (JS.startsWith url "/"); [done|].
    destruct (JS.startsWith url "#"); [done|].
    destruct (JS.startsWith url "."); [done|].
    destruct (JS.startsWith url "mailto:"); [done|].
    destruct (JS.startsWith url "tel:"); [done|].
    cbn [orb] in Hext.
    destruct (URL_parse url) as [parsed|]; [|done].
    destruct (URL_parse (siteUrl config)) as [site|]; [|done].
    exists parsed, site. apply negb_true_iff, String.eqb_neq in Hext. done.
  - intros (parsed & site & -> & -> & Hne & -> & -> & -> & -> & ->).
    cbn [orb]. by apply negb_true_iff, String.eqb_neq.
Qed.

(** X20. What [scan] returns: the external links are the links whose URL
    [isExternalLink] accepts, the affiliate links are the external links
    flagged as affiliate, each list in the original order and nothing left
    out.  [isExternalLink] accepts a URL exactly when the URL and the site
    URL both parse, their host names differ, and the URL starts with none
    of the characters of a relative link or anchor nor with [mailto:] or
    [tel:].  With a site URL that cannot be parsed no link at all is
    external. *)
Theorem scan_filters `{Platform} (config : LinksmithConfig)
  (found : list string) (scanFile : string -> list ExtractedLink.t) :
  let result := Scan.scan config found scanFile in
  Scan.files result = length found /\
  Scan.links result = concat (scanFile <$> found) /\
  Scan.externalLinks result
  = List.filter
      (fun l => Scan.isExternalLink config (ExtractedLink.url l))
      (Scan.links result) /\
  Scan.affiliateLinks result
  = List.filter ExtractedLink.isAffiliate (Scan.externalLinks result) /\
  sublist (Scan.affiliateLinks result) (Scan.externalLinks result) /\
  sublist (Scan.externalLinks result) (Scan.links result) /\
  (forall l, l ∈ Scan.links result <->
     exists f, f ∈ found /\ l ∈ scanFile f) /\
  (forall l, l ∈ Scan.affiliateLinks result <->
     l ∈ Scan.externalLinks result /\ ExtractedLink.isAffiliate l = true) /\
  (forall l, l ∈ Scan.externalLinks result <->
     l ∈ Scan.links result /\
     exists parsed site,
       URL_parse (ExtractedLink.url l) = Some parsed /\
       URL_parse (siteUrl config) = Some site /\
       URL_hostname parsed <> URL_hostname site /\
       JS.startsWith (ExtractedLink.url l) "/" = false /\
       JS.startsWith (ExtractedLink.url l) "#" = false /\
       JS.startsWith (ExtractedLink.url l) "." = false /\
       JS.startsWith (ExtractedLink.url l) "mailto:" = false /\
       JS.startsWith (ExtractedLink.url l) "tel:" = false) /\
  (forall url, Scan.isExternalLink config url = true <->
     exists parsed site,
       URL_parse url = Some parsed /\
       URL_parse (siteUrl config) = Some site /\
       URL_hostname parsed <> URL_hostname site /\
       JS.startsWith url "/" = false /\
       JS.startsWith url "#" = false /\
       JS.startsWith url "." = false /\
       JS.startsWith url "mailto:" = false /\
       JS.startsWith url "tel:" = false) /\
  (URL_parse (siteUrl config) = None ->
   Scan.externalLinks result = [] /\ Scan.affiliateLinks result = []).
Proof.
  intros result. unfold result, Scan.scan. cbn.
  split; [done|]. split; [done|]. split; [done|]. split; [done|].
  split; [apply sublist_filter_bool|].
  split; [apply sublist_filter_bool|]. split; [|split; [|split; [|split]]].
  - intros l. rewrite list_elem_of_In, in_concat. split.
    + intros (ls & (f & <- & Hf)%in_map_iff & Hl).
      exists f. by rewrite !list_elem_of_In.
    + intros (f & Hf & Hl). exists (scanFile f).
      rewrite <- !list_elem_of_In. split; [|done].
      apply list_elem_of_In, in_map. by apply list_elem_of_In.
  - intros l. by rewrite elem_of_filter_bool.
  - intros l. rewrite elem_of_filter_bool, isExternalLink_iff. done.
  - intros url. apply isExternalLink_iff.
  - intros Hsite.
    assert (forall url, Scan.isExternalLink config url = false) as Hnone.
    { intros url. unfold Scan.isExternalLink. rewrite Hsite.
      repeat (destruct (_ || _); [done|]). by destruct (URL_parse url). }
    assert (List.filter
              (fun link => Scan.isExternalLink config (ExtractedLink.url link))
              (concat (map scanFile found)) = []) as ->; [|done].
    induction (concat (map scanFile found)) as [|l ls IH]; [done|].
    cbn. by rewrite Hnone.
Qed.

(** ** Report formats *)

Lemma readQuoted_doubleAll (q : ascii) (value rest : string) :
  String.prefix (String q "") rest = false \/ rest = "" ->
  readQuoted q (Report.doubleAll q value +:+ String q rest)
  = Some (value, rest).
Proof.
  intros Hrest. induction value as [|a value IH].
  - cbn [Report.doubleAll String.append readQuoted].
    rewrite Ascii.eqb_refl. destruct rest as [|b rest]; [done|].
    destruct Hrest as [Hp|?]; [|done].
    destruct (Ascii.eqb_spec b q) as [->|Hne]; [|done].
    pose proof (prefix_append (String q "") rest) as Hp'.
    cbn [String.append] in Hp'. congruence.
  - cbn [Report.doubleAll]. destruct (Ascii.eqb_spec a q) as [->|Hne].
    + cbn [String.append readQuoted]. rewrite !Ascii.eqb_refl.
      by rewrite IH.
    + cbn [String.append readQuoted].
      apply Ascii.eqb_neq in Hne. by rewrite Hne, IH.
Qed.

Lemma includes_char_avoids (c : ascii) (s : string) :
  JS.includes s (String c "") = false -> avoids [c] s = true.
Proof.
  induction s as [|a s IH]; [done|]. cbn [JS.includes avoids existsb].
  intros [Hp Hs]%orb_false_iff. rewrite (IH Hs), orb_false_r, andb_true_r.
  destruct (Ascii.eqb_spec a c) as [->|Hne]; [|done].
  pose proof (prefix_append (String c "") s) as Hp'.
  cbn [String.append] in Hp'. congruence.
Qed.

(** X21. A CSV reader gets back from an escaped field, whatever text it holds,
    exactly that text, and is left with what follows the field: the end of
    the file, a comma or a line feed. *)
Theorem escapeCsv_round_trip (value rest : string) :
  rest = "" \/ String.prefix "," rest = true
  \/ String.prefix Report.LF rest = true ->
  readCsvField (Report.escapeCsv value +:+ rest) = Some (value, rest).
Proof.
  intros Hrest. unfold Report.escapeCsv.
  destruct (_ || _) eqn:Hc.
  { cbn [orb String.append readCsvField]. rewrite Ascii.eqb_refl.
    rewrite append_assoc. apply readQuoted_doubleAll.
    destruct Hrest as [->|[Hp|Hp]]; [by right| |]; left;
      apply prefix_inv in Hp as (t & ->); done. }
  apply orb_false_iff in Hc as [[Hcomma Hquote]%orb_false_iff Hlf].
  apply includes_char_avoids in Hcomma.
  apply includes_char_avoids in Hquote.
  apply includes_char_avoids in Hlf.
  assert (Hspan : JS.span
            (fun a => negb (Ascii.eqb a "," || Ascii.eqb a "010"))
            (value +:+ rest) = (value, rest)).
  { apply span_app.
    - clear -Hcomma Hlf. induction value as [|a value IH]; [done|].
      cbn in *. rewrite orb_false_r in Hcomma, Hlf.
      apply andb_true_iff in Hcomma as [H1 H2].
      apply andb_true_iff in Hlf as [H3 H4].
      apply negb_true_iff in H1, H3. rewrite H1, H3. cbn. by apply IH.
    - destruct Hrest as [->|[Hp|Hp]]; [done|..];
        apply prefix_inv in Hp as (t & ->); done. }
  destruct value as [|a value].
  - cbn [String.append] in *. destruct rest as [|b rest]; [done|].
    cbn [readCsvField].
    assert (Ascii.eqb b "034" = false) as ->; [|by rewrite Hspan].
    destruct Hrest as [?|[Hp|Hp]]; [done|..];
      apply prefix_inv in Hp as (t & [= -> _]); done.
  - cbn [String.append readCsvField] in *.
    cbn in Hquote. rewrite orb_false_r in Hquote.
    apply andb_true_iff in Hquote as [Ha _]. apply negb_true_iff in Ha.
    by rewrite Ha, Hspan.
Qed.

Lemma escapeCsv_read (value rest : string) :
  readCsvField (Report.escapeCsv value +:+ "," +:+ rest)
  = Some (value, "," +:+ rest).
Proof.
  unfold Report.escapeCsv.
  destruct (_ || _) eqn:Hc.
  { cbn [orb String.append readCsvField]. rewrite Ascii.eqb_refl.
    rewrite append_assoc. apply readQuoted_doubleAll. by left. }
  apply orb_false_iff in Hc as [[Hcomma Hquote]%orb_false_iff Hlf].
  apply includes_char_avoids in Hcomma.
  apply includes_char_avoids in Hquote.
  apply includes_char_avoids in Hlf.
  assert (Hspan : JS.span
            (fun a => negb (Ascii.eqb a "," || Ascii.eqb a "010"))
            (value +:+ "," +:+ rest) = (value, "," +:+ rest)).
  { apply span_app; [|done].
    clear -Hcomma Hlf. induction value as [|a value IH]; [done|].
    cbn in *. rewrite orb_false_r in Hcomma, Hlf.
    apply andb_true_iff in Hcomma as [H1 H2].
    apply andb_true_iff in Hlf as [H3 H4].
    apply negb_true_iff in H1, H3. rewrite H1, H3. cbn. by apply IH. }
  destruct value as [|a value]; [done|].
  cbn [String.append readCsvField] in *.
  cbn in Hquote. rewrite orb_false_r in Hquote.
  apply andb_true_iff in Hquote as [Ha _]. apply negb_true_iff in Ha.
  by rewrite Ha, Hspan.
Qed.

(** X22. The CSV report is the header line followed by one line per record, and
    a CSV reader gets back from every line the slug, the name and the URL
    of its record, whatever characters they hold; what is left of the line
    is the flag and the network. *)
Theorem toCsv_rows (links : list AffiliateLink.t) :
  Report.toCsv links
  = "slug,name,url,is_affiliate,network"
    +:+ fold_right (fun link acc => Report.LF +:+ Report.csvRow link +:+ acc)
          "" links /\
  forall link, exists r1 r2 r3,
    readCsvField (Report.csvRow link)
      = Some (AffiliateLink.slug link, "," +:+ r1) /\
    readCsvField r1 = Some (AffiliateLink.name link, "," +:+ r2) /\
    readCsvField r2 = Some (AffiliateLink.url link, "," +:+ r3) /\
    r3 = (if AffiliateLink.is_affiliate link then "true" else "false")
         +:+ "," +:+
         (if JS.truthy_opt (AffiliateLink.network link)
          then default "" (AffiliateLink.network link) else "").
Proof.
  split.
  - unfold Report.toCsv. cbv zeta.
    change (String.concat "," ["slug"; "name"; "url"; "is_affiliate"; "network"])
      with "slug,name,url,is_affiliate,network".
    generalize "slug,name,url,is_affiliate,network" as header.
    induction links as [|link links IH]; intros header.
    + cbn. by rewrite append_nil_r.
    + cbn [map fold_right]. change (String.concat ?s (?x :: ?y :: ?l))
        with (x +:+ s +:+ String.concat s (y :: l)).
      by rewrite IH.
  - intros link. unfold Report.csvRow. cbn [String.concat].
    eexists _, _, _. rewrite !escapeCsv_read. done.
Qed.


(** ** Configuration *)

(** X24. A configuration merged over the defaults always has a site URL, so
    that validation never asks for one; it passes validation exactly when
    the file neither empties [content.include] nor sets an empty
    [tracking.baseUrl].  The defaults themselves pass.  The Amazon network
    keeps its default entry unless the file brings its own. *)
Theorem mergeConfig_validate (overrides : Config.Overrides) :
  let config := Config.mergeConfig Config.DEFAULT_CONFIG overrides in
  JS.truthy (Config.siteUrl config) = true /\
  ("siteUrl is required" ∉ Config.validateConfig config) /\
  (Config.validateConfig config = [] <->
   Config.content' overrides ≫= Config.include' <> Some [] /\
   Config.tracking' overrides ≫= Config.baseUrl' <> Some "") /\
  Config.validateConfig Config.DEFAULT_CONFIG = [] /\
  Config.networks config !! "amazon"
  = match Config.networks' overrides ≫= (fun m => m !! "amazon") with
    | Some nc => Some nc
    | None => Config.networks Config.DEFAULT_CONFIG !! "amazon"
    end.
Proof.
  intros config.
  assert (Hsite : JS.truthy (Config.siteUrl config) = true).
  { unfold config, Config.mergeConfig. cbn [Config.siteUrl].
    destruct (Config.siteUrl' overrides) as [s|]; [|done]. cbn.
    by destruct (JS.truthy s) eqn:E. }
  split; [done|].
  unfold Config.validateConfig. cbv zeta. rewrite Hsite. cbn [negb app].
  set (inc := Config.content' overrides ≫= Config.include').
  set (base := Config.tracking' overrides ≫= Config.baseUrl').
  assert (Hinc : Config.include (Config.content config)
                 = default ["**/*.md"; "**/*.mdx"] inc) by done.
  assert (Hbase : Config.baseUrl (Config.tracking config)
                  = default "/link/" base) by done.
  rewrite Hinc, Hbase. clearbody inc base.
  split; [|split; [|split; [done|]]].
  - destruct inc as [[|? ?]|], base as [[|? ?]|]; cbn;
      rewrite ?elem_of_cons, ?elem_of_nil; intuition discriminate.
  - destruct inc as [[|? ?]|], base as [[|? ?]|]; cbn;
      split; try done; intros [? ?]; done.
  - unfold config, Config.mergeConfig. cbn [Config.networks].
    rewrite lookup_union.
    destruct (Config.networks' overrides) as [m|]; cbn [default mbind option_bind].
    + unfold id. by destruct (m !! "amazon"),
        (Config.networks Config.DEFAULT_CONFIG !! "amazon").
    + rewrite lookup_empty.
      by destruct (Config.networks Config.DEFAULT_CONFIG !! "amazon").
Qed.

(** X25. Under the default configuration, where the Amazon network is enabled
    with an empty tag, the URL stored for an occurrence labelled amazon is
    the canonical product address without any tag when a product
    identifier can be extracted, and the URL as written otherwise. *)
Theorem default_config_conversion `{Platform} (link : ExtractedLink.t) :
  ExtractedLink.network link = Some "amazon" ->
  Transformer.finalUrl (coreConfig Config.DEFAULT_CONFIG) [AmazonPlugin.plugin]
    link
  = match AmazonPlugin.extractProductId (ExtractedLink.url link) with
    | Some asin =>
        "https://www." +:+ AmazonPlugin.extractDomain (ExtractedLink.url link)
        +:+ "/dp/" +:+ asin
    | None => ExtractedLink.url link
    end.
Proof.
  intros Hnet. unfold Transformer.finalUrl. rewrite Hnet.
  cbn [JS.truthy String.eqb negb]. cbv zeta.
  change (plugins_get [AmazonPlugin.plugin] "amazon")
    with (Some AmazonPlugin.plugin).
  unfold coreConfig, Config.DEFAULT_CONFIG.
  cbn [networks Config.networks]. rewrite lookup_singleton_eq.
  cbn [enabled network_tag network_cleanParams NetworkPlugin.convert
       AmazonPlugin.plugin default].
  unfold AmazonPlugin.convert, AmazonPlugin.updateTag.
  by destruct (AmazonPlugin.extractProductId (ExtractedLink.url link)).
Qed.

(** ** The shape of base slugs *)

Lemma slice0_length (n : nat) (s : string) : (String.length (JS.slice0 n s) <= n)%nat.
Proof.
  revert s. induction n as [|n IH]; intros [|a s]; cbn; try lia.
  specialize (IH s). lia.
Qed.

Lemma stripTrailingDashes_length (s : string) :
  (String.length (JS.stripTrailingDashes s) <= String.length s)%nat.
Proof.
  induction s as [|a s IH]; [done|]. cbn [JS.stripTrailingDashes].
  destruct (JS.stripTrailingDashes s) as [|b t].
  - destruct (Ascii.eqb a "-"); cbn; lia.
  - cbn in *. lia.
Qed.

Lemma stripTrailingDashes_no_dash (s t : string) :
  JS.stripTrailingDashes s <> t +:+ "-".
Proof.
  revert t. induction s as [|a s IH]; intros t; cbn [JS.stripTrailingDashes].
  - by destruct t.
  - destruct (JS.stripTrailingDashes s) as [|b u] eqn:E.
    + destruct (Ascii.eqb_spec a "-") as [->|Hne]; [by destruct t|].
      destruct t as [|c [|d t]]; cbn; congruence.
    + destruct t as [|c t]; cbn; [congruence|].
      intros [= -> Hu]. by apply (IH t).
Qed.

Lemma toLowerCase_length (s : string) :
  String.length (JS.toLowerCase s) = String.length s.
Proof. induction s as [|a s IH]; cbn; [done|]. by rewrite IH. Qed.

(** X26. The base slug by the branch that makes it.  A slug made from the link
    text is the slugified text cut to fifty characters with the dashes at
    its end removed: at most fifty characters, never ending with a dash.
    A slug made from the parsed URL is cut to fifty characters.  The slug
    the Amazon plugin makes from a product identifier is [amazon-] and the
    identifier in lower case, seventeen characters.  None of these
    branches reads the clock. *)
Theorem baseSlug_shape `{Platform} (plugins : list NetworkPlugin.t)
  (link : ExtractedLink.t) (clock : Clock) :
  let url := ExtractedLink.url link in
  let text := ExtractedLink.text link in
  let slug := fst (Transformer.generateSlug plugins link clock) in
  let usable := JS.truthy text && negb (String.eqb text url) in
  (usable = true ->
   Transformer.pluginOf plugins link = None \/
   Transformer.pluginOf plugins link = Some AmazonPlugin.plugin ->
   slug = JS.stripTrailingDashes (JS.slice0 50 (slugify text)) /\
   (String.length slug <= 50)%nat /\
   (forall t, slug <> t +:+ "-") /\
   snd (Transformer.generateSlug plugins link clock) = clock) /\
  (usable = false ->
   Transformer.pluginOf plugins link = None ->
   forall parsed, URL_parse url = Some parsed ->
     slug = JS.slice0 50 (slugify (domainOf parsed +:+ "-" +:+ pathPartOf parsed)) /\
     (String.length slug <= 50)%nat /\
     snd (Transformer.generateSlug plugins link clock) = clock) /\
  (usable = false ->
   Transformer.pluginOf plugins link = Some AmazonPlugin.plugin ->
   forall asin, AmazonPlugin.extractProductId url = Some asin ->
     slug = "amazon-" +:+ JS.toLowerCase asin /\
     String.length slug = 17%nat /\
     snd (Transformer.generateSlug plugins link clock) = clock).
Proof.
  intros url text slug usable. unfold slug, Transformer.generateSlug.
  fold url text. cbv zeta.
  split; [|split].
  - intros Hus Hplugin.
    assert (String.length (JS.stripTrailingDashes (JS.slice0 50 (slugify text)))
            <= 50)%nat as Hlen.
    { etrans; [apply stripTrailingDashes_length|apply slice0_length]. }
    destruct Hplugin as [-> | ->].
    + fold usable. rewrite Hus. cbn [fst snd].
      split; [done|]. split; [done|]. split; [|done].
      intros t. apply stripTrailingDashes_no_dash.
    + cbn [NetworkPlugin.generateSlug AmazonPlugin.plugin].
      unfold AmazonPlugin.generateSlug. fold usable. rewrite Hus. cbn [fst snd].
      split; [done|]. split; [done|]. split; [|done].
      intros t. apply stripTrailingDashes_no_dash.
  - intros Hus -> parsed Hparse. fold usable. rewrite Hus, Hparse.
    cbn [fst snd]. split; [done|]. split; [apply slice0_length|done].
  - intros Hus -> asin Hid.
    cbn [NetworkPlugin.generateSlug AmazonPlugin.plugin].
    unfold AmazonPlugin.generateSlug. fold usable. rewrite Hus, Hid.
    cbn [fst snd]. split; [done|]. split; [|done].
    rewrite append_length, toLowerCase_length.
    rewrite extractProductId_eq in Hid.
    destruct (JS.includes url "amzn.to"); [done|].
    apply search_Some in Hid as (a & b & _ & Hb).
    apply pattern_product_here_Some in Hb as (-> & _). done.
Qed.

(** ** The convert command *)

Lemma convertAll_amazon `{Platform} (config : LinksmithConfig)
  (links : list ExtractedLink.t) :
  (forall l, l ∈ links -> ExtractedLink.network l = Some "amazon") ->
  Batch.convertAll config [AmazonPlugin.plugin] links
  = match networks config !! "amazon" with
    | Some nc =>
        if enabled nc then
          (fun l =>
             {| conv_original := ExtractedLink.url l;
                converted :=
                  AmazonPlugin.convert (ExtractedLink.url l)
                    {| tag := network_tag nc;
                       cleanParams :=
                         Some (default true (network_cleanParams nc)) |};
                conv_network := "amazon";
                conv_tag := network_tag nc |}) <$> links
        else []
    | None => []
    end.
Proof.
  intros Hnet.
  assert (Hone : forall l, l ∈ links ->
    Converter.convert config [AmazonPlugin.plugin] l
    = match networks config !! "amazon" with
      | Some nc =>
          if enabled nc then
            Some {| conv_original := ExtractedLink.url l;
                    converted :=
                      AmazonPlugin.convert (ExtractedLink.url l)
                        {| tag := network_tag nc;
                           cleanParams :=
                             Some (default true (network_cleanParams nc)) |};
                    conv_network := "amazon";
                    conv_tag := network_tag nc |}
          else None
      | None => None
      end).
  { intros l Hl. unfold Converter.convert, Converter.getNetworkConfig.
    rewrite (Hnet l Hl). cbn [JS.truthy String.eqb negb].
    change (plugins_get [AmazonPlugin.plugin] "amazon")
      with (Some AmazonPlugin.plugin).
    destruct (networks config !! "amazon") as [nc|]; [|done].
    by destruct (enabled nc). }
  clear Hnet. induction links as [|l links IH].
  - cbn. destruct (networks config !! "amazon") as [nc|]; [|done].
    by destruct (enabled nc).
  - cbn [Batch.convertAll]. rewrite (Hone l) by left.
    rewrite IH by (intros l' Hl'; apply Hone; by right).
    destruct (networks config !! "amazon") as [nc|]; [|done].
    by destruct (enabled nc).
Qed.

(** The links that [convert] turns down do not count. *)
Lemma convertAll_filter `{Platform} (config : LinksmithConfig)
  (plugins : list NetworkPlugin.t) (keep : ExtractedLink.t -> bool)
  (links : list ExtractedLink.t) :
  (forall l, l ∈ links -> keep l = false ->
     Converter.convert config plugins l = None) ->
  Batch.convertAll config plugins links
  = Batch.convertAll config plugins (List.filter keep links).
Proof.
  induction links as [|l links IH]; intros Hskip; [done|].
  assert (Batch.convertAll config plugins links
          = Batch.convertAll config plugins (List.filter keep links)) as IH'.
  { apply IH. intros l' Hl'. apply Hskip. by right. }
  cbn [Batch.convertAll List.filter]. destruct (keep l) eqn:Hk.
  - cbn [Batch.convertAll]. by rewrite IH'.
  - rewrite (Hskip l) by (done || left). done.
Qed.

(** X27. The convert command, for links to which the scanner has given the
    network that detects their URL, with the plugin list of the command;
    a link may be flagged as affiliate without being detected, as the
    links of an [AffiliateLink] element are.  With the Amazon network
    enabled the command reports one conversion per affiliate link whose
    URL the Amazon plugin detects, in order, each the Amazon conversion of
    the link's URL with the configured tag; the other affiliate links give
    no conversion; with the network disabled or not configured it reports
    none.  Asking for the network amazon changes nothing, asking for any
    other network gives no conversion. *)
Theorem convert_command `{Platform} (config : LinksmithConfig)
  (links : list ExtractedLink.t) :
  let plugins := [AmazonPlugin.plugin] in
  let affiliateLinks := List.filter ExtractedLink.isAffiliate links in
  let detected :=
    List.filter
      (fun l => NetworkPlugin.detect AmazonPlugin.plugin (ExtractedLink.url l))
      affiliateLinks in
  (forall l, l ∈ links ->
     ExtractedLink.network l
     = snd (Scanner.detectNetwork plugins (ExtractedLink.url l))) ->
  Commands.convert config plugins affiliateLinks None
  = match networks config !! "amazon" with
    | Some nc =>
        if enabled nc then
          (fun l =>
             {| conv_original := ExtractedLink.url l;
                converted :=
                  AmazonPlugin.convert (ExtractedLink.url l)
                    {| tag := network_tag nc;
                       cleanParams :=
                         Some (default true (network_cleanParams nc)) |};
                conv_network := "amazon";
                conv_tag := network_tag nc |}) <$> detected
        else []
    | None => []
    end /\
  Commands.convert config plugins affiliateLinks (Some "amazon")
  = Commands.convert config plugins affiliateLinks None /\
  (forall n, n <> "" -> n <> "amazon" ->
     Commands.convert config plugins affiliateLinks (Some n) = []) /\
  ((forall l, l ∈ links ->
      fst (Scanner.detectNetwork plugins (ExtractedLink.url l)) = true ->
      ExtractedLink.isAffiliate l = true) ->
   detected
   = List.filter
       (fun l => NetworkPlugin.detect AmazonPlugin.plugin (ExtractedLink.url l))
       links).
Proof.
  intros plugins affiliateLinks detected Hlabel.
  set (detects := fun l : ExtractedLink.t =>
         NetworkPlugin.detect AmazonPlugin.plugin (ExtractedLink.url l)).
  assert (Hnet : forall l, l ∈ affiliateLinks ->
            ExtractedLink.network l
            = if detects l then Some "amazon" else None).
  { intros l [Hl Haff]%elem_of_filter_bool. rewrite (Hlabel l Hl).
    unfold plugins, detects. cbn [Scanner.detectNetwork].
    by destruct (NetworkPlugin.detect AmazonPlugin.plugin _). }
  assert (Hsame : forall n,
    List.filter (fun l => bool_decide (ExtractedLink.network l = Some n))
      affiliateLinks
    = if String.eqb n "amazon" then detected else []).
  { intros n. unfold detected. fold detects. revert Hnet.
    generalize affiliateLinks as ls.
    induction ls as [|l ls IH]; intros Hnet; [by destruct (String.eqb _ _)|].
    cbn [List.filter]. rewrite (Hnet l) by left.
    rewrite IH by (intros l' Hl'; apply Hnet; by right).
    destruct (detects l).
    - destruct (String.eqb_spec n "amazon") as [->|Hne].
      + by rewrite bool_decide_true.
      + rewrite bool_decide_false; [done|congruence].
    - rewrite bool_decide_false by done. by destruct (String.eqb n "amazon"). }
  assert (Hall : Batch.convertAll config plugins affiliateLinks
                 = Batch.convertAll config plugins detected).
  { apply (convertAll_filter config plugins detects). intros l Hl Hd.
    unfold Converter.convert. by rewrite (Hnet l Hl), Hd. }
  assert (Hdet : forall l, l ∈ detected ->
            ExtractedLink.network l = Some "amazon").
  { intros l [Hl Hd]%elem_of_filter_bool. rewrite (Hnet l Hl).
    fold (detects l) in Hd. by rewrite Hd. }
  split; [|split; [|split]].
  - unfold Commands.convert. cbn [JS.truthy_opt]. rewrite Hall.
    by apply convertAll_amazon.
  - unfold Commands.convert. cbn [JS.truthy_opt JS.truthy String.eqb negb].
    by rewrite Hsame, Hall.
  - intros n Hn Hne. unfold Commands.convert. cbn [JS.truthy_opt].
    apply truthy_ne in Hn. rewrite Hn, Hsame.
    apply String.eqb_neq in Hne. by rewrite Hne.
  - intros Haff. unfold detected, affiliateLinks. fold detects.
    clear Hnet Hsame Hall Hdet. revert Hlabel Haff.
    generalize links as ls.
    induction ls as [|l ls IH]; intros Hlabel Haff; [done|].
    assert (List.filter detects (List.filter ExtractedLink.isAffiliate ls)
            = List.filter detects ls) as IH'.
    { apply IH; intros l' Hl'; [apply Hlabel | apply Haff]; by right. }
    cbn [List.filter]. destruct (detects l) eqn:Hd.
    + rewrite (Haff l) by
        (first [left | unfold plugins; cbn [Scanner.detectNetwork];
                       fold (detects l); by rewrite Hd]).
      cbn [List.filter]. by rewrite Hd, IH'.
    + destruct (ExtractedLink.isAffiliate l); [|done].
      cbn [List.filter]. by rewrite Hd.
Qed.

(** ** Further properties at concrete inputs *)

(** The layout of the store: the record of mixer is replaced in place, the
    new slug goes last. *)
Lemma upsertLinks_layout_witness :
  let blender := AffiliateLink.mk "blender" "Blender"
                   "https://a.example/blender" false None None in
  let mixer := AffiliateLink.mk "mixer" "Mixer" "https://b.example/mixer"
                 false None None in
  let mixer' := AffiliateLink.mk "mixer" "Mixer" "https://b.example/mixer-2"
                  false None None in
  let kettle := AffiliateLink.mk "kettle" "Kettle" "https://c.example/kettle"
                  false None None in
  FileSystemAdapter.getLinks
    (FileSystemAdapter.upsertLinks (Some [blender; mixer]) [kettle; mixer'])
  = [blender; mixer'; kettle].
Proof.
  intros blender mixer mixer' kettle.
  rewrite (upsertLinks_layout (Some [blender; mixer]) [kettle; mixer']).
  - reflexivity.
  - compute_done.
Defined.

(** The second pass over a rewritten document with two links to one URL
    changes nothing. *)
Lemma transformFile_second_pass_witness :
  let config := {| siteUrl := "http://localhost:3000";
                   tracking_baseUrl := "/link/";
                   networks := ∅ |} in
  let url := "https://a.example/blender" in
  let content :=
    "[first](https://a.example/blender) and [second](https://a.example/blender)" in
  let links :=
    [ ExtractedLink.mk url "first" "post.md" 1 1 false None None;
      ExtractedLink.mk url "second" "post.md" 1 40 false None None ] in
  let linkMap :=
    [(url, AffiliateLink.mk "first" "first" url false None None)] in
  exists clock3,
    Transformer.transformFile (H := Reference.platform) config [] "post.md"
      "[first](/link/first) and [second](/link/first)" links linkMap
      (fun _ => 0%N)
    = Some ({| result_file := "post.md";
               originalContent := "[first](/link/first) and [second](/link/first)";
               transformedContent := "[first](/link/first) and [second](/link/first)";
               linksTransformed := 0;
               changes := [] |}, clock3).
Proof.
  intros config url content links linkMap.
  destruct (transformFile_second_pass (H := Reference.platform) config []
              "post.md" content links linkMap (fun _ => 0%N))
    as (r & clock' & Hrun & _ & Hsecond).
  - intros l Hl. vm_compute in Hl. elem_cases Hl; reflexivity.
  - intros l l' k Hl Hl'. vm_compute in Hl, Hl'.
    elem_cases Hl; elem_cases Hl';
      (split; [reflexivity | split; [reflexivity | discriminate]]).
  - vm_compute in Hrun. injection Hrun as <- _.
    exact (Hsecond (fun _ => 0%N)).
Defined.

(** The transform command on two files that link the same URL: it
    completes, and after it every result's file holds the transformed
    content. *)
Lemma transform_command_witness :
  let config := {| siteUrl := "http://localhost:3000";
                   tracking_baseUrl := "/link/";
                   networks := ∅ |} in
  let fs : gmap string string :=
    {[ "a.md" := "[Blender](https://a.example/blender)";
       "b.md" := "See [the blender](https://a.example/blender)." ]} in
  let externalLinks :=
    [ ExtractedLink.mk "https://a.example/blender" "Blender" "a.md" 1 1
        false None None;
      ExtractedLink.mk "https://a.example/blender" "the blender" "b.md" 1 5
        false None None ] in
  exists results fs' clock1,
    Commands.transform (H := Reference.platform) config [] fs externalLinks
      false (fun _ => 0%N) = Some (results, fs', clock1) /\
    NoDup (result_file <$> results) /\
    forall r, r ∈ results ->
      fs' !! result_file r = Some (transformedContent r).
Proof.
  intros config fs externalLinks.
  destruct (transform_command (H := Reference.platform) config [] fs
              externalLinks false (fun _ => 0%N))
    as (linkMap & clock1 & results & fs' & _ & Hrun & Hnd & _ & _ & _ & _ & _
        & Hreal).
  - intros l Hl. elem_cases Hl; by eexists.
  - exists results, fs', clock1. split; [exact Hrun|]. split; [exact Hnd|].
    by destruct (Hreal eq_refl).
Defined.

(** What the command does to these two files. *)
Example transform_two_files :
  let config := {| siteUrl := "http://localhost:3000";
                   tracking_baseUrl := "/link/";
                   networks := ∅ |} in
  let fs : gmap string string :=
    {[ "a.md" := "[Blender](https://a.example/blender)";
       "b.md" := "See [the blender](https://a.example/blender)." ]} in
  let externalLinks :=
    [ ExtractedLink.mk "https://a.example/blender" "Blender" "a.md" 1 1
        false None None;
      ExtractedLink.mk "https://a.example/blender" "the blender" "b.md" 1 5
        false None None ] in
  (fun out => (out.1.2 !! "a.md", out.1.2 !! "b.md")) <$>
    Commands.transform (H := Reference.platform) config [] fs externalLinks
      false (fun _ => 0%N)
  = Some (Some "[Blender](/link/blender)",
          Some "See [the blender](/link/blender).").
Proof. vm_compute. reflexivity. Qed.

(** The fallback extraction on a document of two lines: the markdown link
    of the second line is reported at line 2, column 5, and its target
    stands in the document. *)
Lemma extractLinksWithRegex_reports_witness :
  let content :=
    "# Kitchen" +:+ Report.LF +:+ "See [Blender](https://a.example/blender)." in
  let l := ExtractedLink.mk "https://a.example/blender" "Blender" "post.md"
             2 5 false None None in
  l ∈ Scan.extractLinksWithRegex [] content "post.md" /\
  ExtractedLink.url l <> "" /\
  (1 <= ExtractedLink.line l <= 2)%nat.
Proof.
  intros content l.
  assert (l ∈ Scan.extractLinksWithRegex [] content "post.md") as Hl
    by (vm_compute; left).
  split; [exact Hl|].
  destruct (extractLinksWithRegex_reports [] content "post.md" l Hl)
    as (_ & Hurl & _ & _ & _ & Hline & _).
  split; [exact Hurl|exact Hline].
Defined.

(** The same link, found from its place in the line. *)
Lemma extractLinksWithRegex_finds_witness :
  let content :=
    "# Kitchen" +:+ Report.LF +:+ "See [Blender](https://a.example/blender)." in
  ExtractedLink.mk "https://a.example/blender" "Blender" "post.md" 2 5
    false None None
  ∈ Scan.extractLinksWithRegex [] content "post.md".
Proof.
  intros content.
  apply (extractLinksWithRegex_finds [] content "post.md" 1
           "See [Blender](https://a.example/blender)." "See " "Blender"
           "https://a.example/blender" ".");
    [reflexivity..|discriminate].
Defined.

(** A name with a comma and quotes, followed by the next field. *)
Lemma escapeCsv_round_trip_witness :
  let value := "Blender, the " +:+ String "034" "best" +:+ String "034" "" in
  readCsvField (Report.escapeCsv value +:+ ",https://a.example/blender")
  = Some (value, ",https://a.example/blender").
Proof.
  intros value.
  apply (escapeCsv_round_trip value ",https://a.example/blender").
  right. left. reflexivity.
Defined.

(** Under the default configuration a tagged product link loses its
    tag. *)
Lemma default_config_conversion_witness :
  Transformer.finalUrl (coreConfig Config.DEFAULT_CONFIG)
    [AmazonPlugin.plugin (H := Reference.platform)]
    (ExtractedLink.mk "https://www.amazon.co.uk/dp/B000A6PPOK?tag=other-21"
       "Blender" "post.md" 1 1 true (Some "amazon") None)
  = "https://www.amazon.co.uk/dp/B000A6PPOK".
Proof.
  rewrite (default_config_conversion (H := Reference.platform)).
  - reflexivity.
  - reflexivity.
Defined.

(** The convert command on a document with one Amazon link, one link of an
    [AffiliateLink] element to another shop and one plain link: one
    conversion, with the configured tag. *)
Lemma convert_command_witness :
  let config :=
    {| siteUrl := "http://localhost:3000";
       tracking_baseUrl := "/link/";
       networks :=
         {[ "amazon" := {| enabled := true;
                           network_tag := Some "donkitchencom-20";
                           network_cleanParams := None |} ]} |} in
  let links :=
    [ ExtractedLink.mk "https://www.amazon.com/dp/B000A6PPOK?tag=other-20"
        "Blender" "post.md" 1 1 true (Some "amazon") None;
      ExtractedLink.mk "https://b.example/mixer" "Mixer" "post.md" 2 1
        true None None;
      ExtractedLink.mk "https://c.example/kettle" "Kettle" "post.md" 3 1
        false None None ] in
  List.filter ExtractedLink.isAffiliate links = take 2 links /\
  converted <$>
    Commands.convert config [AmazonPlugin.plugin (H := Reference.platform)]
      (List.filter ExtractedLink.isAffiliate links) None
  = ["https://www.amazon.com/dp/B000A6PPOK?tag=donkitchencom-20"].
Proof.
  intros config links. split; [reflexivity|].
  destruct (convert_command (H := Reference.platform) config links)
    as (Hall & _).
  - intros l Hl. elem_cases Hl; reflexivity.
  - rewrite Hall. reflexivity.
Defined.
